(** * IQDuel: the live session layer of the dots-and-boxes server

    A shallow embedding of [src/server/new_index.ts] (and of its older twin
    [src/server/index.ts], which has the same board logic and handlers but no
    persistence calls), followed by the properties of the board geometry, the
    session state machine and the matchmaking queue.

    Conventions of the embedding.
    - JavaScript numbers that the program uses as grid indices, scores and
      clocks are integers ([Z]).
    - [Map<string, V>] is an insertion-ordered association list ([JsMap]),
      because the program iterates such maps and reads [values()[0]].
    - Mutation of the room object is explicit state passing: a handler takes
      the server (or room) state and returns the new one together with the
      messages it emitted, in order.
    - [Math.random], [uuidv4] and [Date.now] are inputs of the handlers: a
      natural number, a supply [nat -> string] and an integer clock value.
    - Every handler body runs to completion before the next event is taken
      (the event loop of Node.js); the points where a handler awaits the
      database are not modelled as interleaving points. *)

From Stdlib Require Import ZArith Lia Bool.
From stdpp Require Import base tactics option list list_numbers strings pretty.

Local Open Scope Z_scope.

(** ** Constants *)

Definition TURN_TIME : Z := 30.
Definition GRID_SIZE : Z := 6.
Definition MAX_YELLOW_CARDS : Z := 2.
Definition MAX_RED_CARDS : Z := 1.
Definition TOTAL_BOXES : Z := (GRID_SIZE - 1) * (GRID_SIZE - 1).
Definition ROOM_CLEANUP_INTERVAL : Z := 15 * 60 * 1000.

(** ** Game state interfaces *)

Inductive PlayerNumber : Type := P1 | P2.

Global Instance PlayerNumber_eq_dec : EqDecision PlayerNumber.
Proof. solve_decision. Defined.

(** [n === 1 ? 2 : 1] *)
Definition otherPlayer (n : PlayerNumber) : PlayerNumber :=
  match n with P1 => P2 | P2 => P1 end.

Record Coordinates : Type := mkCoord { row : Z; col : Z }.

Global Instance Coordinates_eq_dec : EqDecision Coordinates.
Proof. solve_decision. Defined.

Record Line : Type := mkLine {
  l_start : Coordinates;
  l_end : Coordinates;
  l_player : PlayerNumber;
  l_timestamp : option Z
}.

Global Instance Line_eq_dec : EqDecision Line.
Proof. solve_decision. Defined.

Record Box : Type := mkBox {
  b_topLeft : Coordinates;
  b_player : PlayerNumber;
  b_id : string
}.

Record Scores : Type := mkScores { player1 : Z; player2 : Z }.

Record Cards : Type := mkCards { yellow : Z; red : Z }.

Inductive GameStatus : Type := Waiting | Active | Ended.

Global Instance GameStatus_eq_dec : EqDecision GameStatus.
Proof. solve_decision. Defined.

Record GameState : Type := mkGameState {
  lines : list Line;
  boxes : list Box;
  currentPlayer : PlayerNumber;
  scores : Scores;
  warnings : Cards * Cards;
  gameStatus : GameStatus;
  winner : option PlayerNumber;
  isPaused : bool;
  timeLeft : Z;
  soundEnabled : bool;
  playerNames : string * string
}.

(** Field assignments on the game state. *)

Definition set_lines (v : list Line) (g : GameState) : GameState :=
  mkGameState v (boxes g) (currentPlayer g) (scores g) (warnings g)
    (gameStatus g) (winner g) (isPaused g) (timeLeft g) (soundEnabled g)
    (playerNames g).

Definition set_boxes (v : list Box) (g : GameState) : GameState :=
  mkGameState (lines g) v (currentPlayer g) (scores g) (warnings g)
    (gameStatus g) (winner g) (isPaused g) (timeLeft g) (soundEnabled g)
    (playerNames g).

Definition set_currentPlayer (v : PlayerNumber) (g : GameState) : GameState :=
  mkGameState (lines g) (boxes g) v (scores g) (warnings g)
    (gameStatus g) (winner g) (isPaused g) (timeLeft g) (soundEnabled g)
    (playerNames g).

Definition set_scores (v : Scores) (g : GameState) : GameState :=
  mkGameState (lines g) (boxes g) (currentPlayer g) v (warnings g)
    (gameStatus g) (winner g) (isPaused g) (timeLeft g) (soundEnabled g)
    (playerNames g).

Definition set_gameStatus (v : GameStatus) (g : GameState) : GameState :=
  mkGameState (lines g) (boxes g) (currentPlayer g) (scores g) (warnings g)
    v (winner g) (isPaused g) (timeLeft g) (soundEnabled g)
    (playerNames g).

Definition set_winner (v : option PlayerNumber) (g : GameState) : GameState :=
  mkGameState (lines g) (boxes g) (currentPlayer g) (scores g) (warnings g)
    (gameStatus g) v (isPaused g) (timeLeft g) (soundEnabled g)
    (playerNames g).

Definition set_isPaused (v : bool) (g : GameState) : GameState :=
  mkGameState (lines g) (boxes g) (currentPlayer g) (scores g) (warnings g)
    (gameStatus g) (winner g) v (timeLeft g) (soundEnabled g)
    (playerNames g).

Definition set_timeLeft (v : Z) (g : GameState) : GameState :=
  mkGameState (lines g) (boxes g) (currentPlayer g) (scores g) (warnings g)
    (gameStatus g) (winner g) (isPaused g) v (soundEnabled g)
    (playerNames g).

Definition set_playerNames (v : string * string) (g : GameState) : GameState :=
  mkGameState (lines g) (boxes g) (currentPlayer g) (scores g) (warnings g)
    (gameStatus g) (winner g) (isPaused g) (timeLeft g) (soundEnabled g) v.

(** [scores[`player${n}`]] and [scores[`player${n}`] += d] *)
Definition scoreOf (n : PlayerNumber) (s : Scores) : Z :=
  match n with P1 => player1 s | P2 => player2 s end.

Definition addScore (n : PlayerNumber) (d : Z) (s : Scores) : Scores :=
  match n with
  | P1 => mkScores (player1 s + d) (player2 s)
  | P2 => mkScores (player1 s) (player2 s + d)
  end.

(** ** Board geometry *)

(** The predicate that [isLineAlreadyDrawn] passes to [some] and [findLine]
    passes to [find]: the line joins [s] and [e], in either direction. *)
Definition joins (line : Line) (s e : Coordinates) : bool :=
  ((row (l_start line) =? row s) && (col (l_start line) =? col s) &&
   (row (l_end line) =? row e) && (col (l_end line) =? col e))
  ||
  ((row (l_start line) =? row e) && (col (l_start line) =? col e) &&
   (row (l_end line) =? row s) && (col (l_end line) =? col s)).

Definition isLineAlreadyDrawn (gameState : GameState) (move : Line) : bool :=
  existsb (fun line => joins line (l_start move) (l_end move)) (lines gameState).

Definition findLine (ls : list Line) (s e : Coordinates) : option Line :=
  snd <$> list_find (fun line => joins line s e) ls.

(** [lines.indexOf(line)]: the first position holding [line], or [-1].
    JavaScript compares objects by identity here. The only lines ever looked
    up are results of [findLine] on the same array, and for those the first
    position holding an equal record is the position of the object itself
    (lemma [indexOf_findLine] below), so comparing records is exact. *)
Definition indexOf (ls : list Line) (line : Line) : Z :=
  match list_find (fun x => x = line) ls with
  | Some (i, _) => Z.of_nat i
  | None => -1
  end.

Definition getAvailableMoves (gameState : GameState) : list Line :=
  flat_map (fun row =>
    flat_map (fun col =>
      (if col <? GRID_SIZE - 1 then
         let horizontalLine :=
           mkLine (mkCoord row col) (mkCoord row (col + 1))
                  (currentPlayer gameState) None in
         if negb (isLineAlreadyDrawn gameState horizontalLine)
         then [horizontalLine] else []
       else [])
      ++
      (if row <? GRID_SIZE - 1 then
         let verticalLine :=
           mkLine (mkCoord row col) (mkCoord (row + 1) col)
                  (currentPlayer gameState) None in
         if negb (isLineAlreadyDrawn gameState verticalLine)
         then [verticalLine] else []
       else []))
    (seqZ 0 GRID_SIZE))
  (seqZ 0 GRID_SIZE).

(** [`box-${row}-${col}-${uuidv4().slice(0, 8)}`] *)
Definition boxId (topLeft : Coordinates) (uuid : string) : string :=
  "box-" +:+ pretty (row topLeft) +:+ "-" +:+ pretty (col topLeft) +:+ "-"
  +:+ String.substring 0 8 uuid.

(** The reduce over [[topLine, rightLine, bottomLine, leftLine]], which has
    no initial value and so starts from [topLine]. *)
Definition lastLine (ls : list Line) (topLine rightLine bottomLine leftLine : Line)
  : Line :=
  fold_left
    (fun latest line => if indexOf ls line >? indexOf ls latest then line else latest)
    [rightLine; bottomLine; leftLine] topLine.

(** One iteration of the inner loop of [checkForBoxes]. [uuids k] is the
    result of the [k]-th call of [uuidv4] in this run; one call is made for
    each box pushed. *)
Definition checkCell (uuids : nat -> string) (ls : list Line)
    (boxes : list Box) (row col : Z) : list Box :=
  let topLeft := mkCoord row col in
  let topRight := mkCoord row (col + 1) in
  let bottomLeft := mkCoord (row + 1) col in
  let bottomRight := mkCoord (row + 1) (col + 1) in
  match findLine ls topLeft topRight, findLine ls topRight bottomRight,
        findLine ls bottomLeft bottomRight, findLine ls topLeft bottomLeft with
  | Some topLine, Some rightLine, Some bottomLine, Some leftLine =>
      boxes ++ [mkBox topLeft
                  (l_player (lastLine ls topLine rightLine bottomLine leftLine))
                  (boxId topLeft (uuids (length boxes)))]
  | _, _, _, _ => boxes
  end.

Definition checkForBoxes (uuids : nat -> string) (ls : list Line) : list Box :=
  fold_left (fun boxes row =>
    fold_left (fun boxes col => checkCell uuids ls boxes row col)
              (seqZ 0 (GRID_SIZE - 1)) boxes)
  (seqZ 0 (GRID_SIZE - 1)) [].

(** ** Rooms and players *)

(** [Map<string, V>]: keys in insertion order; [set] on a key that is
    present keeps its position. *)
Abbreviation JsMap V := (list (string * V)).

Fixpoint jm_get {V} (k : string) (m : JsMap V) : option V :=
  match m with
  | [] => None
  | (k', v) :: m' => if decide (k' = k) then Some v else jm_get k m'
  end.

Fixpoint jm_set {V} (k : string) (v : V) (m : JsMap V) : JsMap V :=
  match m with
  | [] => [(k, v)]
  | (k', v') :: m' =>
      if decide (k' = k) then (k, v) :: m' else (k', v') :: jm_set k v m'
  end.

Definition jm_delete {V} (k : string) (m : JsMap V) : JsMap V :=
  filter (fun kv => kv.1 ≠ k) m.

Definition jm_has {V} (k : string) (m : JsMap V) : bool :=
  bool_decide (is_Some (jm_get k m)).

Definition jm_values {V} (m : JsMap V) : list V := m.*2.

Definition jm_size {V} (m : JsMap V) : nat := length m.

Record Player : Type := mkPlayer {
  username : string;
  socketId : string;
  playerNumber : option PlayerNumber;
  userId : option string;
  phone : option string;
  ref : option string
}.

Definition set_playerNumber (v : option PlayerNumber) (p : Player) : Player :=
  mkPlayer (username p) (socketId p) v (userId p) (phone p) (ref p).

(** [turnTimer] is [true] while an interval is scheduled for the room. *)
Record Room : Type := mkRoom {
  id : string;
  players : JsMap Player;
  gameState : GameState;
  turnTimer : bool;
  lastActivityTime : Z;
  gameStartTime : Z
}.

Definition set_players (v : JsMap Player) (r : Room) : Room :=
  mkRoom (id r) v (gameState r) (turnTimer r) (lastActivityTime r) (gameStartTime r).

Definition set_gameState (v : GameState) (r : Room) : Room :=
  mkRoom (id r) (players r) v (turnTimer r) (lastActivityTime r) (gameStartTime r).

Definition set_turnTimer (v : bool) (r : Room) : Room :=
  mkRoom (id r) (players r) (gameState r) v (lastActivityTime r) (gameStartTime r).

(** [this.gameState.f = v], through the room. *)
Definition upd (f : GameState -> GameState) (r : Room) : Room :=
  set_gameState (f (gameState r)) r.

(** The texts sent back to clients, by meaning. *)
Inductive Message : Type :=
  | MsgAlreadyInQueue        (* "شما قبلا در صف هستید" *)
  | MsgAlreadyInRoom         (* "شما قبلا در یک اتاق هستید" *)
  | MsgJoinedQueue           (* "وارد صف انتظار شدید" *)
  | MsgJoinQueueError        (* "خطا در ورود به صف انتظار" *)
  | MsgRoomNotFound          (* "اتاق یافت نشد" *)
  | MsgNotInRoom             (* "شما در این اتاق نیستید" *)
  | MsgNotYourTurnOrInactive (* "نوبت شما نیست یا بازی فعال نیست" *)
  | MsgLineAlreadyDrawn.     (* "این خط قبلاً کشیده شده است" *)

Global Instance Message_eq_dec : EqDecision Message.
Proof. solve_decision. Defined.

(** What a handler sends out: broadcasts to a room ([io.to(room).emit]),
    the acknowledgement [callback] of the request being served, socket
    group membership, and the calls to the record store. The [progress]
    field of [timer_update] is [timeLeft / TURN_TIME * 100] and is left out. *)
Inductive Emit : Type :=
  | timer_update (room : string) (timeLeft : Z)
  | random_move_played (room : string) (move : Line) (timedOut : PlayerNumber)
  | game_update (room : string) (g : GameState)
  | start_game (room : string) (g : GameState)
  | player_left (room : string) (who : string) (g : GameState)
  | socket_join (socket room : string)
  | socket_leave (socket room : string)
  | callback (success : bool) (message : option Message)
  | db_game_create (room : string) (startedAt endedAt : Z)
      (first second : Player) (g : GameState)
  | db_user_inc (user : string) (wins losses draws : Z) (totalScore : Z).

Definition new_Room (roomId : string) (now : Z) : Room :=
  mkRoom roomId []
    (mkGameState [] [] P1 (mkScores 0 0) (mkCards 0 0, mkCards 0 0) Waiting
       None false TURN_TIME true ("در انتظار...", "در انتظار..."))
    false now now.

Definition updateActivityTime (now : Z) (r : Room) : Room :=
  mkRoom (id r) (players r) (gameState r) (turnTimer r) now (gameStartTime r).

Definition addPlayer (now : Z) (player : Player) (r : Room) : Room :=
  updateActivityTime now (set_players (jm_set (socketId player) player (players r)) r).

Definition removePlayer (now : Z) (socket : string) (r : Room) : Room :=
  updateActivityTime now (set_players (jm_delete socket (players r)) r).

Definition isFull (r : Room) : bool := bool_decide (2 ≤ jm_size (players r))%nat.

Definition isEmpty (r : Room) : bool := bool_decide (jm_size (players r) = 0%nat).

Definition getPlayerByNumber (n : PlayerNumber) (r : Room) : option Player :=
  snd <$> list_find (fun p => playerNumber p = Some n) (jm_values (players r)).

Definition isInactive (now maxInactiveTime : Z) (r : Room) : bool :=
  maxInactiveTime <? now - lastActivityTime r.

Definition clearTurnTimer (r : Room) : Room := set_turnTimer false r.

(** [saveGame], up to the call of [Game.create]. *)
Definition saveGame (now : Z) (r : Room) : list Emit :=
  match getPlayerByNumber P1 r, getPlayerByNumber P2 r with
  | Some first, Some second =>
      [db_game_create (id r) (gameStartTime r) now first second (gameState r)]
  | _, _ => []
  end.

Definition b2z (b : bool) : Z := if b then 1 else 0.

(** [updatePlayerStats]: the two increments sent to the record store. *)
Definition updatePlayerStats (r : Room) : list Emit :=
  let g := gameState r in
  if bool_decide (gameStatus g ≠ Ended) then []
  else
    match getPlayerByNumber P1 r ≫= userId, getPlayerByNumber P2 r ≫= userId with
    | Some u1, Some u2 =>
        [db_user_inc u1 (b2z (bool_decide (winner g = Some P1)))
                        (b2z (bool_decide (winner g = Some P2)))
                        (b2z (bool_decide (winner g = None)))
                        (player1 (scores g));
         db_user_inc u2 (b2z (bool_decide (winner g = Some P2)))
                        (b2z (bool_decide (winner g = Some P1)))
                        (b2z (bool_decide (winner g = None)))
                        (player2 (scores g))]
    | _, _ => []
    end.

Definition endGame (now : Z) (r : Room) : list Emit :=
  saveGame now r ++ updatePlayerStats r.

(** [winner = p1 > p2 ? 1 : p2 > p1 ? 2 : null] *)
Definition decideWinner (s : Scores) : option PlayerNumber :=
  if player1 s >? player2 s then Some P1
  else if player2 s >? player1 s then Some P2
  else None.

(** The statements that follow [lines.push] in both [makeRandomMove]
    (lines 171-187) and the [make_move] handler (lines 592-608), which are
    the same text up to the name of the mover: [this.gameState.currentPlayer]
    in the former, [player.playerNumber] in the latter. *)
Definition scoreMove (mover : PlayerNumber) (now : Z) (uuids : nat -> string)
    (r : Room) : Room * list Emit :=
  let newBoxes := checkForBoxes uuids (lines (gameState r)) in
  let boxesCompleted :=
    Z.of_nat (length newBoxes) - Z.of_nat (length (boxes (gameState r))) in
  let r := upd (set_boxes newBoxes) r in
  let r :=
    if boxesCompleted >? 0
    then upd (fun g => set_scores (addScore mover boxesCompleted (scores g)) g) r
    else upd (set_currentPlayer (otherPlayer mover)) r in
  if Z.of_nat (length (boxes (gameState r))) >=? TOTAL_BOXES then
    let r := upd (set_gameStatus Ended) r in
    let r := upd (fun g => set_winner (decideWinner (scores g)) g) r in
    (r, endGame now r)
  else (r, []).

(** [Math.floor(Math.random() * n)] ranges over [0 .. n-1]; [rnd] stands for
    the random draw and is reduced into that range. *)
Definition makeRandomMove (rnd : nat) (now : Z) (uuids : nat -> string)
    (r : Room) : option Line * Room * list Emit :=
  let availableMoves := getAvailableMoves (gameState r) in
  match availableMoves with
  | [] => (None, r, [])
  | first :: _ =>
      let randomMoveIndex := (rnd mod length availableMoves)%nat in
      let picked := nth randomMoveIndex availableMoves first in
      let randomMove :=
        mkLine (l_start picked) (l_end picked) (l_player picked) (Some now) in
      let r := upd (fun g => set_lines (lines g ++ [randomMove]) g) r in
      let r := updateActivityTime now r in
      let '(r, persisted) := scoreMove (currentPlayer (gameState r)) now uuids r in
      (Some randomMove, r,
       persisted ++
       [random_move_played (id r) randomMove (currentPlayer (gameState r));
        game_update (id r) (gameState r)])
  end.

Definition startTurnTimer (r : Room) : Room * list Emit :=
  let r := clearTurnTimer r in
  let r := upd (set_timeLeft TURN_TIME) r in
  (set_turnTimer true r, [timer_update (id r) (timeLeft (gameState r))]).

(** One firing of the interval callback installed by [startTurnTimer]. *)
Definition timerTick (rnd : nat) (now : Z) (uuids : nat -> string) (r : Room)
  : Room * list Emit :=
  let r := upd (fun g => set_timeLeft (timeLeft g - 1) g) r in
  let out := [timer_update (id r) (timeLeft (gameState r))] in
  if timeLeft (gameState r) <=? 0 then
    let r := clearTurnTimer r in
    if bool_decide (gameStatus (gameState r) = Active) then
      let '(_, r, played) := makeRandomMove rnd now uuids r in
      if bool_decide (gameStatus (gameState r) = Active) then
        let '(r, started) := startTurnTimer r in (r, out ++ played ++ started)
      else (r, out ++ played)
    else (r, out)
  else (r, out).

(** ** The server: registry of rooms and matchmaking queue *)

Record Server : Type := mkServer {
  gameRooms : JsMap Room;
  matchmakingQueue : list Player
}.

(** The part of [handlePlayerLeaving] that acts on the room found. *)
Definition playerLeaves (now : Z) (socket : string) (r : Room) : Room * list Emit :=
  let player := jm_get socket (players r) in
  let r := removePlayer now socket r in
  let '(r, persisted) :=
    if bool_decide (gameStatus (gameState r) = Active) then
      let r := upd (set_gameStatus Ended) r in
      let r :=
        match jm_values (players r) with
        | [remainingPlayer] =>
            match playerNumber remainingPlayer with
            | Some n => upd (set_winner (Some n)) r
            | None => r
            end
        | _ => r
        end in
      let r := clearTurnTimer r in
      (r, endGame now r)
    else (r, []) in
  (r, persisted ++
      match player with
      | Some p => [player_left (id r) (username p) (gameState r)]
      | None => []
      end).

Definition handlePlayerLeaving (now : Z) (socket roomId : string) (srv : Server)
  : bool * Server * list Emit :=
  match jm_get roomId (gameRooms srv) with
  | None => (false, srv, [])
  | Some room =>
      let '(room, out) := playerLeaves now socket room in
      let rooms :=
        if isEmpty room then jm_delete roomId (gameRooms srv)
        else jm_set roomId room (gameRooms srv) in
      (true, mkServer rooms (matchmakingQueue srv), out)
  end.

(** [createAndJoinRoom([player1, player2], io)], as far as the room built;
    its only caller passes an array of exactly two players. *)
Definition createRoom (now : Z) (roomId : string) (first second : Player)
  : Room * list Emit :=
  let room := new_Room roomId now in
  let first := set_playerNumber (Some P1) first in
  let room := addPlayer now first room in
  let second := set_playerNumber (Some P2) second in
  let room := addPlayer now second room in
  let joined := [socket_join (socketId first) roomId;
                 socket_join (socketId second) roomId] in
  let room := upd (set_playerNames (username first, username second)) room in
  let room := upd (set_gameStatus Active) room in
  let '(room, started) := startTurnTimer room in
  (room, joined ++ started).

Definition createAndJoinRoom (now : Z) (uuids : nat -> string)
    (first second : Player) (srv : Server) : Server * list Emit :=
  let roomId := uuids 0%nat in
  let '(room, out) := createRoom now roomId first second in
  (mkServer (jm_set roomId room (gameRooms srv)) (matchmakingQueue srv),
   out ++ [start_game roomId (gameState room)]).

(** ** Event handlers *)

(** A handler body inside [try { ... } catch]: it returns, or throws the
    message that the [catch] clause sends back. *)
Inductive Outcome (A : Type) : Type :=
  | Return (a : A)
  | Throw (m : Message).
Arguments Return {A} a.
Arguments Throw {A} m.

(** Result of the record-store calls of [join_queue] for a given phone
    number: a failure (the promise rejects) or the user found or created. *)
Inductive UserRecord : Type :=
  | DbFailure
  | DbUser (userId : string) (ref : option string).

(** [socket.on("join_queue", ...)]. The [return] in the callback given to
    [forEach] leaves that callback only; the handler goes on. *)
Definition join_queue (socket : string) (now : Z) (uuids : nat -> string)
    (username : string) (phone : option string) (db : UserRecord)
    (srv : Server) : Server * list Emit :=
  if bool_decide (Exists (fun p => socketId p = socket) (matchmakingQueue srv))
  then (srv, [callback false (Some MsgAlreadyInQueue)])
  else
    let inRoom :=
      flat_map (fun room =>
        if jm_has socket (players room)
        then [callback false (Some MsgAlreadyInRoom)] else [])
      (jm_values (gameRooms srv)) in
    let user : Outcome (option (string * option string)) :=
      if bool_decide (default "" phone ≠ "") then
        match db with
        | DbUser u r => Return (Some (u, r))
        | DbFailure => Throw MsgJoinQueueError
        end
      else Return None in
    match user with
    | Throw m => (srv, inRoom ++ [callback false (Some m)])
    | Return user =>
        let player :=
          mkPlayer username socket None (fst <$> user) phone (user ≫= snd) in
        let queue := matchmakingQueue srv ++ [player] in
        let joined := inRoom ++ [callback true (Some MsgJoinedQueue)] in
        match queue with
        | player1 :: player2 :: rest =>
            let '(srv, out) :=
              createAndJoinRoom now uuids player1 player2
                (mkServer (gameRooms srv) rest) in
            (srv, joined ++ out)
        | _ => (mkServer (gameRooms srv) queue, joined)
        end
    end.

(** The body of [socket.on("make_move", ...)] once the room is found. A
    player whose [playerNumber] is still [null] differs from
    [currentPlayer], which is 1 or 2, and is turned away by the same test. *)
Definition moveInRoom (socket : string) (now : Z) (uuids : nat -> string)
    (move : Line) (room : Room) : Outcome (Room * list Emit) :=
  match list_find (fun p => socketId p = socket) (jm_values (players room)) with
  | None => Throw MsgNotInRoom
  | Some (_, player) =>
      match playerNumber player with
      | None => Throw MsgNotYourTurnOrInactive
      | Some mover =>
          if bool_decide (currentPlayer (gameState room) ≠ mover)
             || bool_decide (gameStatus (gameState room) ≠ Active)
          then Throw MsgNotYourTurnOrInactive
          else if isLineAlreadyDrawn (gameState room) move
          then Throw MsgLineAlreadyDrawn
          else
            let room := clearTurnTimer room in
            let move := mkLine (l_start move) (l_end move) (l_player move) (Some now) in
            let room := upd (fun g => set_lines (lines g ++ [move]) g) room in
            let room := updateActivityTime now room in
            let '(room, persisted) := scoreMove mover now uuids room in
            let '(room, started) :=
              if bool_decide (gameStatus (gameState room) = Active)
              then startTurnTimer room else (room, []) in
            Return (room,
                    persisted ++ started ++
                    [game_update (id room) (gameState room); callback true None])
      end
  end.

Definition make_move (socket : string) (now : Z) (uuids : nat -> string)
    (roomId : string) (move : Line) (srv : Server) : Server * list Emit :=
  match jm_get roomId (gameRooms srv) with
  | None => (srv, [callback false (Some MsgRoomNotFound)])
  | Some room =>
      match moveInRoom socket now uuids move room with
      | Throw m => (srv, [callback false (Some m)])
      | Return (room, out) =>
          (mkServer (jm_set roomId room (gameRooms srv)) (matchmakingQueue srv), out)
      end
  end.

(** The body of [socket.on("pause_game", ...)] once the room is found. *)
Definition pauseInRoom (socket : string) (now : Z) (room : Room)
  : Outcome (Room * list Emit) :=
  if negb (jm_has socket (players room)) then Throw MsgNotInRoom
  else
    let room := upd (fun g => set_isPaused (negb (isPaused g)) g) room in
    let room := updateActivityTime now room in
    let '(room, started) :=
      if isPaused (gameState room) then (clearTurnTimer room, [])
      else if bool_decide (gameStatus (gameState room) = Active)
      then startTurnTimer room
      else (room, []) in
    Return (room, started ++ [game_update (id room) (gameState room); callback true None]).

Definition pause_game (socket : string) (now : Z) (roomId : string)
    (srv : Server) : Server * list Emit :=
  match jm_get roomId (gameRooms srv) with
  | None => (srv, [callback false (Some MsgRoomNotFound)])
  | Some room =>
      match pauseInRoom socket now room with
      | Throw m => (srv, [callback false (Some m)])
      | Return (room, out) =>
          (mkServer (jm_set roomId room (gameRooms srv)) (matchmakingQueue srv), out)
      end
  end.

Definition leave_room (socket : string) (now : Z) (roomId : string)
    (srv : Server) : Server * list Emit :=
  let '(success, srv, out) := handlePlayerLeaving now socket roomId srv in
  if success then (srv, out ++ [socket_leave socket roomId; callback true None])
  else (srv, out ++ [callback false (Some MsgRoomNotFound)]).

(** [queue.splice(queue.findIndex(p => p.socketId === socket), 1)], when
    the index is not [-1]. *)
Fixpoint dequeue (socket : string) (queue : list Player) : list Player :=
  match queue with
  | [] => []
  | p :: rest => if decide (socketId p = socket) then rest else p :: dequeue socket rest
  end.

(** [socket.on("disconnect", ...)]: the loop runs over the entries of the
    registry; [handlePlayerLeaving] looks the room up again by its id. *)
Definition disconnect (socket : string) (now : Z) (srv : Server)
  : Server * list Emit :=
  fold_left (fun acc entry =>
      if jm_has socket (players entry.2) then
        let '(_, srv, out) := handlePlayerLeaving now socket entry.1 acc.1 in
        (srv, acc.2 ++ out)
      else acc)
    (gameRooms srv)
    (mkServer (gameRooms srv) (dequeue socket (matchmakingQueue srv)), []).

(** The periodic sweep installed by [setInterval(..., 60 * 1000)]. The
    timer of a room being evicted is cleared on the room object, which is
    then dropped from the registry. *)
Definition sweep (now : Z) (srv : Server) : Server * list Emit :=
  fold_left (fun acc entry =>
      let room := entry.2 in
      if isEmpty room || isInactive now ROOM_CLEANUP_INTERVAL room then
        let room := clearTurnTimer room in
        let saved :=
          if bool_decide (gameStatus (gameState room) = Active)
             && bool_decide (0 < length (lines (gameState room)))%nat
          then saveGame now room else [] in
        (mkServer (jm_delete entry.1 (gameRooms acc.1)) (matchmakingQueue acc.1),
         acc.2 ++ saved)
      else acc)
    (gameRooms srv) (srv, []).

(** The interval of the room registered under [roomId] fires, if that room
    has one scheduled. *)
Definition timerFires (roomId : string) (rnd : nat) (now : Z)
    (uuids : nat -> string) (srv : Server) : Server * list Emit :=
  match jm_get roomId (gameRooms srv) with
  | Some room =>
      if turnTimer room then
        let '(room, out) := timerTick rnd now uuids room in
        (mkServer (jm_set roomId room (gameRooms srv)) (matchmakingQueue srv), out)
      else (srv, [])
  | None => (srv, [])
  end.

(** Everything that can happen to the server. *)
Inductive Request : Type :=
  | JoinQueue (socket username : string) (phone : option string) (db : UserRecord)
  | MakeMove (socket roomId : string) (move : Line)
  | PauseGame (socket roomId : string)
  | LeaveRoom (socket roomId : string)
  | Disconnect (socket : string)
  | TimerFires (roomId : string) (rnd : nat)
  | Sweep.

Definition serve (now : Z) (uuids : nat -> string) (req : Request) (srv : Server)
  : Server * list Emit :=
  match req with
  | JoinQueue socket username phone db =>
      join_queue socket now uuids username phone db srv
  | MakeMove socket roomId move => make_move socket now uuids roomId move srv
  | PauseGame socket roomId => pause_game socket now roomId srv
  | LeaveRoom socket roomId => leave_room socket now roomId srv
  | Disconnect socket => disconnect socket now srv
  | TimerFires roomId rnd => timerFires roomId rnd now uuids srv
  | Sweep => sweep now srv
  end.

(** The servers that a run can be in, starting with no room and nobody
    waiting. *)
Inductive served : Server -> Prop :=
  | served_start : served (mkServer [] [])
  | served_next srv now uuids req :
      served srv -> served (serve now uuids req srv).1.

(** ** Sessions that the public operations can produce

    A room is created by [createAndJoinRoom]; from then on its state changes
    only through a submitted move, a timer firing (possible only while an
    interval is scheduled), a pause toggle, a player leaving (by
    [leave_room] or on disconnect) and the clearing of the timer by the
    periodic sweep. *)
Inductive reachable : Room -> Prop :=
  | reach_create now roomId first second :
      reachable (createRoom now roomId first second).1
  | reach_move r socket now uuids move r' out :
      reachable r ->
      moveInRoom socket now uuids move r = Return (r', out) ->
      reachable r'
  | reach_tick r rnd now uuids :
      reachable r ->
      turnTimer r = true ->
      reachable (timerTick rnd now uuids r).1
  | reach_pause r socket now r' out :
      reachable r ->
      pauseInRoom socket now r = Return (r', out) ->
      reachable r'
  | reach_leave r socket now :
      reachable r ->
      reachable (playerLeaves now socket r).1
  | reach_sweep r :
      reachable r ->
      reachable (clearTurnTimer r).

(** A move applied to a session by [mover]: submitted through [make_move]
    by the socket bound to [mover], or forced by [makeRandomMove] on behalf
    of the player whose turn it is. *)
Inductive applied (r : Room) (mover : PlayerNumber) (r' : Room) : Prop :=
  | applied_submitted socket now uuids move out i player :
      list_find (fun p => socketId p = socket) (jm_values (players r))
        = Some (i, player) ->
      playerNumber player = Some mover ->
      moveInRoom socket now uuids move r = Return (r', out) ->
      applied r mover r'
  | applied_forced rnd now uuids move out :
      mover = currentPlayer (gameState r) ->
      makeRandomMove rnd now uuids r = (Some move, r', out) ->
      applied r mover r'.

(** ** Notions used to state the properties *)

(** A box as a region: the cell and its owner, without the random id. *)
Definition region (b : Box) : Coordinates * PlayerNumber :=
  (b_topLeft b, b_player b).

(** The owner that [checkCell] gives to a cell, if it pushes a box. *)
Definition cellOwner (ls : list Line) (row col : Z) : option PlayerNumber :=
  let topLeft := mkCoord row col in
  let topRight := mkCoord row (col + 1) in
  let bottomLeft := mkCoord (row + 1) col in
  let bottomRight := mkCoord (row + 1) (col + 1) in
  match findLine ls topLeft topRight, findLine ls topRight bottomRight,
        findLine ls bottomLeft bottomRight, findLine ls topLeft bottomLeft with
  | Some topLine, Some rightLine, Some bottomLine, Some leftLine =>
      Some (l_player (lastLine ls topLine rightLine bottomLine leftLine))
  | _, _, _, _ => None
  end.

(** The regions of a line list, row by row. *)
Definition closedRegions (ls : list Line) : list (Coordinates * PlayerNumber) :=
  flat_map (fun row =>
    omap (fun col => pair (mkCoord row col) <$> cellOwner ls row col)
         (seqZ 0 (GRID_SIZE - 1)))
  (seqZ 0 (GRID_SIZE - 1)).

(** Some line of [ls] joins [s] and [e], in either direction. *)
Definition drawn (ls : list Line) (s e : Coordinates) : Prop :=
  exists line, line ∈ ls /\ joins line s e = true.

(** The position at which the edge between [s] and [e] entered [ls]. *)
Definition insertionIndex (ls : list Line) (s e : Coordinates) : option nat :=
  fst <$> list_find (fun line => joins line s e) ls.

(** No edge is held twice, in either direction. *)
Definition NoDupEdges (ls : list Line) : Prop :=
  forall i j li lj,
    ls !! i = Some li -> ls !! j = Some lj ->
    joins li (l_start lj) (l_end lj) = true -> i = j.

(** [line] is one of the four sides of the cell whose top left corner is
    [(row, col)]. *)
Definition bounds (line : Line) (row col : Z) : bool :=
  joins line (mkCoord row col) (mkCoord row (col + 1))
  || joins line (mkCoord row (col + 1)) (mkCoord (row + 1) (col + 1))
  || joins line (mkCoord (row + 1) col) (mkCoord (row + 1) (col + 1))
  || joins line (mkCoord row col) (mkCoord (row + 1) col).

(** What the game state of every session built by the public operations
    satisfies. *)
Record consistent (g : GameState) : Prop := mkConsistent {
  boxes_current : exists uuids, boxes g = checkForBoxes uuids (lines g);
  scores_total :
    player1 (scores g) + player2 (scores g) = Z.of_nat (length (boxes g));
  active_open :
    gameStatus g = Active -> Z.of_nat (length (boxes g)) < TOTAL_BOXES;
  lines_distinct : NoDupEdges (lines g)
}.

(** The same line drawn the other way round. *)
Definition reverseLine (line : Line) : Line :=
  mkLine (l_end line) (l_start line) (l_player line) (l_timestamp line).

(** The line as the server stores it: stamped with the time of arrival. *)
Definition stamped (now : Z) (line : Line) : Line :=
  mkLine (l_start line) (l_end line) (l_player line) (Some now).

(** [line] and [move] are the same edge, whichever way each is drawn. *)
Definition sameEdge (line move : Line) : Prop :=
  (l_start line = l_start move /\ l_end line = l_end move) \/
  (l_start line = l_end move /\ l_end line = l_start move).

(** [socket] is bound to the player whose turn it is. *)
Definition onTurn (socket : string) (room : Room) : Prop :=
  exists i player,
    list_find (fun p => socketId p = socket) (jm_values (players room))
      = Some (i, player) /\
    playerNumber player = Some (currentPlayer (gameState room)).

(** Every room of the registry is a session that the room-level steps
    produce. *)
Definition rooms_reachable (srv : Server) : Prop :=
  forall roomId room, jm_get roomId (gameRooms srv) = Some room -> reachable room.

(** ** Sample sessions *)

Definition noUuid : nat -> string :=
  fun _ => "3b241101-e2bb-4255-8caf-4136c566a962".

Definition alice : Player := mkPlayer "alice" "socket-a" None None None None.
Definition bob : Player := mkPlayer "bob" "socket-b" None None None None.

(** The session of alice (player 1) and bob (player 2), just created. *)
Definition freshRoom : Room := (createRoom 0 "room-1" alice bob).1.

Definition roomOf (o : Outcome (Room * list Emit)) (otherwise : Room) : Room :=
  match o with Return (r, _) => r | Throw _ => otherwise end.

Definition edge (r1 c1 r2 c2 : Z) (p : PlayerNumber) : Line :=
  mkLine (mkCoord r1 c1) (mkCoord r2 c2) p None.

(** [socket] submits [move] at time 1; a rejected move changes nothing. *)
Definition submit (socket : string) (move : Line) (r : Room) : Room :=
  roomOf (moveInRoom socket 1 noUuid move r) r.

(** Top, right and bottom side of the top left cell, drawn in turn. *)
Definition threeSides : Room :=
  submit "socket-a" (edge 1 0 1 1 P1)
    (submit "socket-b" (edge 0 1 1 1 P2)
      (submit "socket-a" (edge 0 0 0 1 P1) freshRoom)).

(** Bob closes the cell with its left side, drawn upwards. *)
Definition boxClosed : Room := submit "socket-b" (edge 1 0 0 0 P2) threeSides.

(** [n] timer-forced moves in a row, each taking the first candidate. *)
Fixpoint autoPlay (n : nat) (r : Room) : Room :=
  match n with
  | O => r
  | S n => (makeRandomMove 0 1 noUuid (autoPlay n r)).1.2
  end.

Definition pausedRoom : Room := roomOf (pauseInRoom "socket-a" 1 freshRoom) freshRoom.

(** Servers whose registry holds one room and whose queue is empty. *)
Definition freshServer : Server := mkServer [("room-1", freshRoom)] [].
Definition pausedServer : Server := mkServer [("room-1", pausedRoom)] [].

(** The room registered under [roomId], if any, after a handler ran. *)
Definition roomAfter (roomId : string) (result : Server * list Emit) : option Room :=
  jm_get roomId (gameRooms result.1).

(** ** Steps of a session *)

(** One change of a room: a submitted move that is accepted, a firing of
    its interval, a pause toggle by a member, somebody leaving, or the sweep
    clearing its timer. [reachable] is the closure of these steps from
    [createRoom]. *)
Inductive step : Room -> Room -> Prop :=
  | step_move r socket now uuids move r' out :
      moveInRoom socket now uuids move r = Return (r', out) -> step r r'
  | step_tick r rnd now uuids :
      turnTimer r = true -> step r (timerTick rnd now uuids r).1
  | step_pause r socket now r' out :
      pauseInRoom socket now r = Return (r', out) -> step r r'
  | step_leave r socket now :
      step r (playerLeaves now socket r).1
  | step_sweep r :
      step r (clearTurnTimer r).

(** What holds of the clock, the status and the winner of every session. *)
Record clocked (r : Room) : Prop := mkClocked {
  timer_active : turnTimer r = true -> gameStatus (gameState r) = Active;
  timer_positive : turnTimer r = true -> 1 <= timeLeft (gameState r);
  clock_range : 0 <= timeLeft (gameState r) <= TURN_TIME;
  never_waiting : gameStatus (gameState r) ≠ Waiting;
  winner_ended : winner (gameState r) ≠ None -> gameStatus (gameState r) = Ended
}.

(** From [g] to [g'] the board only grew: the lines were extended by at
    most one, no box was lost and no score went down. *)
Definition grows (g g' : GameState) : Prop :=
  lines g `prefix_of` lines g' /\
  (length (lines g') <= S (length (lines g)))%nat /\
  (length (boxes g) <= length (boxes g'))%nat /\
  player1 (scores g) <= player1 (scores g') /\
  player2 (scores g) <= player2 (scores g').

(** The next [n] seconds of a room left alone: its interval fires once a
    second as long as one is scheduled (random draw 0, clock 1). *)
Fixpoint ticks (n : nat) (r : Room) : Room :=
  match n with
  | O => r
  | S n => let r := ticks n r in
           if turnTimer r then (timerTick 0 1 noUuid r).1 else r
  end.

(** The registry holds each room once, under the room's own id, and at
    most one player waits in the queue. *)
Record orderly (srv : Server) : Prop := mkOrderly {
  one_waiting : (length (matchmakingQueue srv) <= 1)%nat;
  keys_once : NoDup (gameRooms srv).*1;
  keyed_by_id : Forall (fun kr => id kr.2 = kr.1) (gameRooms srv)
}.

(** The server after alice, then bob, have asked to join the queue. *)
Definition pairedServer : Server :=
  (serve 1 noUuid (JoinQueue "socket-b" "bob" None DbFailure)
     (serve 0 noUuid (JoinQueue "socket-a" "alice" None DbFailure)
        (mkServer [] [])).1).1.

(** ** The edges of the grid *)

(** The pairs of neighbouring points that [getAvailableMoves] goes through,
    in its order: for each point, the edge to the right, then the edge
    downwards. *)
Definition gridEdges : list (Coordinates * Coordinates) :=
  flat_map (fun row =>
    flat_map (fun col =>
      (if col <? GRID_SIZE - 1
       then [(mkCoord row col, mkCoord row (col + 1))] else [])
      ++
      (if row <? GRID_SIZE - 1
       then [(mkCoord row col, mkCoord (row + 1) col)] else []))
    (seqZ 0 GRID_SIZE))
  (seqZ 0 GRID_SIZE).

(** No line of [ls] joins the two points. *)
Definition undrawn (ls : list Line) (se : Coordinates * Coordinates) : Prop :=
  existsb (fun line => joins line se.1 se.2) ls = false.

Global Instance undrawn_dec ls se : Decision (undrawn ls se).
Proof. unfold undrawn. apply _. Defined.

(** The move that [getAvailableMoves] builds for an edge. *)
Definition moveOn (p : PlayerNumber) (se : Coordinates * Coordinates) : Line :=
  mkLine se.1 se.2 p None.

(** ** Acknowledgements *)

(** The calls of the [callback] of a request among what a handler sends. *)
Definition callbacks (out : list Emit) : list (bool * option Message) :=
  omap (fun e => match e with callback ok m => Some (ok, m) | _ => None end) out.

(** The room that a request names, if it names one: a move, a pause
    toggle, leaving, and the firing of the room's interval. *)
Definition targetRoom (req : Request) : option string :=
  match req with
  | MakeMove _ roomId _ | PauseGame _ roomId | LeaveRoom _ roomId
  | TimerFires roomId _ => Some roomId
  | JoinQueue _ _ _ _ | Disconnect _ | Sweep => None
  end.

(** * Properties *)

(** The board functions are unfolded by hand where a proof looks inside
    them. *)
Arguments checkForBoxes : simpl never.
Arguments getAvailableMoves : simpl never.
Arguments isLineAlreadyDrawn : simpl never.
Arguments scoreMove : simpl never.
Arguments endGame : simpl never.

(** ** Lines and edges *)

Lemma joins_swap line s e : joins line e s = joins line s e.
Proof. unfold joins. apply orb_comm. Qed.

Lemma joins_spec line s e :
  joins line s e = true <->
  (l_start line = s /\ l_end line = e) \/ (l_start line = e /\ l_end line = s).
Proof.
  unfold joins. destruct line as [[a b] [c d] p t], s as [sr sc], e as [er ec]; simpl.
  rewrite orb_true_iff, !andb_true_iff, !Z.eqb_eq.
  split; (intros [H|H]; [left|right]).
  all: try (destruct H as [[[-> ->] ->] ->]; done).
  all: destruct H as [H1 H2]; by simplify_eq.
Qed.

(** Two lines that join the same pair of points join each other's ends. *)
Lemma joins_sym l1 l2 :
  joins l1 (l_start l2) (l_end l2) = joins l2 (l_start l1) (l_end l1).
Proof.
  apply eq_true_iff_eq. rewrite !joins_spec. intuition congruence.
Qed.

Lemma isLineAlreadyDrawn_spec g move :
  isLineAlreadyDrawn g move = true <->
  exists line, line ∈ lines g /\ joins line (l_start move) (l_end move) = true.
Proof.
  unfold isLineAlreadyDrawn. rewrite existsb_exists.
  split; intros (x & Hx & Hj); exists x; split; auto; by apply list_elem_of_In.
Qed.

Lemma findLine_Some ls s e line :
  findLine ls s e = Some line ->
  exists i, list_find (fun x => joins x s e) ls = Some (i, line).
Proof.
  unfold findLine. destruct (list_find _ ls) as [[i x]|]; simpl; [|done].
  intros [= ->]. by exists i.
Qed.

Lemma findLine_None ls s e :
  findLine ls s e = None <-> forall line, line ∈ ls -> joins line s e = false.
Proof.
  unfold findLine. rewrite fmap_None, list_find_None, Forall_forall.
  split; intros H x Hx; specialize (H x Hx); by apply Is_true_false.
Qed.

Lemma findLine_is_Some ls s e :
  is_Some (findLine ls s e) <-> exists line, line ∈ ls /\ joins line s e = true.
Proof.
  split.
  - intros [l (i & Hf)%findLine_Some]. apply list_find_Some in Hf as (Hl & Hj & _).
    exists l. split; [by eapply list_elem_of_lookup_2|by apply Is_true_true].
  - intros (l & Hl & Hj). destruct (findLine ls s e) eqn:E; [by eexists|].
    rewrite findLine_None in E. rewrite (E l Hl) in Hj. done.
Qed.

Lemma findLine_drawn g move :
  isLineAlreadyDrawn g move = bool_decide (is_Some (findLine (lines g) (l_start move) (l_end move))).
Proof.
  apply eq_true_iff_eq. rewrite isLineAlreadyDrawn_spec, bool_decide_eq_true.
  by rewrite findLine_is_Some.
Qed.

Lemma findLine_app ls more s e :
  is_Some (findLine ls s e) -> is_Some (findLine (ls ++ more) s e).
Proof.
  rewrite !findLine_is_Some. intros (l & Hl & Hj). exists l. split; [|done].
  apply elem_of_app. by left.
Qed.

(** Looking up the result of a [find] with [indexOf] gives back the position
    at which [find] stopped. *)
Lemma indexOf_findLine ls s e i line :
  list_find (fun x => joins x s e) ls = Some (i, line) ->
  indexOf ls line = Z.of_nat i.
Proof.
  intros (Hl & Hj & Hleast)%list_find_Some. unfold indexOf.
  destruct (list_find (fun x => x = line) ls) as [[j y]|] eqn:E.
  - apply list_find_Some in E as (Hy & -> & Hmin).
    destruct (decide (j = i)) as [->|Hne]; [done|].
    destruct (decide (j < i)%nat) as [Hlt|Hge].
    + by destruct (Hleast j line Hy Hlt).
    + destruct (Hmin i line Hl); [lia|done].
  - rewrite list_find_None, Forall_forall in E.
    destruct (E line); [by eapply list_elem_of_lookup_2|done].
Qed.

(** ** [checkForBoxes] as a function of the lines *)

Lemma checkCell_eq uuids ls bs row col :
  checkCell uuids ls bs row col =
  bs ++ match cellOwner ls row col with
        | Some p => [mkBox (mkCoord row col) p
                       (boxId (mkCoord row col) (uuids (length bs)))]
        | None => []
        end.
Proof.
  unfold checkCell, cellOwner.
  repeat (destruct (findLine _ _ _); simpl; [|by rewrite app_nil_r]).
  done.
Qed.

Lemma regions_row uuids ls row cols bs :
  region <$> fold_left (fun bs col => checkCell uuids ls bs row col) cols bs =
  (region <$> bs) ++ omap (fun col => pair (mkCoord row col) <$> cellOwner ls row col) cols.
Proof.
  revert bs. induction cols as [|col cols IH]; intros bs; simpl.
  - by rewrite app_nil_r.
  - rewrite IH, checkCell_eq, fmap_app.
    destruct (cellOwner ls row col); simpl; by rewrite <- app_assoc.
Qed.

Lemma regions_rows uuids ls cols rows bs :
  region <$> fold_left (fun bs row =>
               fold_left (fun bs col => checkCell uuids ls bs row col) cols bs)
             rows bs =
  (region <$> bs) ++
  flat_map (fun row =>
    omap (fun col => pair (mkCoord row col) <$> cellOwner ls row col) cols) rows.
Proof.
  revert bs. induction rows as [|row rows IH]; intros bs; simpl.
  - by rewrite app_nil_r.
  - by rewrite IH, regions_row, <- app_assoc.
Qed.

Lemma regions_checkForBoxes uuids ls :
  region <$> checkForBoxes uuids ls = closedRegions ls.
Proof. unfold checkForBoxes, closedRegions. by rewrite regions_rows. Qed.

Lemma length_checkForBoxes uuids ls :
  length (checkForBoxes uuids ls) = length (closedRegions ls).
Proof. by rewrite <- (regions_checkForBoxes uuids), length_fmap. Qed.

Lemma elem_of_closedRegions ls topLeft p :
  (topLeft, p) ∈ closedRegions ls <->
  exists row col,
    0 <= row < GRID_SIZE - 1 /\ 0 <= col < GRID_SIZE - 1 /\
    topLeft = mkCoord row col /\ cellOwner ls row col = Some p.
Proof.
  unfold closedRegions. rewrite list_elem_of_In, in_flat_map. split.
  - intros (row & Hrow%list_elem_of_In%elem_of_seqZ & Hin%list_elem_of_In).
    apply list_elem_of_omap in Hin as (col & Hcol%elem_of_seqZ & Hown).
    apply fmap_Some in Hown as (q & Hq & [= -> ->]).
    exists row, col. repeat split; try lia; done.
  - intros (row & col & Hrow & Hcol & -> & Hown). exists row. split.
    + apply list_elem_of_In, elem_of_seqZ. lia.
    + apply list_elem_of_In, list_elem_of_omap. exists col. split.
      * apply elem_of_seqZ. lia.
      * by rewrite Hown.
Qed.

(** C6. [checkForBoxes] is deterministic in what it reports: two runs on the
    same lines, whatever identifiers [uuidv4] hands out in each, return the
    same cells with the same owners, in the same order. Only the [id]
    strings of the boxes depend on the run. *)
Theorem checkForBoxes_deterministic (uuids1 uuids2 : nat -> string) (ls : list Line) :
  region <$> checkForBoxes uuids1 ls = region <$> checkForBoxes uuids2 ls.
Proof. by rewrite !regions_checkForBoxes. Qed.

(** The identifiers, on the other hand, follow the supply: the same four
    lines give the box of the top left cell a different [id] in a run that
    draws a different uuid. *)
Lemma checkForBoxes_ids_follow_uuids :
  b_id <$> checkForBoxes noUuid (lines (gameState boxClosed)) = ["box-0-0-3b241101"] /\
  b_id <$> checkForBoxes (fun _ => "c0ffee00-1111") (lines (gameState boxClosed))
    = ["box-0-0-c0ffee00"].
Proof. split; vm_compute; reflexivity. Qed.

(** ** Which cells are closed, and who owns them *)

Lemma insertionIndex_find ls s e i line :
  list_find (fun x => joins x s e) ls = Some (i, line) ->
  insertionIndex ls s e = Some i /\ ls !! i = Some line /\ joins line s e = true.
Proof.
  intros Hf. unfold insertionIndex. rewrite Hf. split; [done|].
  apply list_find_Some in Hf as (Hl & Hj & _). split; [done|by apply Is_true_true].
Qed.

(** The first position of an edge: no earlier line joins the same points;
    when no edge is held twice it is the only position. *)
Lemma insertionIndex_first ls s e i :
  insertionIndex ls s e = Some i ->
  forall j line, ls !! j = Some line -> joins line s e = true -> (i <= j)%nat.
Proof.
  unfold insertionIndex. intros ((i' & x) & Hf & [= ->])%fmap_Some j line Hl Hj.
  apply list_find_Some in Hf as (_ & _ & Hleast). simpl.
  destruct (decide (i' <= j)%nat) as [|Hgt]; [done|].
  destruct (Hleast j line Hl); [lia|by apply Is_true_true].
Qed.

Lemma insertionIndex_only ls s e i :
  NoDupEdges ls ->
  insertionIndex ls s e = Some i ->
  forall j line, ls !! j = Some line -> joins line s e = true -> j = i.
Proof.
  unfold insertionIndex. intros Hnd ((i' & x) & Hf & [= ->])%fmap_Some j line Hl Hj.
  apply list_find_Some in Hf as (Hx & Hjx%Is_true_true & _). simpl.
  apply (Hnd j i' line x Hl Hx).
  apply joins_spec in Hj, Hjx. apply joins_spec. intuition congruence.
Qed.

(** One step of the reduce: of two lines sitting at positions [i] and [j],
    the one kept sits at the larger position. *)
Lemma latest_step ls i j latest line :
  ls !! i = Some latest -> indexOf ls latest = Z.of_nat i ->
  ls !! j = Some line -> indexOf ls line = Z.of_nat j ->
  let kept := if indexOf ls line >? indexOf ls latest then line else latest in
  ls !! (i `max` j)%nat = Some kept /\ indexOf ls kept = Z.of_nat (i `max` j).
Proof.
  intros Hi Ii Hj Ij. simpl. rewrite Ii, Ij.
  destruct (Z.gtb_spec (Z.of_nat j) (Z.of_nat i)).
  - replace (i `max` j)%nat with j by lia. done.
  - replace (i `max` j)%nat with i by lia. done.
Qed.

Lemma lastLine_max ls tl tr bl br iT iR iB iL topLine rightLine bottomLine leftLine :
  list_find (fun x => joins x tl tr) ls = Some (iT, topLine) ->
  list_find (fun x => joins x tr br) ls = Some (iR, rightLine) ->
  list_find (fun x => joins x bl br) ls = Some (iB, bottomLine) ->
  list_find (fun x => joins x tl bl) ls = Some (iL, leftLine) ->
  ls !! (Nat.max (Nat.max (Nat.max iT iR) iB) iL)
  = Some (lastLine ls topLine rightLine bottomLine leftLine).
Proof.
  intros HT HR HB HL.
  pose proof (indexOf_findLine _ _ _ _ _ HT) as IT.
  pose proof (indexOf_findLine _ _ _ _ _ HR) as IR.
  pose proof (indexOf_findLine _ _ _ _ _ HB) as IB.
  pose proof (indexOf_findLine _ _ _ _ _ HL) as IL.
  apply list_find_Some in HT as (HT & _), HR as (HR & _), HB as (HB & _), HL as (HL & _).
  unfold lastLine. simpl.
  destruct (latest_step ls iT iR _ _ HT IT HR IR) as [H1 I1].
  destruct (latest_step ls _ iB _ _ H1 I1 HB IB) as [H2 I2].
  by destruct (latest_step ls _ iL _ _ H2 I2 HL IL) as [H3 _].
Qed.

Lemma cellOwner_Some ls row col p :
  cellOwner ls row col = Some p ->
  exists iT iR iB iL topLine rightLine bottomLine leftLine,
    list_find (fun x => joins x (mkCoord row col) (mkCoord row (col + 1))) ls
      = Some (iT, topLine) /\
    list_find (fun x => joins x (mkCoord row (col + 1)) (mkCoord (row + 1) (col + 1))) ls
      = Some (iR, rightLine) /\
    list_find (fun x => joins x (mkCoord (row + 1) col) (mkCoord (row + 1) (col + 1))) ls
      = Some (iB, bottomLine) /\
    list_find (fun x => joins x (mkCoord row col) (mkCoord (row + 1) col)) ls
      = Some (iL, leftLine) /\
    p = l_player (lastLine ls topLine rightLine bottomLine leftLine).
Proof.
  unfold cellOwner.
  destruct (findLine ls (mkCoord row col) (mkCoord row (col + 1))) as [t|] eqn:ET; [|done].
  destruct (findLine ls (mkCoord row (col + 1)) _) as [r|] eqn:ER; [|done].
  destruct (findLine ls (mkCoord (row + 1) col) _) as [b|] eqn:EB; [|done].
  destruct (findLine ls (mkCoord row col) (mkCoord (row + 1) col)) as [l|] eqn:EL; [|done].
  intros [= <-].
  apply findLine_Some in ET as [iT ET], ER as [iR ER], EB as [iB EB], EL as [iL EL].
  by exists iT, iR, iB, iL, t, r, b, l.
Qed.

Lemma cellOwner_is_Some ls row col :
  is_Some (cellOwner ls row col) <->
  drawn ls (mkCoord row col) (mkCoord row (col + 1)) /\
  drawn ls (mkCoord row (col + 1)) (mkCoord (row + 1) (col + 1)) /\
  drawn ls (mkCoord (row + 1) col) (mkCoord (row + 1) (col + 1)) /\
  drawn ls (mkCoord row col) (mkCoord (row + 1) col).
Proof.
  unfold drawn. rewrite <- !findLine_is_Some. unfold cellOwner.
  destruct (findLine ls (mkCoord row col) (mkCoord row (col + 1))),
           (findLine ls (mkCoord row (col + 1)) _),
           (findLine ls (mkCoord (row + 1) col) _),
           (findLine ls (mkCoord row col) (mkCoord (row + 1) col)).
  all: split; [intros [? ?]|intros (H1 & H2 & H3 & H4)]; try done.
  all: first [by destruct H1 | by destruct H2 | by destruct H3 | by destruct H4 | idtac].
  all: repeat split; by eexists.
Qed.

Lemma box_in_checkForBoxes uuids ls b :
  b ∈ checkForBoxes uuids ls ->
  exists row col,
    0 <= row < GRID_SIZE - 1 /\ 0 <= col < GRID_SIZE - 1 /\
    b_topLeft b = mkCoord row col /\ cellOwner ls row col = Some (b_player b).
Proof.
  intros Hb. apply elem_of_closedRegions.
  rewrite <- (regions_checkForBoxes uuids). apply list_elem_of_fmap.
  by exists b.
Qed.

Lemma joins_same_edge a b s e :
  joins a s e = true -> joins b s e = true -> sameEdge a b.
Proof. rewrite !joins_spec. unfold sameEdge. intuition congruence. Qed.

(** A line joining [s] and [e] sits at the position where that edge entered
    the list, or repeats the line that sits there. *)
Lemma insertionIndex_or_repeat ls s e i j line :
  insertionIndex ls s e = Some i ->
  ls !! j = Some line -> joins line s e = true ->
  j = i \/ exists k earlier, (k < j)%nat /\ ls !! k = Some earlier /\ sameEdge earlier line.
Proof.
  intros Hi Hj Hjoin.
  pose proof (insertionIndex_first _ _ _ _ Hi j line Hj Hjoin) as Hle.
  destruct (decide (j = i)) as [|Hne]; [by left|]. right.
  unfold insertionIndex in Hi. apply fmap_Some in Hi as ((i' & x) & Hf & [= ->]).
  apply list_find_Some in Hf as (Hx & Hjx%Is_true_true & _). simpl in *.
  exists i', x. split_and!; [lia|done|by eapply joins_same_edge].
Qed.

(** C3. For every list of lines and every cell of the (N-1) x (N-1) grid:
    [checkForBoxes] reports the cell iff each of its four sides is joined by
    some line of the list, in either direction; and the owner it gives is
    the player of one of the four sides, namely the line at the highest of
    the four positions at which the sides entered the list. Any line
    bounding the cell that sits later in the list repeats an edge drawn
    before it; so when no edge is held twice (as in every session), the
    owner is the player of the last line of the list that bounds the cell. *)
Theorem checkForBoxes_closed_owner (uuids : nat -> string) (ls : list Line)
    (row col : Z) :
  0 <= row < GRID_SIZE - 1 -> 0 <= col < GRID_SIZE - 1 ->
  ((exists b, b ∈ checkForBoxes uuids ls /\ b_topLeft b = mkCoord row col) <->
   drawn ls (mkCoord row col) (mkCoord row (col + 1)) /\
   drawn ls (mkCoord row (col + 1)) (mkCoord (row + 1) (col + 1)) /\
   drawn ls (mkCoord (row + 1) col) (mkCoord (row + 1) (col + 1)) /\
   drawn ls (mkCoord row col) (mkCoord (row + 1) col))
  /\
  (forall b, b ∈ checkForBoxes uuids ls -> b_topLeft b = mkCoord row col ->
     exists iT iR iB iL last,
       insertionIndex ls (mkCoord row col) (mkCoord row (col + 1)) = Some iT /\
       insertionIndex ls (mkCoord row (col + 1)) (mkCoord (row + 1) (col + 1)) = Some iR /\
       insertionIndex ls (mkCoord (row + 1) col) (mkCoord (row + 1) (col + 1)) = Some iB /\
       insertionIndex ls (mkCoord row col) (mkCoord (row + 1) col) = Some iL /\
       ls !! (Nat.max (Nat.max (Nat.max iT iR) iB) iL) = Some last /\
       bounds last row col = true /\
       b_player b = l_player last /\
       (forall j line, ls !! j = Some line -> bounds line row col = true ->
          (j <= Nat.max (Nat.max (Nat.max iT iR) iB) iL)%nat \/
          exists k earlier,
            (k < j)%nat /\ ls !! k = Some earlier /\ sameEdge earlier line) /\
       (NoDupEdges ls ->
        forall j line, ls !! j = Some line -> bounds line row col = true ->
          (j <= Nat.max (Nat.max (Nat.max iT iR) iB) iL)%nat)).
Proof.
  intros Hrow Hcol. split.
  - rewrite <- cellOwner_is_Some. split.
    + intros (b & Hb & Htl).
      apply box_in_checkForBoxes in Hb as (row' & col' & _ & _ & Htl' & Hown).
      rewrite Htl in Htl'. injection Htl' as <- <-. by eexists.
    + intros [p Hp].
      assert ((mkCoord row col, p) ∈ region <$> checkForBoxes uuids ls) as Hin.
      { rewrite regions_checkForBoxes. apply elem_of_closedRegions.
        by exists row, col. }
      apply list_elem_of_fmap in Hin as (b & Hreg & Hb).
      exists b. split; [done|]. by injection Hreg as <- _.
  - intros b Hb Htl.
    apply box_in_checkForBoxes in Hb as (row' & col' & _ & _ & Htl' & Hown).
    rewrite Htl in Htl'. injection Htl' as <- <-.
    apply cellOwner_Some in Hown
      as (iT & iR & iB & iL & t & r & bt & l & HT & HR & HB & HL & Hp).
    pose proof (lastLine_max _ _ _ _ _ _ _ _ _ _ _ _ _ HT HR HB HL) as Hlast.
    apply insertionIndex_find in HT as (HT & HT1 & HT2), HR as (HR & HR1 & HR2),
      HB as (HB & HB1 & HB2), HL as (HL & HL1 & HL2).
    exists iT, iR, iB, iL, (lastLine ls t r bt l).
    split_and!; try done.
    + (* the line kept is one of the four sides *)
      unfold bounds. rewrite !orb_true_iff.
      assert (lastLine ls t r bt l = t \/ lastLine ls t r bt l = r \/
              lastLine ls t r bt l = bt \/ lastLine ls t r bt l = l) as Hcases.
      { unfold lastLine. simpl. repeat case_match; auto. }
      destruct Hcases as [-> | [-> | [-> | ->]]]; auto.
    + (* later lines bounding the cell repeat an edge *)
      intros j line Hj Hb. unfold bounds in Hb. rewrite !orb_true_iff in Hb.
      destruct Hb as [[[Hb|Hb]|Hb]|Hb].
      * destruct (insertionIndex_or_repeat _ _ _ _ j line HT Hj Hb) as [->|?];
          [left; lia|by right].
      * destruct (insertionIndex_or_repeat _ _ _ _ j line HR Hj Hb) as [->|?];
          [left; lia|by right].
      * destruct (insertionIndex_or_repeat _ _ _ _ j line HB Hj Hb) as [->|?];
          [left; lia|by right].
      * destruct (insertionIndex_or_repeat _ _ _ _ j line HL Hj Hb) as [->|?];
          [left; lia|by right].
    + intros Hnd j line Hj Hb. unfold bounds in Hb. rewrite !orb_true_iff in Hb.
      destruct Hb as [[[Hb|Hb]|Hb]|Hb].
      * rewrite (insertionIndex_only _ _ _ _ Hnd HT j line Hj Hb). lia.
      * rewrite (insertionIndex_only _ _ _ _ Hnd HR j line Hj Hb). lia.
      * rewrite (insertionIndex_only _ _ _ _ Hnd HB j line Hj Hb). lia.
      * rewrite (insertionIndex_only _ _ _ _ Hnd HL j line Hj Hb). lia.
Qed.

Lemma checkForBoxes_closed_owner_witness :
  0 <= 0 < GRID_SIZE - 1 /\ 0 <= 0 < GRID_SIZE - 1 /\
  exists b, b ∈ checkForBoxes noUuid (lines (gameState boxClosed)) /\
            b_topLeft b = mkCoord 0 0.
Proof.
  assert (0 <= 0 < GRID_SIZE - 1) as Hin by (unfold GRID_SIZE; lia).
  split; [exact Hin|]. split; [exact Hin|].
  apply (proj1 (checkForBoxes_closed_owner noUuid (lines (gameState boxClosed))
                  0 0 Hin Hin)).
  unfold drawn. split_and!.
  - exists (stamped 1 (edge 0 0 0 1 P1)). vm_compute. split; [|reflexivity].
    apply list_elem_of_In. simpl. tauto.
  - exists (stamped 1 (edge 0 1 1 1 P2)). vm_compute. split; [|reflexivity].
    apply list_elem_of_In. simpl. tauto.
  - exists (stamped 1 (edge 1 0 1 1 P1)). vm_compute. split; [|reflexivity].
    apply list_elem_of_In. simpl. tauto.
  - exists (stamped 1 (edge 1 0 0 0 P2)). vm_compute. split; [|reflexivity].
    apply list_elem_of_In. simpl. tauto.
Defined.

(** ** Counting regions *)

Lemma length_omap_le {A B} (f : A -> option B) (l : list A) :
  (length (omap f l) <= length l)%nat.
Proof. induction l as [|x l IH]; csimpl; [done|]. destruct (f x); csimpl; lia. Qed.

Lemma length_omap_mono {A B C} (f : A -> option B) (g : A -> option C) (l : list A) :
  (forall x, x ∈ l -> is_Some (f x) -> is_Some (g x)) ->
  (length (omap f l) <= length (omap g l))%nat.
Proof.
  induction l as [|x l IH]; intros Hfg; csimpl; [done|].
  assert (length (omap f l) <= length (omap g l))%nat as Hl.
  { apply IH. intros y Hy. apply Hfg. by right. }
  destruct (f x) eqn:Ef; csimpl.
  - destruct (Hfg x) as [c ->]; [by left|by eexists|]. csimpl. lia.
  - destruct (g x); csimpl; lia.
Qed.

Lemma length_omap_lt {A B} (f : A -> option B) (l : list A) :
  (length (omap f l) < length l)%nat -> exists x, x ∈ l /\ f x = None.
Proof.
  induction l as [|x l IH]; csimpl; [lia|].
  destruct (f x) eqn:Ef; csimpl; intros Hlt.
  - destruct IH as (y & Hy & Hn); [lia|]. exists y. split; [by right|done].
  - exists x. split; [by left|done].
Qed.

Lemma length_flat_map_mono {A B C} (f : A -> list B) (g : A -> list C) (l : list A) :
  (forall x, x ∈ l -> length (f x) <= length (g x))%nat ->
  (length (flat_map f l) <= length (flat_map g l))%nat.
Proof.
  induction l as [|x l IH]; intros Hfg; simpl; [done|].
  rewrite !length_app.
  assert (length (f x) <= length (g x))%nat by (apply Hfg; by left).
  assert (length (flat_map f l) <= length (flat_map g l))%nat.
  { apply IH. intros y Hy. apply Hfg. by right. }
  lia.
Qed.

Lemma length_flat_map_lt {A B} (f : A -> list B) (l : list A) (n : nat) :
  (forall x, x ∈ l -> length (f x) <= n)%nat ->
  (length (flat_map f l) < length l * n)%nat ->
  exists x, x ∈ l /\ (length (f x) < n)%nat.
Proof.
  induction l as [|x l IH]; simpl; intros Hle Hlt; [lia|].
  rewrite length_app in Hlt.
  destruct (decide (length (f x) < n)%nat) as [Hx|Hx].
  - exists x. split; [by left|done].
  - destruct IH as (y & Hy & Hn).
    + intros y Hy. apply Hle. by right.
    + assert (length (f x) <= n)%nat by (apply Hle; by left). lia.
    + exists y. split; [by right|done].
Qed.

Lemma cellOwner_app ls more row col :
  is_Some (cellOwner ls row col) -> is_Some (cellOwner (ls ++ more) row col).
Proof.
  rewrite !cellOwner_is_Some. unfold drawn.
  intros (H1 & H2 & H3 & H4).
  split_and!; [destruct H1 as (l & Hl & Hj) | destruct H2 as (l & Hl & Hj)
              | destruct H3 as (l & Hl & Hj) | destruct H4 as (l & Hl & Hj)];
    exists l; (split; [apply elem_of_app; by left|done]).
Qed.

(** Drawing more lines never opens a region. *)
Lemma closedRegions_mono ls more :
  (length (closedRegions ls) <= length (closedRegions (ls ++ more)))%nat.
Proof.
  unfold closedRegions. apply length_flat_map_mono. intros row _.
  apply length_omap_mono. intros col _. rewrite !fmap_is_Some.
  apply cellOwner_app.
Qed.

Lemma length_closedRegions_le ls :
  Z.of_nat (length (closedRegions ls)) <= TOTAL_BOXES.
Proof.
  unfold closedRegions.
  pose proof (length_flat_map_mono
    (fun row => omap (fun col => pair (mkCoord row col) <$> cellOwner ls row col)
                     (seqZ 0 (GRID_SIZE - 1)))
    (fun _ : Z => seqZ 0 (GRID_SIZE - 1)) (seqZ 0 (GRID_SIZE - 1))) as H.
  etrans; [apply inj_le, H|].
  - intros row _. apply length_omap_le.
  - by vm_compute.
Qed.

(** While fewer than [TOTAL_BOXES] regions are closed, some cell is open. *)
Lemma closedRegions_open ls :
  Z.of_nat (length (closedRegions ls)) < TOTAL_BOXES ->
  exists row col,
    0 <= row < GRID_SIZE - 1 /\ 0 <= col < GRID_SIZE - 1 /\
    cellOwner ls row col = None.
Proof.
  intros Hlt. unfold closedRegions in Hlt.
  destruct (length_flat_map_lt
    (fun row => omap (fun col => pair (mkCoord row col) <$> cellOwner ls row col)
                     (seqZ 0 (GRID_SIZE - 1)))
    (seqZ 0 (GRID_SIZE - 1)) (length (seqZ 0 (GRID_SIZE - 1))))
    as (row & Hrow & Hshort).
  - intros row _. apply length_omap_le.
  - apply Nat2Z.inj_lt. eapply Z.lt_le_trans; [apply Hlt|]. by vm_compute.
  - apply length_omap_lt in Hshort as (col & Hcol & Hnone).
    apply elem_of_seqZ in Hrow, Hcol. apply fmap_None in Hnone.
    exists row, col. split_and!; try lia; done.
Qed.

(** ** The scoring step *)

Lemma scoreMove_state mover now uuids r :
  let g := gameState r in
  let newBoxes := checkForBoxes uuids (lines g) in
  let boxesCompleted := Z.of_nat (length newBoxes) - Z.of_nat (length (boxes g)) in
  let r' := (scoreMove mover now uuids r).1 in
  let g' := gameState r' in
  lines g' = lines g /\ boxes g' = newBoxes /\
  scores g' = (if boxesCompleted >? 0
               then addScore mover boxesCompleted (scores g) else scores g) /\
  currentPlayer g' = (if boxesCompleted >? 0
                      then currentPlayer g else otherPlayer mover) /\
  gameStatus g' = (if Z.of_nat (length newBoxes) >=? TOTAL_BOXES
                   then Ended else gameStatus g) /\
  winner g' = (if Z.of_nat (length newBoxes) >=? TOTAL_BOXES
               then decideWinner (scores g') else winner g) /\
  isPaused g' = isPaused g /\
  id r' = id r /\ players r' = players r /\ turnTimer r' = turnTimer r.
Proof.
  unfold scoreMove. cbv zeta.
  destruct (_ - _ >? 0); simpl;
    destruct (Z.of_nat (length (checkForBoxes uuids (lines (gameState r)))) >=? TOTAL_BOXES);
    simpl; done.
Qed.

Lemma NoDupEdges_snoc ls line :
  NoDupEdges ls ->
  (forall x, x ∈ ls -> joins x (l_start line) (l_end line) = false) ->
  NoDupEdges (ls ++ [line]).
Proof.
  intros Hnd Hnew i j li lj Hi Hj Hjoin.
  apply lookup_snoc_Some in Hi as [[Hi1 Hi2]|[-> <-]];
    apply lookup_snoc_Some in Hj as [[Hj1 Hj2]|[-> <-]].
  - by apply (Hnd i j li lj).
  - rewrite Hnew in Hjoin; [done|]. by eapply list_elem_of_lookup_2.
  - rewrite joins_sym, Hnew in Hjoin; [done|]. by eapply list_elem_of_lookup_2.
  - done.
Qed.

Lemma not_drawn_joins g line :
  isLineAlreadyDrawn g line = false ->
  forall x, x ∈ lines g -> joins x (l_start line) (l_end line) = false.
Proof.
  intros Hnd x Hx. destruct (joins x _ _) eqn:E; [|done].
  assert (isLineAlreadyDrawn g line = true) as Hd
    by (apply isLineAlreadyDrawn_spec; eauto).
  by rewrite Hd in Hnd.
Qed.

(** A consistent state stays consistent when its board is kept and the
    game goes on or ends. *)
Lemma consistent_same_board g g' :
  consistent g ->
  lines g' = lines g -> boxes g' = boxes g -> scores g' = scores g ->
  gameStatus g' = gameStatus g \/ gameStatus g' = Ended ->
  consistent g'.
Proof.
  intros [Hb Hs Ha Hn] El Eb Es Est. split; rewrite ?El, ?Eb, ?Es; try done.
  intros Hact. apply Ha. destruct Est as [<-|Hend]; [done|].
  by rewrite Hend in Hact.
Qed.

(** Appending a line that was not yet drawn and scoring it keeps the state
    consistent; no region is lost, so the count of completed boxes is never
    negative. *)
Lemma scoreMove_consistent g0 mover now uuids r line :
  consistent g0 ->
  lines (gameState r) = lines g0 ++ [line] ->
  isLineAlreadyDrawn g0 line = false ->
  boxes (gameState r) = boxes g0 ->
  scores (gameState r) = scores g0 ->
  consistent (gameState (scoreMove mover now uuids r).1).
Proof.
  intros [[u0 Hb] Hs Ha Hn] El Hnew Eb Es.
  destruct (scoreMove_state mover now uuids r)
    as (Hl' & Hb' & Hs' & _ & Hst' & _).
  set (g' := gameState (scoreMove mover now uuids r).1) in *.
  assert (length (boxes g0) <= length (checkForBoxes uuids (lines (gameState r))))%nat
    as Hmono.
  { rewrite Hb, El, !length_checkForBoxes. apply closedRegions_mono. }
  split.
  - exists uuids. by rewrite Hb', Hl'.
  - rewrite Hs', Hb', Eb, Es.
    destruct (Z.gtb_spec
      (Z.of_nat (length (checkForBoxes uuids (lines (gameState r))))
       - Z.of_nat (length (boxes g0))) 0).
    + destruct mover; simpl; lia.
    + lia.
  - rewrite Hst', Hb'.
    destruct (Z.geb_spec
      (Z.of_nat (length (checkForBoxes uuids (lines (gameState r))))) TOTAL_BOXES);
      [done|lia].
  - rewrite Hl', El. apply NoDupEdges_snoc; [done|]. by apply not_drawn_joins.
Qed.

(** ** Legal moves *)

Lemma getAvailableMoves_spec g m :
  m ∈ getAvailableMoves g <->
  exists row col,
    0 <= row < GRID_SIZE /\ 0 <= col < GRID_SIZE /\
    ((col < GRID_SIZE - 1 /\
      m = mkLine (mkCoord row col) (mkCoord row (col + 1)) (currentPlayer g) None) \/
     (row < GRID_SIZE - 1 /\
      m = mkLine (mkCoord row col) (mkCoord (row + 1) col) (currentPlayer g) None)) /\
    isLineAlreadyDrawn g m = false.
Proof.
  unfold getAvailableMoves. rewrite list_elem_of_In, in_flat_map. split.
  - intros (row & Hrow%list_elem_of_In%elem_of_seqZ & Hin).
    apply in_flat_map in Hin as (col & Hcol%list_elem_of_In%elem_of_seqZ & Hin).
    apply in_app_or in Hin. exists row, col. split; [lia|]. split; [lia|].
    destruct Hin as [Hin|Hin].
    + destruct (Z.ltb_spec col (GRID_SIZE - 1)); [|done].
      destruct (isLineAlreadyDrawn g _) eqn:E; simpl in Hin; [done|].
      destruct Hin as [<-|[]]. split; [by left|done].
    + destruct (Z.ltb_spec row (GRID_SIZE - 1)); [|done].
      destruct (isLineAlreadyDrawn g _) eqn:E; simpl in Hin; [done|].
      destruct Hin as [<-|[]]. split; [by right|done].
  - intros (row & col & Hrow & Hcol & Hm & Hfree). exists row. split.
    { apply list_elem_of_In, elem_of_seqZ. lia. }
    apply in_flat_map. exists col. split.
    { apply list_elem_of_In, elem_of_seqZ. lia. }
    apply in_or_app. destruct Hm as [[Hlt ->]|[Hlt ->]]; [left|right].
    + destruct (Z.ltb_spec col (GRID_SIZE - 1)); [|lia].
      rewrite Hfree. by left.
    + destruct (Z.ltb_spec row (GRID_SIZE - 1)); [|lia].
      rewrite Hfree. by left.
Qed.

Lemma getAvailableMoves_free g m :
  m ∈ getAvailableMoves g -> isLineAlreadyDrawn g m = false.
Proof. rewrite getAvailableMoves_spec. by intros (_ & _ & _ & _ & _ & H). Qed.

(** Every side of every cell is among the candidates that
    [getAvailableMoves] tries. *)
Lemma open_cell_has_move g row col :
  0 <= row < GRID_SIZE - 1 -> 0 <= col < GRID_SIZE - 1 ->
  cellOwner (lines g) row col = None ->
  exists m, m ∈ getAvailableMoves g.
Proof.
  intros Hrow Hcol Hopen.
  assert (forall s e, findLine (lines g) s e = None ->
            isLineAlreadyDrawn g (mkLine s e (currentPlayer g) None) = false) as Hfree.
  { intros s e Hf. rewrite findLine_drawn. simpl. rewrite Hf.
    apply bool_decide_eq_false. by intros [? ?]. }
  unfold cellOwner in Hopen.
  destruct (findLine _ (mkCoord row col) (mkCoord row (col + 1))) eqn:ET.
  2: { eexists. apply getAvailableMoves_spec. exists row, col.
       split_and!; [lia..| |by apply Hfree]. left. split; [lia|done]. }
  destruct (findLine _ (mkCoord row (col + 1)) _) eqn:ER.
  2: { eexists. apply getAvailableMoves_spec. exists row, (col + 1).
       split_and!; [lia..| |by apply Hfree]. right. split; [lia|done]. }
  destruct (findLine _ (mkCoord (row + 1) col) _) eqn:EB.
  2: { eexists. apply getAvailableMoves_spec. exists (row + 1), col.
       split_and!; [lia..| |by apply Hfree]. left. split; [lia|done]. }
  destruct (findLine _ (mkCoord row col) (mkCoord (row + 1) col)) eqn:EL; [done|].
  eexists. apply getAvailableMoves_spec. exists row, col.
  split_and!; [lia..| |by apply Hfree]. right. split; [lia|done].
Qed.

(** ** The handlers, case by case *)

Lemma moveInRoom_Return socket now uuids move room room' out :
  moveInRoom socket now uuids move room = Return (room', out) ->
  exists i player mover,
    list_find (fun p => socketId p = socket) (jm_values (players room))
      = Some (i, player) /\
    playerNumber player = Some mover /\
    currentPlayer (gameState room) = mover /\
    gameStatus (gameState room) = Active /\
    isLineAlreadyDrawn (gameState room) move = false /\
    let pushed :=
      updateActivityTime now
        (upd (fun g => set_lines (lines g ++ [stamped now move]) g)
             (clearTurnTimer room)) in
    let scored := (scoreMove mover now uuids pushed).1 in
    room' = (if bool_decide (gameStatus (gameState scored) = Active)
             then (startTurnTimer scored).1 else scored).
Proof.
  unfold moveInRoom.
  destruct (list_find _ _) as [[i player]|]; [|done].
  destruct (playerNumber player) as [mover|] eqn:Hnum; [|done].
  destruct (bool_decide (currentPlayer (gameState room) ≠ mover)) eqn:Hturn; [done|].
  destruct (bool_decide (gameStatus (gameState room) ≠ Active)) eqn:Hact; [done|].
  destruct (isLineAlreadyDrawn (gameState room) move) eqn:Hdup; [done|].
  cbn [orb]. apply bool_decide_eq_false in Hturn, Hact.
  apply dec_stable in Hturn, Hact.
  fold (stamped now move).
  destruct (scoreMove mover now uuids _) as [scored persisted] eqn:Hscore.
  intros Hret. exists i, player, mover. split_and!; try done.
  cbv zeta. rewrite Hscore. simpl.
  destruct (bool_decide (gameStatus (gameState scored) = Active));
    simpl in Hret; by injection Hret as <- _.
Qed.

Lemma moveInRoom_accepts socket now uuids move room :
  onTurn socket room ->
  gameStatus (gameState room) = Active ->
  isLineAlreadyDrawn (gameState room) move = false ->
  exists room' out, moveInRoom socket now uuids move room = Return (room', out).
Proof.
  intros (i & player & Hfind & Hnum) Hact Hfree. unfold moveInRoom.
  rewrite Hfind, Hnum, Hfree.
  rewrite (bool_decide_eq_false_2 (_ ≠ _)) by (intros H; by apply H).
  rewrite (bool_decide_eq_false_2 (_ ≠ _)) by (intros H; by apply H).
  cbn [orb]. destruct (scoreMove _ _ _ _) as [scored persisted].
  destruct (bool_decide _); by eexists _, _.
Qed.

Lemma moveInRoom_Throw socket now uuids move room :
  ~ onTurn socket room \/ gameStatus (gameState room) ≠ Active \/
  isLineAlreadyDrawn (gameState room) move = true ->
  exists m, moveInRoom socket now uuids move room = Throw m.
Proof.
  intros Hrej. destruct (moveInRoom socket now uuids move room) as [[room' out]|m] eqn:E;
    [|by eexists].
  apply moveInRoom_Return in E
    as (i & player & mover & Hfind & Hnum & Hturn & Hact & Hfree & _).
  destruct Hrej as [Hno|[Hno|Hdup]].
  - destruct Hno. exists i, player. by rewrite Hturn.
  - done.
  - by rewrite Hdup in Hfree.
Qed.

Lemma makeRandomMove_None rnd now uuids r :
  getAvailableMoves (gameState r) = [] ->
  makeRandomMove rnd now uuids r = (None, r, []).
Proof. unfold makeRandomMove. by intros ->. Qed.

Lemma makeRandomMove_Some rnd now uuids r :
  getAvailableMoves (gameState r) ≠ [] ->
  exists picked out,
    picked ∈ getAvailableMoves (gameState r) /\
    let pushed :=
      updateActivityTime now
        (upd (fun g => set_lines (lines g ++ [stamped now picked]) g) r) in
    makeRandomMove rnd now uuids r =
      (Some (stamped now picked),
       (scoreMove (currentPlayer (gameState r)) now uuids pushed).1, out).
Proof.
  unfold makeRandomMove. destruct (getAvailableMoves (gameState r)) as [|first rest] eqn:E;
    [done|]. intros _.
  set (picked := nth (rnd mod length (first :: rest)) (first :: rest) first).
  assert (picked ∈ first :: rest) as Hin.
  { apply list_elem_of_In, nth_In, Nat.mod_upper_bound. done. }
  fold (stamped now picked). simpl currentPlayer.
  destruct (scoreMove _ _ _ _) as [scored persisted] eqn:Hscore.
  exists picked. eexists. split; [done|]. by rewrite Hscore.
Qed.

(** ** The invariant of sessions *)

Lemma consistent_created now roomId first second :
  consistent (gameState (createRoom now roomId first second).1).
Proof.
  split; simpl.
  - by exists (fun _ => "").
  - done.
  - done.
  - intros i j li lj Hi. by rewrite lookup_nil in Hi.
Qed.

Lemma consistent_pushed g0 mover now uuids r line t :
  consistent g0 ->
  gameState r = g0 ->
  isLineAlreadyDrawn g0 line = false ->
  let pushed :=
    updateActivityTime now
      (upd (fun g => set_lines (lines g ++ [stamped now line]) g) (set_turnTimer t r)) in
  consistent (gameState (scoreMove mover now uuids pushed).1).
Proof.
  intros Hc <- Hfree. simpl.
  eapply (scoreMove_consistent (gameState r)); simpl; try done.
Qed.

Lemma consistent_moveInRoom socket now uuids move room room' out :
  consistent (gameState room) ->
  moveInRoom socket now uuids move room = Return (room', out) ->
  consistent (gameState room').
Proof.
  intros Hc (i & player & mover & _ & _ & _ & _ & Hfree & ->)%moveInRoom_Return.
  pose proof (consistent_pushed _ mover now uuids room move false Hc eq_refl Hfree) as Hs.
  simpl in Hs. unfold clearTurnTimer.
  destruct (bool_decide _); [|done].
  eapply consistent_same_board; [exact Hs|done..|by left].
Qed.

Lemma consistent_makeRandomMove rnd now uuids r :
  consistent (gameState r) ->
  consistent (gameState (makeRandomMove rnd now uuids r).1.2).
Proof.
  intros Hc. destruct (getAvailableMoves (gameState r)) eqn:E.
  - by rewrite makeRandomMove_None.
  - destruct (makeRandomMove_Some rnd now uuids r) as (picked & out & Hin & ->);
      [by rewrite E|].
    simpl. apply getAvailableMoves_free in Hin.
    pose proof (consistent_pushed _ (currentPlayer (gameState r)) now uuids r picked
                  (turnTimer r) Hc eq_refl Hin) as Hs.
    by destruct r.
Qed.

Lemma consistent_timerTick rnd now uuids r :
  consistent (gameState r) ->
  consistent (gameState (timerTick rnd now uuids r).1).
Proof.
  intros Hc. unfold timerTick. cbv zeta.
  assert (consistent (gameState (upd (fun g => set_timeLeft (timeLeft g - 1) g) r))) as Hc1.
  { eapply consistent_same_board; [exact Hc|done..|by left]. }
  set (r1 := upd _ r) in *.
  destruct (timeLeft (gameState r1) <=? 0); [|done].
  destruct (bool_decide (gameStatus (gameState (clearTurnTimer r1)) = Active)); [|done].
  pose proof (consistent_makeRandomMove rnd now uuids (clearTurnTimer r1) Hc1) as Hc2.
  destruct (makeRandomMove rnd now uuids (clearTurnTimer r1)) as [[m r2] played].
  simpl in Hc2.
  destruct (bool_decide (gameStatus (gameState r2) = Active)); [|done].
  simpl. eapply consistent_same_board; [exact Hc2|done..|by left].
Qed.

Lemma consistent_pauseInRoom socket now room room' out :
  consistent (gameState room) ->
  pauseInRoom socket now room = Return (room', out) ->
  consistent (gameState room').
Proof.
  intros Hc. unfold pauseInRoom.
  destruct (negb _); [done|]. cbv zeta.
  set (r1 := updateActivityTime now _).
  assert (consistent (gameState r1)) as Hc1.
  { eapply consistent_same_board; [exact Hc|done..|by left]. }
  destruct (isPaused (gameState r1)).
  - intros [= <- _]. done.
  - destruct (bool_decide _); intros [= <- _]; [|done].
    eapply consistent_same_board; [exact Hc1|done..|by left].
Qed.

Lemma consistent_playerLeaves now socket r :
  consistent (gameState r) ->
  consistent (gameState (playerLeaves now socket r).1).
Proof.
  intros Hc. unfold playerLeaves. cbv zeta.
  set (r1 := removePlayer now socket r).
  destruct (bool_decide (gameStatus (gameState r1) = Active)); [|done].
  simpl. eapply consistent_same_board; [exact Hc| | | |].
  all: repeat case_match; simpl; first [done | by right].
Qed.

(** Every session built by the public operations is consistent: its boxes
    are those of its lines, its scores add up to their number, it is still
    open while active, and it holds no edge twice. *)
Lemma reachable_consistent r : reachable r -> consistent (gameState r).
Proof.
  induction 1 as [now roomId first second
                 | r socket now uuids move r' out _ IH Hmove
                 | r rnd now uuids _ IH _
                 | r socket now r' out _ IH Hpause
                 | r socket now _ IH
                 | r _ IH].
  - apply consistent_created.
  - by eapply consistent_moveInRoom.
  - by apply consistent_timerTick.
  - by eapply consistent_pauseInRoom.
  - by apply consistent_playerLeaves.
  - done.
Qed.

(** Restarting the turn timer touches the clock only. *)
Lemma restart_keeps_game (b : bool) scored :
  let r' := if b then (startTurnTimer scored).1 else scored in
  lines (gameState r') = lines (gameState scored) /\
  boxes (gameState r') = boxes (gameState scored) /\
  scores (gameState r') = scores (gameState scored) /\
  currentPlayer (gameState r') = currentPlayer (gameState scored) /\
  gameStatus (gameState r') = gameStatus (gameState scored) /\
  winner (gameState r') = winner (gameState scored).
Proof. by destruct b. Qed.

(** ** Scores and closed regions *)

(** C2. In every session state that the public operations can produce,
    hence after every move applied by a player or forced by the timer, the
    two scores add up to the number of closed regions that [checkForBoxes]
    returns on the current lines. *)
Theorem score_sum_is_region_count (r : Room) (uuids : nat -> string) :
  reachable r ->
  player1 (scores (gameState r)) + player2 (scores (gameState r))
  = Z.of_nat (length (checkForBoxes uuids (lines (gameState r)))).
Proof.
  intros [[u0 Hb] Hs _ _]%reachable_consistent.
  by rewrite Hs, Hb, !length_checkForBoxes.
Qed.

Lemma reachable_submit socket move r : reachable r -> reachable (submit socket move r).
Proof.
  intros Hr. unfold submit.
  destruct (moveInRoom socket 1 noUuid move r) as [[r' out]|m] eqn:E; [|done].
  by eapply reach_move.
Qed.

Lemma reachable_boxClosed : reachable boxClosed.
Proof. repeat apply reachable_submit. apply reach_create. Qed.

Lemma score_sum_is_region_count_witness :
  reachable boxClosed /\
  player1 (scores (gameState boxClosed)) + player2 (scores (gameState boxClosed))
  = Z.of_nat (length (checkForBoxes noUuid (lines (gameState boxClosed)))).
Proof.
  split; [apply reachable_boxClosed|].
  apply (score_sum_is_region_count boxClosed noUuid), reachable_boxClosed.
Defined.

(** ** The capture rule *)

Lemma scored_rule g0 mover now uuids r line u u' :
  consistent g0 ->
  lines (gameState r) = lines g0 ++ [line] ->
  boxes (gameState r) = boxes g0 ->
  scores (gameState r) = scores g0 ->
  currentPlayer (gameState r) = mover ->
  let g' := gameState (scoreMove mover now uuids r).1 in
  let delta := Z.of_nat (length (checkForBoxes u' (lines g')))
               - Z.of_nat (length (checkForBoxes u (lines g0))) in
  0 <= delta /\
  (0 < delta ->
     scoreOf mover (scores g') = scoreOf mover (scores g0) + delta /\
     scoreOf (otherPlayer mover) (scores g') = scoreOf (otherPlayer mover) (scores g0) /\
     currentPlayer g' = mover) /\
  (delta = 0 -> scores g' = scores g0 /\ currentPlayer g' = otherPlayer mover).
Proof.
  intros [[u0 Hb] _ _ _] El Eb Es Ecp.
  destruct (scoreMove_state mover now uuids r) as (Hl' & _ & Hs' & Hcp' & _).
  cbv zeta. rewrite Hl', Hs', Hcp', El, Eb, Es, Ecp, Hb, !length_checkForBoxes.
  pose proof (closedRegions_mono (lines g0) [line]) as Hmono.
  destruct (Z.gtb_spec
    (Z.of_nat (length (closedRegions (lines g0 ++ [line])))
     - Z.of_nat (length (closedRegions (lines g0)))) 0).
  - split; [lia|]. split; [|lia]. intros _. by destruct mover.
  - split; [lia|]. split; [lia|]. done.
Qed.

(** C4. For every session state the public operations can produce (so for
    every such Active state) and every move applied to it: the number of
    closed regions never drops; if the move closes at least one region, the
    mover's score grows by the number of regions closed, the other score is
    kept and the turn stays with the mover; if it closes none, both scores
    are kept and the turn passes to the other player. *)
Theorem capture_rule (r r' : Room) (mover : PlayerNumber) (u u' : nat -> string) :
  reachable r ->
  applied r mover r' ->
  let g := gameState r in
  let g' := gameState r' in
  let delta := Z.of_nat (length (checkForBoxes u' (lines g')))
               - Z.of_nat (length (checkForBoxes u (lines g))) in
  0 <= delta /\
  (0 < delta ->
     scoreOf mover (scores g') = scoreOf mover (scores g) + delta /\
     scoreOf (otherPlayer mover) (scores g') = scoreOf (otherPlayer mover) (scores g) /\
     currentPlayer g' = mover) /\
  (delta = 0 -> scores g' = scores g /\ currentPlayer g' = otherPlayer mover).
Proof.
  intros Hc%reachable_consistent Happ.
  destruct Happ as [socket now uuids move out i player Hfind Hnum Hmove
                   | rnd now uuids move out -> Hforced].
  - apply moveInRoom_Return in Hmove
      as (i' & player' & mover' & Hfind' & Hnum' & Hturn & _ & _ & ->).
    rewrite Hfind in Hfind'. injection Hfind' as <- <-.
    rewrite Hnum in Hnum'. injection Hnum' as <-.
    cbv zeta.
    match goal with |- context [if ?b then (startTurnTimer ?s).1 else ?s] =>
      destruct (restart_keeps_game b s) as (-> & _ & -> & -> & _) end.
    by apply (scored_rule (gameState r) mover now uuids _ (stamped now move)).
  - destruct (getAvailableMoves (gameState r)) eqn:E.
    { by rewrite makeRandomMove_None in Hforced. }
    destruct (makeRandomMove_Some rnd now uuids r) as (picked & out' & _ & Heq);
      [by rewrite E|].
    rewrite Heq in Hforced. injection Hforced as _ <- _.
    by apply (scored_rule (gameState r) _ now uuids _ (stamped now picked)).
Qed.

Lemma capture_rule_witness :
  reachable threeSides /\ applied threeSides P2 boxClosed /\
  scoreOf P2 (scores (gameState boxClosed)) = 1 /\
  currentPlayer (gameState boxClosed) = P2.
Proof.
  assert (reachable threeSides) as Hr.
  { repeat apply reachable_submit. apply reach_create. }
  assert (applied threeSides P2 boxClosed) as Ha.
  { eapply (applied_submitted _ _ _ "socket-b" 1 noUuid (edge 1 0 0 0 P2));
      vm_compute; reflexivity. }
  split; [exact Hr|]. split; [exact Ha|].
  destruct (capture_rule threeSides boxClosed P2 noUuid noUuid Hr Ha) as (_ & Hcap & _).
  destruct Hcap as (Hs & _ & Ht); [vm_compute; reflexivity|].
  split; [exact Hs|exact Ht].
Defined.

(** ** End of the game *)

Lemma decideWinner_spec s :
  (player1 s > player2 s -> decideWinner s = Some P1) /\
  (player2 s > player1 s -> decideWinner s = Some P2) /\
  (player1 s = player2 s -> decideWinner s = None).
Proof.
  unfold decideWinner.
  destruct (Z.gtb_spec (player1 s) (player2 s)), (Z.gtb_spec (player2 s) (player1 s));
    split_and!; intros; (done || lia).
Qed.

Lemma scored_full mover now uuids r u :
  let g' := gameState (scoreMove mover now uuids r).1 in
  Z.of_nat (length (checkForBoxes u (lines g'))) = TOTAL_BOXES ->
  gameStatus g' = Ended /\ winner g' = decideWinner (scores g').
Proof.
  destruct (scoreMove_state mover now uuids r) as (Hl' & _ & _ & _ & Hst' & Hw' & _).
  cbv zeta. rewrite Hl', Hst', Hw', !length_checkForBoxes. intros ->.
  by rewrite Z.geb_leb, Z.leb_refl.
Qed.

(** C5. Whenever a move applied to a session, submitted or forced, brings
    the number of closed regions to (N-1)^2, i.e. [TOTAL_BOXES] = 25, the
    session's status is Ended afterwards and its winner is the player with
    the strictly higher score, or nobody when the scores are equal. *)
Theorem game_ends_when_grid_full (r r' : Room) (mover : PlayerNumber)
    (uuids : nat -> string) :
  applied r mover r' ->
  Z.of_nat (length (checkForBoxes uuids (lines (gameState r')))) = TOTAL_BOXES ->
  let g' := gameState r' in
  gameStatus g' = Ended /\
  (player1 (scores g') > player2 (scores g') -> winner g' = Some P1) /\
  (player2 (scores g') > player1 (scores g') -> winner g' = Some P2) /\
  (player1 (scores g') = player2 (scores g') -> winner g' = None).
Proof.
  intros Happ Hfull. cbv zeta.
  assert (gameStatus (gameState r') = Ended /\
          winner (gameState r') = decideWinner (scores (gameState r'))) as [Hend ->].
  { destruct Happ as [socket now u move out i player Hfind Hnum Hmove
                     | rnd now u move out -> Hforced].
    - apply moveInRoom_Return in Hmove as (_ & _ & mover' & _ & _ & _ & _ & _ & Hr').
      cbv zeta in Hr'. subst r'.
      match goal with |- context [if ?b then (startTurnTimer ?s).1 else ?s] =>
        destruct (restart_keeps_game b s) as (Hl & _ & Hs & _ & Hst & Hw) end.
      rewrite Hl in Hfull. rewrite Hst, Hw, Hs. by eapply scored_full.
    - destruct (getAvailableMoves (gameState r)) eqn:E.
      { by rewrite makeRandomMove_None in Hforced. }
      destruct (makeRandomMove_Some rnd now u r) as (picked & out' & _ & Heq);
        [by rewrite E|].
      rewrite Heq in Hforced. injection Hforced as _ <- _.
      by eapply scored_full. }
  split; [done|]. apply decideWinner_spec.
Qed.

Lemma game_ends_when_grid_full_witness :
  applied (autoPlay 59 freshRoom) P2 (autoPlay 60 freshRoom) /\
  Z.of_nat (length (checkForBoxes noUuid (lines (gameState (autoPlay 60 freshRoom)))))
    = TOTAL_BOXES /\
  gameStatus (gameState (autoPlay 60 freshRoom)) = Ended /\
  winner (gameState (autoPlay 60 freshRoom)) = Some P2.
Proof.
  assert (applied (autoPlay 59 freshRoom) P2 (autoPlay 60 freshRoom)) as Ha.
  { eapply (applied_forced _ _ _ 0%nat 1 noUuid); vm_compute; reflexivity. }
  assert (Z.of_nat (length (checkForBoxes noUuid
            (lines (gameState (autoPlay 60 freshRoom))))) = TOTAL_BOXES) as Hfull.
  { vm_compute; reflexivity. }
  split; [exact Ha|]. split; [exact Hfull|].
  destruct (game_ends_when_grid_full _ _ P2 noUuid Ha Hfull) as (Hend & _ & Hw & _).
  split; [exact Hend|]. apply Hw. vm_compute; reflexivity.
Defined.

(** ** An active session always has a legal move *)

(** C10. In every session state that the public operations can produce and
    whose status is Active, [getAvailableMoves] returns a non-empty list, so
    [makeRandomMove] never takes the branch that returns [null]: it always
    plays a move. *)
Theorem active_session_has_move (r : Room) :
  reachable r ->
  gameStatus (gameState r) = Active ->
  getAvailableMoves (gameState r) ≠ [] /\
  forall rnd now uuids, exists move r' out,
    makeRandomMove rnd now uuids r = (Some move, r', out).
Proof.
  intros [[u0 Hb] _ Hopen _]%reachable_consistent Hact.
  assert (getAvailableMoves (gameState r) ≠ []) as Hne.
  { specialize (Hopen Hact). rewrite Hb, length_checkForBoxes in Hopen.
    apply closedRegions_open in Hopen as (row & col & Hrow & Hcol & Hnone).
    destruct (open_cell_has_move (gameState r) row col Hrow Hcol Hnone) as [m Hm].
    intros E. rewrite E in Hm. by apply elem_of_nil in Hm. }
  split; [done|]. intros rnd now uuids.
  destruct (makeRandomMove_Some rnd now uuids r Hne) as (picked & out & _ & ->).
  by eexists _, _, _.
Qed.

Lemma active_session_has_move_witness :
  reachable threeSides /\ gameStatus (gameState threeSides) = Active /\
  getAvailableMoves (gameState threeSides) ≠ [].
Proof.
  assert (reachable threeSides) as Hr.
  { repeat apply reachable_submit. apply reach_create. }
  assert (gameStatus (gameState threeSides) = Active) as Hact.
  { vm_compute; reflexivity. }
  split; [exact Hr|]. split; [exact Hact|].
  exact (proj1 (active_session_has_move threeSides Hr Hact)).
Defined.

(** ** Duplicate edges *)

Lemma joins_sameEdge line move :
  joins line (l_start move) (l_end move) = true <-> sameEdge line move.
Proof. apply joins_spec. Qed.

Lemma sameEdge_reverse line move : sameEdge line (reverseLine move) <-> sameEdge line move.
Proof. unfold sameEdge, reverseLine. simpl. tauto. Qed.

Lemma isLineAlreadyDrawn_sameEdge g move :
  isLineAlreadyDrawn g move = true <-> exists line, line ∈ lines g /\ sameEdge line move.
Proof.
  rewrite isLineAlreadyDrawn_spec. by setoid_rewrite joins_sameEdge.
Qed.

Lemma moveInRoom_duplicate socket now uuids move room :
  isLineAlreadyDrawn (gameState room) move = true ->
  exists m, moveInRoom socket now uuids move room = Throw m /\
            (onTurn socket room -> gameStatus (gameState room) = Active ->
             m = MsgLineAlreadyDrawn).
Proof.
  intros Hdup. unfold moveInRoom, onTurn.
  destruct (list_find _ _) as [[i player]|].
  2: { eexists. split; [done|]. by intros (? & ? & ? & _). }
  destruct (playerNumber player) as [mover|] eqn:Hnum.
  2: { eexists. split; [done|]. intros (? & ? & [= <- <-] & Hn). congruence. }
  destruct (bool_decide (currentPlayer (gameState room) ≠ mover)) eqn:Hturn.
  { eexists. split; [done|]. intros (? & ? & [= <- <-] & Hn) _.
    apply bool_decide_eq_true in Hturn. congruence. }
  destruct (bool_decide (gameStatus (gameState room) ≠ Active)) eqn:Hact.
  { eexists. split; [done|]. intros _ Ha. by apply bool_decide_eq_true in Hact. }
  rewrite Hdup. by eexists.
Qed.

(** C9. Edge equality disregards direction: [isLineAlreadyDrawn] answers
    the same for a move and for the move with start and end swapped; so once
    an edge is among the lines, drawn either way, [make_move] rejects the
    edge submitted either way, and with the duplicate-line error whenever
    the sender is on turn in an active game. *)
Theorem isLineAlreadyDrawn_symmetric (g : GameState) (move : Line) :
  isLineAlreadyDrawn g (reverseLine move) = isLineAlreadyDrawn g move /\
  forall line, line ∈ lines g -> sameEdge line move ->
    isLineAlreadyDrawn g move = true /\
    isLineAlreadyDrawn g (reverseLine move) = true /\
    forall socket now uuids room, gameState room = g ->
      (exists m, moveInRoom socket now uuids move room = Throw m /\
                 (onTurn socket room -> gameStatus g = Active ->
                  m = MsgLineAlreadyDrawn)) /\
      (exists m, moveInRoom socket now uuids (reverseLine move) room = Throw m /\
                 (onTurn socket room -> gameStatus g = Active ->
                  m = MsgLineAlreadyDrawn)).
Proof.
  assert (isLineAlreadyDrawn g (reverseLine move) = isLineAlreadyDrawn g move) as Hsym.
  { unfold isLineAlreadyDrawn. simpl.
    induction (lines g) as [|x ls IH]; simpl; [done|].
    by rewrite IH, joins_swap. }
  split; [exact Hsym|].
  intros line Hin Hsame.
  assert (isLineAlreadyDrawn g move = true) as Hdup
    by (apply isLineAlreadyDrawn_sameEdge; eauto).
  split; [done|]. split; [by rewrite Hsym|].
  intros socket now uuids room <-.
  split; apply moveInRoom_duplicate; [done|by rewrite Hsym].
Qed.

(** ** Which moves [make_move] rejects *)

Lemma moveInRoom_applies socket now uuids move room room' out :
  moveInRoom socket now uuids move room = Return (room', out) ->
  lines (gameState room') = lines (gameState room) ++ [stamped now move] /\
  boxes (gameState room') = checkForBoxes uuids (lines (gameState room')) /\
  isPaused (gameState room') = isPaused (gameState room) /\
  exists sent, out = sent ++ [callback true None] /\
               Forall (fun e => forall ok m, e ≠ callback ok m) sent.
Proof.
  intros Hret. pose proof Hret as Hstate.
  apply moveInRoom_Return in Hstate as (i & player & mover & _ & _ & _ & _ & _ & Hr').
  cbv zeta in Hr'.
  match type of Hr' with context [scoreMove mover now uuids ?p] =>
    destruct (scoreMove_state mover now uuids p) as (Hl & Hb & _ & _ & _ & _ & Hp & _) end.
  split_and!.
  - subst room'. by destruct (bool_decide _).
  - subst room'. destruct (bool_decide _); simpl; by rewrite Hb, Hl.
  - subst room'. destruct (bool_decide _); simpl; by rewrite Hp.
  - clear Hr' Hl Hb Hp. unfold moveInRoom in Hret.
    destruct (list_find _ _) as [[? ?]|]; [|done].
    destruct (playerNumber _); [|done].
    destruct (_ || _); [done|].
    destruct (isLineAlreadyDrawn _ _); [done|].
    destruct (scoreMove _ _ _ _) as [scored persisted] eqn:Hscore.
    assert (Forall (fun e => forall ok m, e ≠ callback ok m) persisted) as Hpers.
    { unfold scoreMove in Hscore. cbv zeta in Hscore.
      destruct (_ >=? TOTAL_BOXES); injection Hscore as _ <-; [|done].
      unfold endGame, saveGame, updatePlayerStats.
      apply Forall_app. split; repeat case_match; repeat constructor; done. }
    destruct (bool_decide _); simpl in Hret; injection Hret as _ <-.
    + eexists (persisted ++ [_; _]). rewrite <- !app_assoc. split; [done|].
      apply Forall_app. split; [done|]. repeat constructor; done.
    + eexists (persisted ++ [_]). rewrite <- !app_assoc. split; [done|].
      apply Forall_app. split; [done|]. repeat constructor; done.
Qed.

(** C1, as the code has it. [make_move] answers with an error, and changes
    nothing, when the room is unknown, when the sender is not bound to the
    player whose turn it is (in particular when it is not in the room), when
    the status is not Active, or when the move is an edge already among the
    lines, drawn either way. In every other case the move is appended with
    its time stamp, the boxes are recomputed and the sender gets a success
    acknowledgement. Neither the pause flag nor the position of the move on
    the grid is looked at. *)
Theorem make_move_outcome (socket : string) (now : Z) (uuids : nat -> string)
    (roomId : string) (move : Line) (srv : Server) :
  match jm_get roomId (gameRooms srv) with
  | None =>
      make_move socket now uuids roomId move srv
      = (srv, [callback false (Some MsgRoomNotFound)])
  | Some room =>
      let g := gameState room in
      (~ onTurn socket room \/ gameStatus g ≠ Active \/
       (exists line, line ∈ lines g /\ sameEdge line move) ->
       exists m, make_move socket now uuids roomId move srv
                 = (srv, [callback false (Some m)]))
      /\
      (onTurn socket room -> gameStatus g = Active ->
       ~ (exists line, line ∈ lines g /\ sameEdge line move) ->
       exists room' sent,
         make_move socket now uuids roomId move srv
         = (mkServer (jm_set roomId room' (gameRooms srv)) (matchmakingQueue srv),
            sent ++ [callback true None]) /\
         Forall (fun e => forall ok m, e ≠ callback ok m) sent /\
         lines (gameState room') = lines g ++ [stamped now move] /\
         boxes (gameState room') = checkForBoxes uuids (lines (gameState room')) /\
         isPaused (gameState room') = isPaused g)
  end.
Proof.
  unfold make_move. destruct (jm_get roomId (gameRooms srv)) as [room|]; [|done].
  cbv zeta. split.
  - intros Hrej. destruct (moveInRoom_Throw socket now uuids move room) as [m ->].
    + destruct Hrej as [H|[H|H]]; auto.
      right. right. by apply isLineAlreadyDrawn_sameEdge.
    + by exists m.
  - intros Hturn Hact Hnew.
    destruct (moveInRoom_accepts socket now uuids move room Hturn Hact)
      as (room' & out & Hret).
    { destruct (isLineAlreadyDrawn (gameState room) move) eqn:E; [|done].
      destruct Hnew. by apply isLineAlreadyDrawn_sameEdge. }
    rewrite Hret.
    apply moveInRoom_applies in Hret as (Hl & Hb & Hp & sent & -> & Hsent).
    by exists room', sent.
Qed.

(** C1 as the specification words it fails on two counts: a move submitted
    while the game is paused is applied, and so is a move between points
    that lie outside the 6 x 6 grid. *)
Lemma make_move_accepts_paused_and_outside :
  (isPaused (gameState pausedRoom) = true /\
   last (make_move "socket-a" 2 noUuid "room-1" (edge 0 0 0 1 P1) pausedServer).2
     = Some (callback true None) /\
   lines ∘ gameState <$>
     roomAfter "room-1" (make_move "socket-a" 2 noUuid "room-1" (edge 0 0 0 1 P1) pausedServer)
     = Some [stamped 2 (edge 0 0 0 1 P1)])
  /\
  (last (make_move "socket-a" 2 noUuid "room-1" (edge 7 7 7 8 P1) freshServer).2
     = Some (callback true None) /\
   lines ∘ gameState <$>
     roomAfter "room-1" (make_move "socket-a" 2 noUuid "room-1" (edge 7 7 7 8 P1) freshServer)
     = Some [stamped 2 (edge 7 7 7 8 P1)]).
Proof. vm_compute. split_and!; reflexivity. Qed.

(** ** Joining the queue *)

(** The first check of [join_queue] does what it says: a socket that is
    already queued is turned away and the server is left as it was. *)
Lemma join_queue_already_queued socket now uuids username phone db srv :
  Exists (fun p => socketId p = socket) (matchmakingQueue srv) ->
  join_queue socket now uuids username phone db srv
  = (srv, [callback false (Some MsgAlreadyInQueue)]).
Proof. intros Hq. unfold join_queue. by rewrite bool_decide_eq_true_2. Qed.

(** The second check does not stop the handler: whatever rooms the socket
    is in, a request that passes the first check and whose record-store
    call succeeds is acknowledged as queued. *)
Lemma join_queue_ignores_rooms socket now uuids username srv :
  ~ Exists (fun p => socketId p = socket) (matchmakingQueue srv) ->
  callback true (Some MsgJoinedQueue)
    ∈ (join_queue socket now uuids username None DbFailure srv).2.
Proof.
  intros Hq. unfold join_queue. rewrite bool_decide_eq_false_2 by done.
  simpl. destruct (matchmakingQueue srv ++ _) as [|p1 [|p2 rest]]; simpl.
  - apply elem_of_app. right. by left.
  - apply elem_of_app. right. by left.
  - apply elem_of_app. left. apply elem_of_app. right. by left.
Qed.

(** C8, at a request the code handles against the claim: alice's socket is
    bound to the live session [room-1] and asks to join the empty queue.
    The handler reports that she is already in a room, then queues her all
    the same and reports success. *)
Theorem join_queue_while_in_room :
  jm_has "socket-a" (players freshRoom) = true /\
  join_queue "socket-a" 5 noUuid "alice" None DbFailure freshServer
  = (mkServer [("room-1", freshRoom)]
       [mkPlayer "alice" "socket-a" None None None None],
     [callback false (Some MsgAlreadyInRoom);
      callback true (Some MsgJoinedQueue)]).
Proof. split; vm_compute; reflexivity. Qed.

(** ** Rooms of a running server *)

Lemma jm_get_set {V} (k k' : string) (v : V) (m : JsMap V) :
  jm_get k' (jm_set k v m) = if decide (k = k') then Some v else jm_get k' m.
Proof.
  induction m as [|[k0 v0] m IH]; simpl.
  - by destruct (decide (k = k')).
  - destruct (decide (k0 = k)) as [->|Hne]; simpl.
    + by destruct (decide (k = k')).
    + rewrite IH. destruct (decide (k0 = k')) as [->|]; [|done].
      by rewrite decide_False.
Qed.

Lemma jm_get_delete {V} (k k' : string) (m : JsMap V) :
  jm_get k' (jm_delete k m) = if decide (k = k') then None else jm_get k' m.
Proof.
  unfold jm_delete. induction m as [|[k0 v0] m IH].
  - simpl. by destruct (decide (k = k')).
  - destruct (decide (k0 = k)) as [->|Hne].
    + rewrite filter_cons_False by (simpl; auto). rewrite IH. simpl.
      by destruct (decide (k = k')).
    + rewrite filter_cons_True by done. simpl. rewrite IH.
      destruct (decide (k0 = k')) as [->|]; [|done].
      by rewrite decide_False.
Qed.

Lemma fold_left_invariant {A B} (P : A -> Prop) (f : A -> B -> A) (l : list B) (a : A) :
  P a -> (forall a b, P a -> P (f a b)) -> P (fold_left f l a).
Proof.
  intros Ha Hstep. revert a Ha. induction l as [|b l IH]; intros a Ha; simpl; auto.
Qed.

Lemma rooms_reachable_set srv roomId room queue :
  rooms_reachable srv -> reachable room ->
  rooms_reachable (mkServer (jm_set roomId room (gameRooms srv)) queue).
Proof.
  intros Hall Hr k r. simpl. rewrite jm_get_set.
  destruct (decide (roomId = k)); [by intros [= <-]|apply Hall].
Qed.

Lemma rooms_reachable_delete srv roomId queue :
  rooms_reachable srv ->
  rooms_reachable (mkServer (jm_delete roomId (gameRooms srv)) queue).
Proof.
  intros Hall k r. simpl. rewrite jm_get_delete.
  destruct (decide (roomId = k)); [done|apply Hall].
Qed.

Lemma rooms_reachable_queue srv queue :
  rooms_reachable srv -> rooms_reachable (mkServer (gameRooms srv) queue).
Proof. intros Hall k r. apply Hall. Qed.

Lemma rooms_reachable_leaving now socket roomId srv :
  rooms_reachable srv ->
  rooms_reachable (handlePlayerLeaving now socket roomId srv).1.2.
Proof.
  intros Hall. unfold handlePlayerLeaving.
  destruct (jm_get roomId (gameRooms srv)) as [room|] eqn:E; [|done].
  pose proof (reach_leave room socket now (Hall _ _ E)) as Hleft.
  destruct (playerLeaves now socket room) as [room' out]. simpl in *.
  destruct (isEmpty room').
  - by apply rooms_reachable_delete.
  - by apply rooms_reachable_set.
Qed.

Lemma rooms_reachable_serve now uuids req srv :
  rooms_reachable srv -> rooms_reachable (serve now uuids req srv).1.
Proof.
  intros Hall. destruct req as [socket username phone db | socket roomId move
    | socket roomId | socket roomId | socket | roomId rnd | ]; simpl.
  - (* join_queue *)
    unfold join_queue. destruct (bool_decide _); [done|].
    cbv zeta. destruct (if bool_decide _ then _ else _) as [user|m]; [|done].
    destruct (matchmakingQueue srv ++ _) as [|p1 [|p2 rest]];
      [by apply rooms_reachable_queue..|].
    unfold createAndJoinRoom.
    pose proof (reach_create now (uuids 0%nat) p1 p2) as Hnew.
    destruct (createRoom now (uuids 0%nat) p1 p2) as [room out].
    by apply rooms_reachable_set.
  - (* make_move *)
    unfold make_move. destruct (jm_get roomId (gameRooms srv)) as [room|] eqn:E; [|done].
    destruct (moveInRoom socket now uuids move room) as [[room' out]|m] eqn:Hmove; [|done].
    apply rooms_reachable_set; [done|].
    eapply reach_move; [by eapply Hall|done].
  - (* pause_game *)
    unfold pause_game. destruct (jm_get roomId (gameRooms srv)) as [room|] eqn:E; [|done].
    destruct (pauseInRoom socket now room) as [[room' out]|m] eqn:Hpause; [|done].
    apply rooms_reachable_set; [done|].
    eapply reach_pause; [by eapply Hall|done].
  - (* leave_room *)
    unfold leave_room.
    pose proof (rooms_reachable_leaving now socket roomId srv Hall) as Hleft.
    destruct (handlePlayerLeaving now socket roomId srv) as [[ok srv'] out].
    by destruct ok.
  - (* disconnect *)
    unfold disconnect.
    apply (fold_left_invariant (fun acc => rooms_reachable acc.1)); [done|].
    intros acc entry Hacc. destruct (jm_has _ _); [|done].
    pose proof (rooms_reachable_leaving now socket entry.1 acc.1 Hacc) as Hleft.
    by destruct (handlePlayerLeaving now socket entry.1 acc.1) as [[ok srv'] out].
  - (* the interval fires *)
    unfold timerFires. destruct (jm_get roomId (gameRooms srv)) as [room|] eqn:E; [|done].
    destruct (turnTimer room) eqn:Hon; [|done].
    pose proof (reach_tick room rnd now uuids (Hall _ _ E) Hon) as Hticked.
    destruct (timerTick rnd now uuids room) as [room' out].
    by apply rooms_reachable_set.
  - (* sweep *)
    unfold sweep.
    apply (fold_left_invariant (fun acc => rooms_reachable acc.1)); [done|].
    intros acc entry Hacc. destruct (_ || _); [|done].
    by apply rooms_reachable_delete.
Qed.

(** The room-level steps cover the server: whatever requests, timer firings
    and sweeps a run consists of, every room in the registry is [reachable],
    and therefore consistent. *)
Lemma served_rooms_reachable srv : served srv -> rooms_reachable srv.
Proof.
  induction 1 as [|srv now uuids req _ IH].
  - intros k r. done.
  - by apply rooms_reachable_serve.
Qed.

(** * Further properties of the code *)

(** ** Boxes *)

Lemma sublist_cells_row ls row cols :
  sublist
    ((omap (fun col => pair (mkCoord row col) <$> cellOwner ls row col) cols).*1)
    (mkCoord row <$> cols).
Proof.
  induction cols as [|col cols IH]; csimpl; [done|].
  destruct (cellOwner ls row col); csimpl.
  - by apply sublist_skip.
  - by apply sublist_cons.
Qed.

Lemma sublist_cells ls rows cols :
  sublist
    ((flat_map (fun row =>
        omap (fun col => pair (mkCoord row col) <$> cellOwner ls row col) cols)
      rows).*1)
    (flat_map (fun row => mkCoord row <$> cols) rows).
Proof.
  induction rows as [|row rows IH]; simpl; [done|].
  rewrite fmap_app. apply sublist_app; [apply sublist_cells_row|done].
Qed.

(** X1. [checkForBoxes] lists every cell at most once, only cells of the
    (N-1) x (N-1) grid, and so never more than [TOTAL_BOXES] boxes. *)
Theorem checkForBoxes_cells_once (uuids : nat -> string) (ls : list Line) :
  NoDup (b_topLeft <$> checkForBoxes uuids ls) /\
  Z.of_nat (length (checkForBoxes uuids ls)) <= TOTAL_BOXES /\
  forall b, b ∈ checkForBoxes uuids ls ->
    0 <= row (b_topLeft b) < GRID_SIZE - 1 /\ 0 <= col (b_topLeft b) < GRID_SIZE - 1.
Proof.
  split_and!.
  - assert (b_topLeft <$> checkForBoxes uuids ls = (closedRegions ls).*1) as ->.
    { rewrite <- (regions_checkForBoxes uuids), <- list_fmap_compose.
      by apply list_fmap_ext. }
    eapply sublist_NoDup; [|apply sublist_cells].
    apply (bool_decide_unpack _). by vm_compute.
  - rewrite length_checkForBoxes. apply length_closedRegions_le.
  - intros b (row & col & Hrow & Hcol & -> & _)%box_in_checkForBoxes. done.
Qed.

Lemma findLine_list_find ls s e i x :
  list_find (fun line => joins line s e) ls = Some (i, x) -> findLine ls s e = Some x.
Proof. unfold findLine. by intros ->. Qed.

Lemma lastLine_app ls more tl tr bl br iT iR iB iL t r b l :
  list_find (fun x => joins x tl tr) ls = Some (iT, t) ->
  list_find (fun x => joins x tr br) ls = Some (iR, r) ->
  list_find (fun x => joins x bl br) ls = Some (iB, b) ->
  list_find (fun x => joins x tl bl) ls = Some (iL, l) ->
  lastLine (ls ++ more) t r b l = lastLine ls t r b l.
Proof.
  intros HT HR HB HL.
  pose proof (lastLine_max _ _ _ _ _ _ _ _ _ _ _ _ _ HT HR HB HL) as Hls.
  pose proof (lastLine_max _ _ _ _ _ _ _ _ _ _ _ _ _
                (list_find_app_l _ _ more _ _ HT) (list_find_app_l _ _ more _ _ HR)
                (list_find_app_l _ _ more _ _ HB) (list_find_app_l _ _ more _ _ HL)) as Happ.
  apply (lookup_app_l_Some _ more) in Hls. rewrite Hls in Happ. by injection Happ.
Qed.

(** The owner of a closed cell does not change when more lines are drawn. *)
Lemma cellOwner_keep ls more row col p :
  cellOwner ls row col = Some p -> cellOwner (ls ++ more) row col = Some p.
Proof.
  intros (iT & iR & iB & iL & t & r & b & l & HT & HR & HB & HL & ->)%cellOwner_Some.
  unfold cellOwner.
  rewrite (findLine_list_find _ _ _ _ _ (list_find_app_l _ _ more _ _ HT)),
          (findLine_list_find _ _ _ _ _ (list_find_app_l _ _ more _ _ HR)),
          (findLine_list_find _ _ _ _ _ (list_find_app_l _ _ more _ _ HB)),
          (findLine_list_find _ _ _ _ _ (list_find_app_l _ _ more _ _ HL)).
  by erewrite lastLine_app.
Qed.

Lemma box_of_cell uuids ls row col p :
  0 <= row < GRID_SIZE - 1 -> 0 <= col < GRID_SIZE - 1 ->
  cellOwner ls row col = Some p ->
  exists b, b ∈ checkForBoxes uuids ls /\ b_topLeft b = mkCoord row col /\ b_player b = p.
Proof.
  intros Hrow Hcol Hown.
  assert ((mkCoord row col, p) ∈ region <$> checkForBoxes uuids ls) as Hin.
  { rewrite regions_checkForBoxes. apply elem_of_closedRegions. by exists row, col. }
  apply list_elem_of_fmap in Hin as (b & Hreg & Hb).
  exists b. injection Hreg as <- <-. done.
Qed.

(** X2. A box, once reported, is reported with the same owner for every longer
    list of lines: regions are never lost and never change hands. *)
Theorem region_owner_permanent (uuids uuids' : nat -> string)
    (ls more : list Line) (b : Box) :
  b ∈ checkForBoxes uuids ls ->
  exists b', b' ∈ checkForBoxes uuids' (ls ++ more) /\
             b_topLeft b' = b_topLeft b /\ b_player b' = b_player b.
Proof.
  intros (row & col & Hrow & Hcol & Htl & Hown)%box_in_checkForBoxes.
  rewrite Htl. apply box_of_cell; [done..|]. by apply cellOwner_keep.
Qed.

Lemma region_owner_permanent_witness :
  let b := mkBox (mkCoord 0 0) P2 "box-0-0-3b241101" in
  let more := [stamped 9 (edge 3 3 3 4 P1); stamped 9 (edge 0 1 0 0 P1)] in
  b ∈ checkForBoxes noUuid (lines (gameState boxClosed)) /\
  exists b', b' ∈ checkForBoxes noUuid (lines (gameState boxClosed) ++ more) /\
             b_topLeft b' = b_topLeft b /\ b_player b' = b_player b.
Proof.
  cbv zeta.
  assert (mkBox (mkCoord 0 0) P2 "box-0-0-3b241101"
          ∈ checkForBoxes noUuid (lines (gameState boxClosed))) as Hin.
  { vm_compute. apply list_elem_of_In. simpl. tauto. }
  split; [exact Hin|].
  exact (region_owner_permanent noUuid noUuid _ _ _ Hin).
Defined.

Lemma cellOwner_closing ls m row col p :
  cellOwner ls row col = None ->
  cellOwner (ls ++ [m]) row col = Some p ->
  p = l_player m.
Proof.
  intros Hopen (iT & iR & iB & iL & t & r & b & l & HT & HR & HB & HL & ->)%cellOwner_Some.
  pose proof (lastLine_max _ _ _ _ _ _ _ _ _ _ _ _ _ HT HR HB HL) as Hlast.
  assert (length ls <= Nat.max (Nat.max (Nat.max iT iR) iB) iL)%nat as Hge.
  { unfold cellOwner in Hopen.
    apply list_find_app_Some in HT as [HT|(HT & _)], HR as [HR|(HR & _)],
      HB as [HB|(HB & _)], HL as [HL|(HL & _)]; try lia.
    by rewrite (findLine_list_find _ _ _ _ _ HT), (findLine_list_find _ _ _ _ _ HR),
      (findLine_list_find _ _ _ _ _ HB), (findLine_list_find _ _ _ _ _ HL) in Hopen. }
  apply lookup_app_Some in Hlast as [Hlast|[_ Hlast]].
  - apply lookup_lt_Some in Hlast. lia.
  - apply list_lookup_singleton_Some in Hlast as [_ <-]. done.
Qed.

(** X3. The box of a cell that a newly appended line closes carries the
    [player] field of that line, whoever sent it. *)
Theorem new_box_owner (uuids uuids' : nat -> string) (ls : list Line)
    (m : Line) (b : Box) :
  b ∈ checkForBoxes uuids' (ls ++ [m]) ->
  (forall b0, b0 ∈ checkForBoxes uuids ls -> b_topLeft b0 ≠ b_topLeft b) ->
  b_player b = l_player m.
Proof.
  intros (row & col & Hrow & Hcol & Htl & Hown)%box_in_checkForBoxes Hnew.
  eapply cellOwner_closing; [|exact Hown].
  destruct (cellOwner ls row col) as [p|] eqn:E; [|done].
  destruct (box_of_cell uuids ls row col p Hrow Hcol E) as (b0 & Hb0 & Htl0 & _).
  destruct (Hnew b0 Hb0). by rewrite Htl0, Htl.
Qed.

Lemma new_box_owner_witness :
  let b := mkBox (mkCoord 0 0) P1 "box-0-0-3b241101" in
  let m := stamped 1 (edge 1 0 0 0 P1) in
  b ∈ checkForBoxes noUuid (lines (gameState threeSides) ++ [m]) /\
  (forall b0, b0 ∈ checkForBoxes noUuid (lines (gameState threeSides)) ->
     b_topLeft b0 ≠ b_topLeft b) /\
  b_player b = l_player m.
Proof.
  cbv zeta.
  assert (mkBox (mkCoord 0 0) P1 "box-0-0-3b241101"
          ∈ checkForBoxes noUuid (lines (gameState threeSides)
                                  ++ [stamped 1 (edge 1 0 0 0 P1)])) as Hin.
  { vm_compute. apply list_elem_of_In. simpl. tauto. }
  assert (forall b0, b0 ∈ checkForBoxes noUuid (lines (gameState threeSides)) ->
            b_topLeft b0 ≠ mkCoord 0 0) as Hnew.
  { intros b0 Hb0. vm_compute in Hb0. by apply elem_of_nil in Hb0. }
  split; [exact Hin|]. split; [exact Hnew|].
  exact (new_box_owner noUuid noUuid _ _ _ Hin Hnew).
Defined.

(** ** The handlers, as changes of the room *)

Lemma scoreMove_clock mover now uuids r :
  timeLeft (gameState (scoreMove mover now uuids r).1) = timeLeft (gameState r).
Proof.
  unfold scoreMove. cbv zeta.
  destruct (_ - _ >? 0); simpl;
    by destruct (Z.of_nat (length (checkForBoxes uuids (lines (gameState r)))) >=? TOTAL_BOXES).
Qed.

Lemma timerTick_cases rnd now uuids r :
  let r1 := upd (fun g => set_timeLeft (timeLeft g - 1) g) r in
  (1 < timeLeft (gameState r) ->
     timerTick rnd now uuids r = (r1, [timer_update (id r) (timeLeft (gameState r) - 1)]))
  /\
  (timeLeft (gameState r) <= 1 -> gameStatus (gameState r) ≠ Active ->
     (timerTick rnd now uuids r).1 = clearTurnTimer r1)
  /\
  (timeLeft (gameState r) <= 1 -> gameStatus (gameState r) = Active ->
     let r2 := (makeRandomMove rnd now uuids (clearTurnTimer r1)).1.2 in
     (timerTick rnd now uuids r).1 =
       if bool_decide (gameStatus (gameState r2) = Active)
       then (startTurnTimer r2).1 else r2).
Proof.
  cbv zeta. unfold timerTick. cbv zeta.
  set (r1 := upd (fun g => set_timeLeft (timeLeft g - 1) g) r).
  change (timeLeft (gameState r1)) with (timeLeft (gameState r) - 1).
  change (gameStatus (gameState (clearTurnTimer r1))) with (gameStatus (gameState r)).
  split_and!.
  - intros Hgt. destruct (Z.leb_spec (timeLeft (gameState r) - 1) 0); [lia|done].
  - intros Hle Hna. destruct (Z.leb_spec (timeLeft (gameState r) - 1) 0); [|lia].
    by rewrite bool_decide_eq_false_2.
  - intros Hle Hact. destruct (Z.leb_spec (timeLeft (gameState r) - 1) 0); [|lia].
    rewrite (bool_decide_eq_true_2 _ Hact).
    destruct (makeRandomMove rnd now uuids (clearTurnTimer r1)) as [[m r2] played].
    simpl. by destruct (bool_decide (gameStatus (gameState r2) = Active)).
Qed.

Lemma pauseInRoom_Return socket now room room' out :
  pauseInRoom socket now room = Return (room', out) ->
  jm_has socket (players room) = true /\
  let r1 := updateActivityTime now
              (upd (fun g => set_isPaused (negb (isPaused g)) g) room) in
  room' = if isPaused (gameState r1) then clearTurnTimer r1
          else if bool_decide (gameStatus (gameState r1) = Active)
               then (startTurnTimer r1).1 else r1.
Proof.
  unfold pauseInRoom. destruct (jm_has socket (players room)); [|done]. simpl negb.
  cbv iota zeta. set (r1 := updateActivityTime now _).
  destruct (isPaused (gameState r1)).
  - by intros [= <- _].
  - by destruct (bool_decide _); intros [= <- _].
Qed.

Lemma playerLeaves_state now socket r :
  let r1 := removePlayer now socket r in
  (gameStatus (gameState r) ≠ Active -> (playerLeaves now socket r).1 = r1) /\
  (gameStatus (gameState r) = Active ->
     let r' := (playerLeaves now socket r).1 in
     gameStatus (gameState r') = Ended /\ turnTimer r' = false /\
     players r' = players r1 /\ id r' = id r /\
     lines (gameState r') = lines (gameState r) /\
     boxes (gameState r') = boxes (gameState r) /\
     scores (gameState r') = scores (gameState r) /\
     currentPlayer (gameState r') = currentPlayer (gameState r) /\
     timeLeft (gameState r') = timeLeft (gameState r) /\
     isPaused (gameState r') = isPaused (gameState r) /\
     winner (gameState r') =
       match jm_values (players r1) with
       | [remainingPlayer] =>
           match playerNumber remainingPlayer with
           | Some n => Some n
           | None => winner (gameState r)
           end
       | _ => winner (gameState r)
       end).
Proof.
  cbv zeta. unfold playerLeaves. cbv zeta.
  change (gameStatus (gameState (removePlayer now socket r)))
    with (gameStatus (gameState r)).
  split.
  - intros Hna. by rewrite bool_decide_eq_false_2.
  - intros Hact. rewrite (bool_decide_eq_true_2 _ Hact). simpl.
    destruct (jm_values (jm_delete socket (players r))) as [|p [|? ?]]; simpl; try done.
    by destruct (playerNumber p).
Qed.

Lemma step_reachable r r' : reachable r -> step r r' -> reachable r'.
Proof.
  intros Hr Hs.
  destruct Hs as [r socket now uuids move r' out Hm | r rnd now uuids Hon
                 | r socket now r' out Hp | r socket now | r].
  - by eapply reach_move.
  - by apply reach_tick.
  - by eapply reach_pause.
  - by apply reach_leave.
  - by apply reach_sweep.
Qed.

Lemma reachable_by_steps (P : Room -> Prop) :
  (forall now roomId first second, P (createRoom now roomId first second).1) ->
  (forall r r', reachable r -> P r -> step r r' -> P r') ->
  forall r, reachable r -> P r.
Proof.
  intros Hcreate Hstep. induction 1 as [now roomId first second
    | r socket now uuids move r' out Hr IH Hmove | r rnd now uuids Hr IH Hon
    | r socket now r' out Hr IH Hpause | r socket now Hr IH | r Hr IH].
  - apply Hcreate.
  - eapply Hstep; [exact Hr|exact IH|by eapply step_move].
  - eapply Hstep; [exact Hr|exact IH|by apply step_tick].
  - eapply Hstep; [exact Hr|exact IH|by eapply step_pause].
  - eapply Hstep; [exact Hr|exact IH|apply step_leave].
  - eapply Hstep; [exact Hr|exact IH|apply step_sweep].
Qed.

(** ** Clock, status and winner *)

Lemma clocked_restart r :
  gameStatus (gameState r) = Active ->
  (winner (gameState r) ≠ None -> gameStatus (gameState r) = Ended) ->
  clocked (startTurnTimer r).1.
Proof.
  intros Hact Hw. split; simpl; try done.
  - by rewrite Hact.
Qed.

Lemma clocked_scored mover now uuids p :
  gameStatus (gameState p) = Active -> turnTimer p = false ->
  0 <= timeLeft (gameState p) <= TURN_TIME -> winner (gameState p) = None ->
  let scored := (scoreMove mover now uuids p).1 in
  clocked (if bool_decide (gameStatus (gameState scored) = Active)
           then (startTurnTimer scored).1 else scored).
Proof.
  intros Hact Hoff Hrange Hwin. cbv zeta.
  destruct (scoreMove_state mover now uuids p)
    as (_ & _ & _ & _ & Hst & Hw & _ & _ & _ & Ht).
  pose proof (scoreMove_clock mover now uuids p) as Hclock.
  set (scored := (scoreMove mover now uuids p).1) in *.
  destruct (bool_decide (gameStatus (gameState scored) = Active)) eqn:E.
  - apply bool_decide_eq_true in E. apply clocked_restart; [done|].
    rewrite Hw, Hst in *. destruct (_ >=? TOTAL_BOXES); [done|]. by rewrite Hwin.
  - apply bool_decide_eq_false in E.
    assert (gameStatus (gameState scored) = Ended) as Hend.
    { rewrite Hst in *. destruct (_ >=? TOTAL_BOXES); [done|]. by rewrite Hact in E. }
    split; rewrite ?Ht, ?Hoff, ?Hclock, ?Hend; done.
Qed.

Lemma reachable_clocked r : reachable r -> clocked r.
Proof.
  induction 1 as [now roomId first second
                 | r socket now uuids move r' out Hr IH Hmove
                 | r rnd now uuids Hr IH Hon
                 | r socket now r' out Hr IH Hpause
                 | r socket now Hr IH
                 | r Hr IH].
  - by split.
  - apply moveInRoom_Return in Hmove as (_ & _ & mover & _ & _ & _ & Hact & _ & ->).
    destruct IH as [_ _ Hrange _ Hw].
    apply clocked_scored; simpl; try done.
    destruct (winner (gameState r)); [|done]. by rewrite Hw in Hact.
  - destruct IH as [Ha Hp Hrange Hnw Hw]. specialize (Ha Hon). specialize (Hp Hon).
    destruct (timerTick_cases rnd now uuids r) as (Hmany & _ & Hzero). cbv zeta in *.
    destruct (decide (1 < timeLeft (gameState r))) as [Hgt|Hle].
    + rewrite (Hmany Hgt). split; simpl; try done; lia.
    + rewrite Hzero by (done || lia). clear Hmany Hzero.
      set (r1 := upd (fun g => set_timeLeft (timeLeft g - 1) g) r).
      assert (winner (gameState r) = None) as Hnone.
      { destruct (winner (gameState r)); [|done]. by rewrite Hw in Ha. }
      destruct (getAvailableMoves (gameState (clearTurnTimer r1))) eqn:E.
      * rewrite makeRandomMove_None by done. simpl.
        rewrite (bool_decide_eq_true_2 _ Ha). apply clocked_restart; [done|].
        simpl. by rewrite Hnone.
      * destruct (makeRandomMove_Some rnd now uuids (clearTurnTimer r1))
          as (picked & out & _ & ->); [by rewrite E|].
        cbn [fst snd]. apply clocked_scored; try done.
        change (0 <= timeLeft (gameState r) - 1 <= TURN_TIME). lia.
  - apply pauseInRoom_Return in Hpause as (_ & ->). cbv zeta.
    destruct IH as [Ha Hp Hrange Hnw Hw].
    set (r1 := updateActivityTime now _).
    destruct (isPaused (gameState r1)); [by split|].
    destruct (bool_decide (gameStatus (gameState r1) = Active)) eqn:E.
    + apply bool_decide_eq_true in E. by apply clocked_restart.
    + by split.
  - destruct IH as [Ha Hp Hrange Hnw Hw].
    destruct (playerLeaves_state now socket r) as (Hsame & Hend). cbv zeta in *.
    destruct (decide (gameStatus (gameState r) = Active)) as [Hact|Hna].
    + destruct (Hend Hact) as (Hst & Hoff & _ & _ & _ & _ & _ & _ & Ht & _).
      split; rewrite ?Hst, ?Hoff, ?Ht; done.
    + rewrite (Hsame Hna). by split.
  - destruct IH as [Ha Hp Hrange Hnw Hw]. by split.
Qed.

(** X4. The countdown of a session stays between 0 and [TURN_TIME]; while an
    interval is scheduled the game is Active and at least one second is
    left, so the timer never runs on a game that is over. *)
Theorem timer_runs_only_in_active_game (r : Room) :
  reachable r ->
  0 <= timeLeft (gameState r) <= TURN_TIME /\
  (turnTimer r = true ->
   gameStatus (gameState r) = Active /\ 1 <= timeLeft (gameState r)) /\
  (gameStatus (gameState r) = Ended -> turnTimer r = false).
Proof.
  intros [Ha Hp Hrange _ _]%reachable_clocked. split_and!; [lia..|auto|].
  intros Hend. destruct (turnTimer r); [|done]. by rewrite Ha in Hend.
Qed.

(** X5. A session is never back in the Waiting status, and it has a winner
    only once it has Ended. *)
Theorem winner_only_when_ended (r : Room) :
  reachable r ->
  gameStatus (gameState r) ≠ Waiting /\
  (gameStatus (gameState r) = Active -> winner (gameState r) = None).
Proof.
  intros [_ _ _ Hnw Hw]%reachable_clocked. split; [done|].
  intros Hact. destruct (winner (gameState r)); [|done]. by rewrite Hw in Hact.
Qed.

Lemma timer_runs_only_in_active_game_witness :
  reachable boxClosed /\ turnTimer boxClosed = true /\
  gameStatus (gameState boxClosed) = Active /\ 1 <= timeLeft (gameState boxClosed).
Proof.
  assert (turnTimer boxClosed = true) as Hon by (vm_compute; reflexivity).
  split; [exact reachable_boxClosed|]. split; [exact Hon|].
  exact (proj1 (proj2 (timer_runs_only_in_active_game boxClosed reachable_boxClosed)) Hon).
Defined.

Lemma winner_only_when_ended_witness :
  reachable boxClosed /\ gameStatus (gameState boxClosed) = Active /\
  winner (gameState boxClosed) = None.
Proof.
  assert (gameStatus (gameState boxClosed) = Active) as Hact by (vm_compute; reflexivity).
  split; [exact reachable_boxClosed|]. split; [exact Hact|].
  exact (proj2 (winner_only_when_ended boxClosed reachable_boxClosed) Hact).
Defined.

(** ** A finished game is frozen *)

(** X6. Once a session has Ended, no step changes its status, lines, boxes,
    scores, turn or winner: moves are refused, the timer callback plays
    nothing, and pausing or leaving touch none of these. *)
Theorem finished_game_is_frozen (r r' : Room) :
  step r r' ->
  gameStatus (gameState r) = Ended ->
  gameStatus (gameState r') = Ended /\
  lines (gameState r') = lines (gameState r) /\
  boxes (gameState r') = boxes (gameState r) /\
  scores (gameState r') = scores (gameState r) /\
  currentPlayer (gameState r') = currentPlayer (gameState r) /\
  winner (gameState r') = winner (gameState r).
Proof.
  intros Hs Hend.
  assert (gameStatus (gameState r) ≠ Active) as Hna by (by rewrite Hend).
  destruct Hs as [r socket now uuids move r' out Hm | r rnd now uuids Hon
                 | r socket now r' out Hp | r socket now | r].
  - apply moveInRoom_Return in Hm as (_ & _ & _ & _ & _ & _ & Hact & _). done.
  - destruct (timerTick_cases rnd now uuids r) as (Hmany & Hzero & _). cbv zeta in *.
    destruct (decide (1 < timeLeft (gameState r))) as [Hgt|Hle].
    + by rewrite (Hmany Hgt).
    + rewrite Hzero by (done || lia). done.
  - apply pauseInRoom_Return in Hp as (_ & ->). cbv zeta.
    set (r1 := updateActivityTime now _).
    destruct (isPaused (gameState r1)); [done|].
    by rewrite bool_decide_eq_false_2.
  - destruct (playerLeaves_state now socket r) as (Hsame & _). cbv zeta in *.
    by rewrite (Hsame Hna).
  - done.
Qed.

(** ** A session only grows *)

Lemma grows_same g g' :
  lines g' = lines g -> boxes g' = boxes g -> scores g' = scores g -> grows g g'.
Proof. unfold grows. intros -> -> ->. split_and!; (done || lia). Qed.

Lemma grows_scored g0 mover now uuids p line :
  consistent g0 ->
  lines (gameState p) = lines g0 ++ [line] ->
  boxes (gameState p) = boxes g0 ->
  scores (gameState p) = scores g0 ->
  grows g0 (gameState (scoreMove mover now uuids p).1).
Proof.
  intros [[u0 Hb] _ _ _] El Eb Es.
  destruct (scoreMove_state mover now uuids p) as (Hl & Hb' & Hs & _).
  unfold grows. rewrite Hl, Hb', Hs, El, Eb, Es, length_app, Hb, !length_checkForBoxes.
  pose proof (closedRegions_mono (lines g0) [line]) as Hmono.
  split_and!.
  - by apply prefix_app_r.
  - simpl. lia.
  - done.
  - destruct (Z.gtb_spec (Z.of_nat (length (closedRegions (lines g0 ++ [line])))
                          - Z.of_nat (length (closedRegions (lines g0)))) 0);
      [destruct mover; simpl; lia|lia].
  - destruct (Z.gtb_spec (Z.of_nat (length (closedRegions (lines g0 ++ [line])))
                          - Z.of_nat (length (closedRegions (lines g0)))) 0);
      [destruct mover; simpl; lia|lia].
Qed.

Lemma grows_restart (b : bool) g0 scored :
  grows g0 (gameState scored) ->
  grows g0 (gameState (if b then (startTurnTimer scored).1 else scored)).
Proof. by destruct b. Qed.

(** X7. Every step of a session keeps the lines drawn so far and appends at
    most one; it never removes a box and never lowers a score. *)
Theorem session_only_grows (r r' : Room) :
  reachable r -> step r r' -> grows (gameState r) (gameState r').
Proof.
  intros Hc%reachable_consistent Hs.
  destruct Hs as [r socket now uuids move r' out Hm | r rnd now uuids Hon
                 | r socket now r' out Hp | r socket now | r].
  - apply moveInRoom_Return in Hm as (_ & _ & mover & _ & _ & _ & _ & _ & ->).
    apply grows_restart. by eapply grows_scored.
  - destruct (timerTick_cases rnd now uuids r) as (Hmany & Hzero & Hplay). cbv zeta in *.
    destruct (decide (1 < timeLeft (gameState r))) as [Hgt|Hle].
    { rewrite (Hmany Hgt). by apply grows_same. }
    destruct (decide (gameStatus (gameState r) = Active)) as [Hact|Hna].
    2: { rewrite Hzero by (done || lia). by apply grows_same. }
    rewrite Hplay by (done || lia). clear Hmany Hzero Hplay.
    set (r1 := upd (fun g => set_timeLeft (timeLeft g - 1) g) r).
    apply grows_restart.
    destruct (getAvailableMoves (gameState (clearTurnTimer r1))) eqn:E.
    + rewrite makeRandomMove_None by done. by apply grows_same.
    + destruct (makeRandomMove_Some rnd now uuids (clearTurnTimer r1))
        as (picked & out & _ & ->); [by rewrite E|].
      cbn [fst snd]. by eapply grows_scored.
  - apply pauseInRoom_Return in Hp as (_ & ->). cbv zeta.
    set (r1 := updateActivityTime now _).
    destruct (isPaused (gameState r1)); [by apply grows_same|].
    destruct (bool_decide _); by apply grows_same.
  - destruct (playerLeaves_state now socket r) as (Hsame & Hend). cbv zeta in *.
    destruct (decide (gameStatus (gameState r) = Active)) as [Hact|Hna].
    + destruct (Hend Hact) as (_ & _ & _ & _ & Hl & Hb & Hsc & _). by apply grows_same.
    + rewrite (Hsame Hna). by apply grows_same.
  - by apply grows_same.
Qed.

Lemma finished_game_is_frozen_witness :
  let r := (playerLeaves 7 "socket-a" boxClosed).1 in
  step r (playerLeaves 9 "socket-b" r).1 /\
  gameStatus (gameState r) = Ended /\
  scores (gameState (playerLeaves 9 "socket-b" r).1) = scores (gameState r).
Proof.
  cbv zeta.
  assert (gameStatus (gameState (playerLeaves 7 "socket-a" boxClosed).1) = Ended) as Hend
    by (vm_compute; reflexivity).
  split; [apply step_leave|]. split; [exact Hend|].
  exact (proj1 (proj2 (proj2 (proj2
    (finished_game_is_frozen _ _ (step_leave _ "socket-b" 9) Hend))))).
Defined.

Lemma session_only_grows_witness :
  reachable threeSides /\ step threeSides boxClosed /\
  grows (gameState threeSides) (gameState boxClosed).
Proof.
  assert (reachable threeSides) as Hr.
  { repeat apply reachable_submit. apply reach_create. }
  assert (step threeSides boxClosed) as Hs.
  { eapply (step_move _ "socket-b" 1 noUuid (edge 1 0 0 0 P2)). vm_compute; reflexivity. }
  split; [exact Hr|]. split; [exact Hs|].
  exact (session_only_grows _ _ Hr Hs).
Defined.

(** ** Moves that bound no cell *)






(** ** The timer-forced move *)



(** X10. The forced move is a move the player on turn could have submitted:
    [make_move] accepts it from that player's socket and leads to the same
    lines, boxes, scores, turn, status and winner. *)
Theorem forced_move_is_a_submitted_move (r r1 : Room) (socket : string)
    (rnd : nat) (now : Z) (uuids : nat -> string) (m : Line) (out1 : list Emit) :
  onTurn socket r ->
  gameStatus (gameState r) = Active ->
  makeRandomMove rnd now uuids r = (Some m, r1, out1) ->
  exists picked r2 out2,
    picked ∈ getAvailableMoves (gameState r) /\ m = stamped now picked /\
    moveInRoom socket now uuids picked r = Return (r2, out2) /\
    lines (gameState r2) = lines (gameState r1) /\
    boxes (gameState r2) = boxes (gameState r1) /\
    scores (gameState r2) = scores (gameState r1) /\
    currentPlayer (gameState r2) = currentPlayer (gameState r1) /\
    gameStatus (gameState r2) = gameStatus (gameState r1) /\
    winner (gameState r2) = winner (gameState r1).
Proof.
  intros Hturn Hact Hforced.
  destruct (getAvailableMoves (gameState r)) eqn:E.
  { by rewrite makeRandomMove_None in Hforced. }
  destruct (makeRandomMove_Some rnd now uuids r) as (picked & out & Hin & Heq);
    [by rewrite E|].
  rewrite Heq in Hforced. injection Hforced as <- <- _. rewrite <- E. clear E Heq.
  pose proof (getAvailableMoves_free _ _ Hin) as Hfree.
  destruct (moveInRoom_accepts socket now uuids picked r Hturn Hact Hfree)
    as (r2 & out2 & Hm).
  exists picked, r2, out2. split; [done|]. split; [done|]. split; [done|].
  destruct Hturn as (i & player & Hfind & Hnum).
  apply moveInRoom_Return in Hm
    as (i' & player' & mover & Hfind' & Hnum' & _ & _ & _ & ->).
  rewrite Hfind in Hfind'. injection Hfind' as <- <-.
  rewrite Hnum in Hnum'. injection Hnum' as <-.
  cbv zeta.
  match goal with |- context [if ?b then (startTurnTimer ?s).1 else ?s] =>
    destruct (restart_keeps_game b s) as (-> & -> & -> & -> & -> & ->) end.
  destruct (scoreMove_state (currentPlayer (gameState r)) now uuids
              (updateActivityTime now
                 (upd (fun g => set_lines (lines g ++ [stamped now picked]) g)
                      (clearTurnTimer r))))
    as (L2 & B2 & S2 & C2 & G2 & W2 & _).
  destruct (scoreMove_state (currentPlayer (gameState r)) now uuids
              (updateActivityTime now
                 (upd (fun g => set_lines (lines g ++ [stamped now picked]) g) r)))
    as (L1 & B1 & S1 & C1 & G1 & W1 & _).
  split_and!.
  - by rewrite L2, L1.
  - by rewrite B2, B1.
  - by rewrite S2, S1.
  - by rewrite C2, C1.
  - by rewrite G2, G1.
  - by rewrite W2, W1, S2, S1.
Qed.

Lemma reachable_ticks n r : reachable r -> reachable (ticks n r).
Proof.
  intros Hr. induction n as [|n IH]; cbn [ticks]; [done|]. cbv zeta.
  destruct (turnTimer (ticks n r)) eqn:Hon; [|done]. by apply reach_tick.
Qed.


Lemma forced_move_is_a_submitted_move_witness :
  onTurn "socket-a" freshRoom /\ gameStatus (gameState freshRoom) = Active /\
  exists picked r2 out2,
    moveInRoom "socket-a" 1 noUuid picked freshRoom = Return (r2, out2) /\
    lines (gameState r2) = lines (gameState (autoPlay 1 freshRoom)).
Proof.
  assert (onTurn "socket-a" freshRoom) as Hturn.
  { exists 0%nat, (set_playerNumber (Some P1) alice). split; vm_compute; reflexivity. }
  assert (gameStatus (gameState freshRoom) = Active) as Hact by reflexivity.
  split; [exact Hturn|]. split; [exact Hact|].
  destruct (makeRandomMove 0 1 noUuid freshRoom) as [[[m|] r1] out1] eqn:Hforced.
  - destruct (forced_move_is_a_submitted_move _ _ _ _ _ _ _ _ Hturn Hact Hforced)
      as (picked & r2 & out2 & _ & _ & Hm & Hl & _).
    exists picked, r2, out2. split; [exact Hm|].
    cbn [autoPlay]. rewrite Hforced. exact Hl.
  - vm_compute in Hforced. discriminate Hforced.
Defined.

(** ** A game played to the end has a winner *)

Lemma reachable_settled r :
  reachable r ->
  Z.of_nat (length (closedRegions (lines (gameState r)))) = TOTAL_BOXES ->
  gameStatus (gameState r) = Ended /\
  winner (gameState r) = decideWinner (scores (gameState r)).
Proof.
  intros Hr. pattern r. revert r Hr. apply reachable_by_steps.
  { intros now roomId first second Hfull. vm_compute in Hfull. discriminate Hfull. }
  intros r r' Hr IH Hs Hfull.
  assert (gameStatus (gameState r) = Active ->
          Z.of_nat (length (closedRegions (lines (gameState r)))) < TOTAL_BOXES) as Hopen.
  { destruct (reachable_consistent r Hr) as [[u0 Hb] _ Hopen _].
    intros Hact. specialize (Hopen Hact). by rewrite Hb, length_checkForBoxes in Hopen. }
  destruct Hs as [r socket now uuids move r' out Hm | r rnd now uuids Hon
                 | r socket now r' out Hp | r socket now | r].
  - apply moveInRoom_Return in Hm as (_ & _ & mover & _ & _ & _ & _ & _ & ->).
    cbv zeta in *.
    match goal with |- context [if ?b then (startTurnTimer ?s).1 else ?s] =>
      destruct (restart_keeps_game b s) as (Hl & _ & Hsc & _ & Hst & Hw) end.
    cbv zeta in *. rewrite Hl in Hfull. rewrite Hst, Hw, Hsc.
    apply (scored_full _ _ _ _ uuids). by rewrite length_checkForBoxes.
  - destruct (timerTick_cases rnd now uuids r) as (Hmany & Hzero & Hplay). cbv zeta in *.
    destruct (reachable_clocked r Hr) as [Ha _ _ _ _]. specialize (Ha Hon).
    specialize (Hopen Ha).
    destruct (decide (1 < timeLeft (gameState r))) as [Hgt|Hle].
    { rewrite (Hmany Hgt) in Hfull. cbn [fst] in Hfull.
      change (lines (gameState (upd _ r))) with (lines (gameState r)) in Hfull. lia. }
    rewrite Hplay in * by (done || lia). clear Hmany Hzero Hplay.
    set (r1 := upd (fun g => set_timeLeft (timeLeft g - 1) g) r) in *.
    match goal with |- context [if ?b then (startTurnTimer ?s).1 else ?s] =>
      destruct (restart_keeps_game b s) as (Hl & _ & Hsc & _ & Hst & Hw) end.
    cbv zeta in *. rewrite Hl in Hfull. rewrite Hst, Hw, Hsc. clear Hl Hsc Hst Hw.
    destruct (getAvailableMoves (gameState (clearTurnTimer r1))) eqn:E.
    + rewrite makeRandomMove_None in Hfull by done. cbn [fst snd] in Hfull.
      change (lines (gameState (clearTurnTimer r1))) with (lines (gameState r)) in Hfull.
      lia.
    + destruct (makeRandomMove_Some rnd now uuids (clearTurnTimer r1))
        as (picked & out & _ & Heq); [by rewrite E|].
      cbv zeta in Heq. rewrite Heq in *. cbn [fst snd] in *.
      apply (scored_full _ _ _ _ uuids). by rewrite length_checkForBoxes.
  - apply pauseInRoom_Return in Hp as (_ & ->). cbv zeta in *.
    set (r1 := updateActivityTime now _) in *.
    assert (gameState r1 = set_isPaused (negb (isPaused (gameState r))) (gameState r))
      as Hg by done.
    destruct (isPaused (gameState r1)).
    + change (gameState (clearTurnTimer r1)) with (gameState r1) in *.
      rewrite Hg in *. by apply IH.
    + destruct (bool_decide (gameStatus (gameState r1) = Active)) eqn:Hrun.
      * apply bool_decide_eq_true in Hrun. rewrite Hg in Hrun.
        specialize (Hopen Hrun).
        change (lines (gameState (startTurnTimer r1).1)) with (lines (gameState r)) in Hfull.
        lia.
      * rewrite Hg in *. by apply IH.
  - destruct (playerLeaves_state now socket r) as (Hsame & Hend). cbv zeta in *.
    destruct (decide (gameStatus (gameState r) = Active)) as [Hact|Hna].
    + destruct (Hend Hact) as (_ & _ & _ & _ & Hl & _). rewrite Hl in Hfull.
      specialize (Hopen Hact). lia.
    + rewrite (Hsame Hna) in *. by apply IH.
  - by apply IH.
Qed.

(** X11. A session whose grid is full has Ended, and the two scores add up to
    [TOTAL_BOXES] = 25, an odd number, so they differ: a game played to
    the end has a winner and is never a draw. *)
Theorem full_grid_has_a_winner (r : Room) (uuids : nat -> string) :
  reachable r ->
  Z.of_nat (length (checkForBoxes uuids (lines (gameState r)))) = TOTAL_BOXES ->
  gameStatus (gameState r) = Ended /\
  player1 (scores (gameState r)) + player2 (scores (gameState r)) = TOTAL_BOXES /\
  (winner (gameState r) = Some P1 \/ winner (gameState r) = Some P2).
Proof.
  intros Hr Hfull. rewrite length_checkForBoxes in Hfull.
  destruct (reachable_settled r Hr Hfull) as [Hend Hw].
  destruct (reachable_consistent r Hr) as [[u0 Hb] Hs _ _].
  rewrite Hb, length_checkForBoxes, Hfull in Hs.
  split; [exact Hend|]. split; [exact Hs|].
  rewrite Hw. unfold decideWinner.
  destruct (Z.gtb_spec (player1 (scores (gameState r))) (player2 (scores (gameState r))));
    [by left|].
  destruct (Z.gtb_spec (player2 (scores (gameState r))) (player1 (scores (gameState r))));
    [by right|].
  unfold TOTAL_BOXES, GRID_SIZE in Hs. lia.
Qed.

Lemma full_grid_has_a_winner_witness :
  let r := submit "socket-b" (edge 5 4 5 5 P2) (ticks 1770 freshRoom) in
  reachable r /\
  Z.of_nat (length (checkForBoxes noUuid (lines (gameState r)))) = TOTAL_BOXES /\
  winner (gameState r) = Some P2.
Proof.
  cbv zeta.
  assert (reachable (ticks 1770 freshRoom)) as Hr0
    by apply reachable_ticks, reach_create.
  assert (moveInRoom "socket-b" 1 noUuid (edge 5 4 5 5 P2) (ticks 1770 freshRoom)
          = Return (submit "socket-b" (edge 5 4 5 5 P2) (ticks 1770 freshRoom),
                    match moveInRoom "socket-b" 1 noUuid (edge 5 4 5 5 P2)
                            (ticks 1770 freshRoom) with
                    | Return (_, out) => out
                    | Throw _ => []
                    end)) as Hmove by (vm_compute; reflexivity).
  assert (Z.of_nat (length (checkForBoxes noUuid (lines (gameState
            (submit "socket-b" (edge 5 4 5 5 P2) (ticks 1770 freshRoom))))))
          = TOTAL_BOXES) as Hfull by (vm_compute; reflexivity).
  assert (winner (gameState (submit "socket-b" (edge 5 4 5 5 P2) (ticks 1770 freshRoom)))
          ≠ Some P1) as Hnot by (vm_compute; discriminate).
  set (r0 := ticks 1770 freshRoom) in *.
  set (r := submit "socket-b" (edge 5 4 5 5 P2) r0) in *.
  set (out := match moveInRoom "socket-b" 1 noUuid (edge 5 4 5 5 P2) r0 with
              | Return (_, out) => out
              | Throw _ => []
              end) in *.
  clearbody out r r0.
  pose proof (reach_move r0 "socket-b" 1 noUuid (edge 5 4 5 5 P2) r out Hr0 Hmove) as Hr.
  split; [exact Hr|]. split; [exact Hfull|].
  destruct (full_grid_has_a_winner r noUuid Hr Hfull) as (_ & _ & [Hw|Hw]).
  - by destruct Hnot.
  - exact Hw.
Defined.

(** ** Leaving a session *)

Lemma jm_delete_absent {V} (k : string) (m : list (string * V)) :
  jm_get k m = None -> jm_delete k m = m.
Proof.
  unfold jm_delete. induction m as [|[k0 v0] m IH]; simpl; [done|].
  destruct (decide (k0 = k)) as [->|Hne]; [done|]. intros Hm.
  rewrite filter_cons_True by done. by rewrite IH.
Qed.

Lemma endGame_single_player now r q :
  jm_values (players r) = [q] -> endGame now r = [].
Proof.
  intros Hq. unfold endGame, saveGame, updatePlayerStats, getPlayerByNumber.
  rewrite Hq. destruct (bool_decide (gameStatus (gameState r) ≠ Ended)); simpl.
  all: destruct (playerNumber q) as [[|]|]; simpl;
    repeat (rewrite ?decide_True, ?decide_False by (done || congruence); simpl);
    try done.
  all: by destruct (userId q).
Qed.

Lemma playerLeaves_active now socket r :
  gameStatus (gameState r) = Active ->
  let ended := upd (set_gameStatus Ended) (removePlayer now socket r) in
  let r' :=
    clearTurnTimer
      match jm_values (jm_delete socket (players r)) with
      | [remainingPlayer] =>
          match playerNumber remainingPlayer with
          | Some n => upd (set_winner (Some n)) ended
          | None => ended
          end
      | _ => ended
      end in
  playerLeaves now socket r =
    (r', endGame now r' ++
         match jm_get socket (players r) with
         | Some p => [player_left (id r') (username p) (gameState r')]
         | None => []
         end).
Proof.
  intros Hact. cbv zeta. unfold playerLeaves. cbv zeta.
  change (gameStatus (gameState (removePlayer now socket r)))
    with (gameStatus (gameState r)).
  by rewrite (bool_decide_eq_true_2 _ Hact).
Qed.

(** X12. When a player of an active session leaves and exactly one player is
    left, the session ends at once with that player as the winner and the
    timer cleared; the room tells the others who left, and nothing is
    handed to the record store, since [saveGame] and [updatePlayerStats]
    both want the two seats filled. *)
Theorem leaving_player_loses (r : Room) (now : Z) (socket : string)
    (leaver remaining : Player) (n : PlayerNumber) :
  gameStatus (gameState r) = Active ->
  jm_get socket (players r) = Some leaver ->
  jm_values (jm_delete socket (players r)) = [remaining] ->
  playerNumber remaining = Some n ->
  let r' := (playerLeaves now socket r).1 in
  gameStatus (gameState r') = Ended /\
  winner (gameState r') = Some n /\
  turnTimer r' = false /\
  jm_values (players r') = [remaining] /\
  scores (gameState r') = scores (gameState r) /\
  (playerLeaves now socket r).2 = [player_left (id r) (username leaver) (gameState r')].
Proof.
  intros Hact Hleaver Hrem Hnum. cbv zeta.
  rewrite (playerLeaves_active now socket r Hact). cbv zeta.
  rewrite Hrem, Hnum, Hleaver. cbn [fst snd].
  split_and!; try done.
  erewrite endGame_single_player; [done|]. exact Hrem.
Qed.

Lemma leaving_player_loses_witness :
  gameStatus (gameState boxClosed) = Active /\
  jm_get "socket-a" (players boxClosed) = Some (set_playerNumber (Some P1) alice) /\
  jm_values (jm_delete "socket-a" (players boxClosed)) = [set_playerNumber (Some P2) bob] /\
  winner (gameState (playerLeaves 7 "socket-a" boxClosed).1) = Some P2.
Proof.
  assert (gameStatus (gameState boxClosed) = Active) as Hact by (vm_compute; reflexivity).
  assert (jm_get "socket-a" (players boxClosed) = Some (set_playerNumber (Some P1) alice))
    as Hl by (vm_compute; reflexivity).
  assert (jm_values (jm_delete "socket-a" (players boxClosed))
          = [set_playerNumber (Some P2) bob]) as Hrem by (vm_compute; reflexivity).
  split; [exact Hact|]. split; [exact Hl|]. split; [exact Hrem|].
  exact (proj1 (proj2 (leaving_player_loses boxClosed 7 "socket-a" _ _ P2
                         Hact Hl Hrem eq_refl))).
Defined.

(** X13. [leave_room] does not ask whether the sender is in the room. A socket
    that is not one of the two players of an active session and names its
    room ends that game: the status becomes Ended with the winner left as
    it was, both players stay in the room, no [player_left] is sent and the
    sender gets a success acknowledgement. *)
Theorem outsider_can_end_game (srv : Server) (socket : string) (now : Z)
    (roomId : string) (room : Room) :
  jm_get roomId (gameRooms srv) = Some room ->
  jm_get socket (players room) = None ->
  gameStatus (gameState room) = Active ->
  length (players room) = 2%nat ->
  exists room',
    roomAfter roomId (leave_room socket now roomId srv) = Some room' /\
    gameStatus (gameState room') = Ended /\
    winner (gameState room') = winner (gameState room) /\
    players room' = players room /\
    turnTimer room' = false /\
    last (leave_room socket now roomId srv).2 = Some (callback true None) /\
    Forall (fun e => forall k who g, e ≠ player_left k who g)
           (leave_room socket now roomId srv).2.
Proof.
  intros Hroom Hout Hact Hlen.
  unfold leave_room, handlePlayerLeaving. rewrite Hroom.
  rewrite (playerLeaves_active now socket room Hact). cbv zeta.
  rewrite Hout, (jm_delete_absent _ _ Hout).
  destruct (players room) as [|a [|b [|c rest]]] eqn:Hpl; try done.
  cbn [jm_values fmap list_fmap]. simpl isEmpty.
  set (room' := clearTurnTimer (upd (set_gameStatus Ended) (removePlayer now socket room))).
  assert (isEmpty room' = false) as ->.
  { unfold isEmpty, room'. simpl. rewrite Hpl, (jm_delete_absent _ _ Hout). done. }
  exists room'. unfold roomAfter. cbn [fst snd gameRooms].
  rewrite jm_get_set, decide_True by done.
  split_and!; try done.
  - unfold room'. simpl. by rewrite Hpl, (jm_delete_absent _ _ Hout).
  - by rewrite app_nil_r, last_app.
  - rewrite app_nil_r. apply Forall_app. split; [|by repeat constructor].
    unfold endGame, saveGame, updatePlayerStats.
    apply Forall_app. split; repeat case_match; by repeat constructor.
Qed.

Lemma outsider_can_end_game_witness :
  jm_get "room-1" (gameRooms freshServer) = Some freshRoom /\
  jm_get "socket-x" (players freshRoom) = None /\
  exists room',
    roomAfter "room-1" (leave_room "socket-x" 3 "room-1" freshServer) = Some room' /\
    gameStatus (gameState room') = Ended.
Proof.
  assert (jm_get "room-1" (gameRooms freshServer) = Some freshRoom) as Hroom
    by reflexivity.
  assert (jm_get "socket-x" (players freshRoom) = None) as Hout
    by (vm_compute; reflexivity).
  split; [exact Hroom|]. split; [exact Hout|].
  destruct (outsider_can_end_game freshServer "socket-x" 3 "room-1" freshRoom
              Hroom Hout eq_refl eq_refl) as (room' & Hafter & Hend & _).
  exists room'. split; [exact Hafter|exact Hend].
Defined.

(** ** Pausing and resuming *)

(** X14. A member who pauses a running game stops the timer and keeps the
    seconds that were left on display; when a member resumes, the game
    state is the one before the pause except that the countdown starts
    again from the full [TURN_TIME]. *)
Theorem pause_then_resume (r : Room) (socket socket' : string) (now now' : Z) :
  jm_has socket (players r) = true ->
  jm_has socket' (players r) = true ->
  gameStatus (gameState r) = Active ->
  isPaused (gameState r) = false ->
  exists r1 out1 r2 out2,
    pauseInRoom socket now r = Return (r1, out1) /\
    pauseInRoom socket' now' r1 = Return (r2, out2) /\
    isPaused (gameState r1) = true /\ turnTimer r1 = false /\
    timeLeft (gameState r1) = timeLeft (gameState r) /\
    gameState r2 = set_timeLeft TURN_TIME (gameState r) /\
    turnTimer r2 = true /\ players r2 = players r.
Proof.
  intros Hin Hin' Hact Hrun.
  destruct r as [rid ps [ls bs cp sc wr st wn pz tl se nm] tt la gs]. simpl in *.
  subst st pz. eexists _, _, _, _. split.
  { unfold pauseInRoom. simpl. rewrite Hin. simpl. reflexivity. }
  split.
  { unfold pauseInRoom. simpl. rewrite Hin'. simpl. reflexivity. }
  split_and!; reflexivity.
Qed.

Lemma pause_then_resume_witness :
  jm_has "socket-a" (players boxClosed) = true /\
  jm_has "socket-b" (players boxClosed) = true /\
  gameStatus (gameState boxClosed) = Active /\
  isPaused (gameState boxClosed) = false /\
  exists r1 out1 r2 out2,
    pauseInRoom "socket-a" 4 boxClosed = Return (r1, out1) /\
    pauseInRoom "socket-b" 5 r1 = Return (r2, out2) /\
    gameState r2 = set_timeLeft TURN_TIME (gameState boxClosed).
Proof.
  assert (jm_has "socket-a" (players boxClosed) = true) as Ha by (vm_compute; reflexivity).
  assert (jm_has "socket-b" (players boxClosed) = true) as Hb by (vm_compute; reflexivity).
  assert (gameStatus (gameState boxClosed) = Active) as Hact by (vm_compute; reflexivity).
  assert (isPaused (gameState boxClosed) = false) as Hrun by (vm_compute; reflexivity).
  split; [exact Ha|]. split; [exact Hb|]. split; [exact Hact|]. split; [exact Hrun|].
  destruct (pause_then_resume boxClosed "socket-a" "socket-b" 4 5 Ha Hb Hact Hrun)
    as (r1 & out1 & r2 & out2 & H1 & H2 & _ & _ & _ & Hg & _).
  exists r1, out1, r2, out2. split; [exact H1|]. split; [exact H2|exact Hg].
Defined.

(** ** The players of a session *)

Lemma scored_players (b : bool) mover now uuids p :
  let scored := (scoreMove mover now uuids p).1 in
  players (if b then (startTurnTimer scored).1 else scored) = players p /\
  id (if b then (startTurnTimer scored).1 else scored) = id p.
Proof.
  destruct (scoreMove_state mover now uuids p) as (_ & _ & _ & _ & _ & _ & _ & Hid & Hpl & _).
  cbv zeta. by destruct b.
Qed.

Lemma step_players r r' :
  step r r' -> players r' `sublist_of` players r /\ id r' = id r.
Proof.
  intros Hs.
  destruct Hs as [r socket now uuids move r' out Hm | r rnd now uuids Hon
                 | r socket now r' out Hp | r socket now | r].
  - apply moveInRoom_Return in Hm as (_ & _ & mover & _ & _ & _ & _ & _ & ->).
    cbv zeta.
    match goal with |- context [if ?b then (startTurnTimer (scoreMove ?m now uuids ?p).1).1 else _] =>
      destruct (scored_players b m now uuids p) as [-> ->] end.
    done.
  - destruct (timerTick_cases rnd now uuids r) as (Hmany & Hzero & Hplay). cbv zeta in *.
    destruct (decide (1 < timeLeft (gameState r))) as [Hgt|Hle].
    { by rewrite (Hmany Hgt). }
    destruct (decide (gameStatus (gameState r) = Active)) as [Hact|Hna].
    2: { by rewrite Hzero by (done || lia). }
    rewrite Hplay by (done || lia). clear Hmany Hzero Hplay.
    set (r1 := upd (fun g => set_timeLeft (timeLeft g - 1) g) r).
    destruct (getAvailableMoves (gameState (clearTurnTimer r1))) eqn:E.
    + rewrite makeRandomMove_None by done. cbn [fst snd]. by destruct (bool_decide _).
    + destruct (makeRandomMove_Some rnd now uuids (clearTurnTimer r1))
        as (picked & out & _ & ->); [by rewrite E|].
      cbn [fst snd].
      match goal with |- context [if ?b then (startTurnTimer (scoreMove ?m now uuids ?p).1).1 else _] =>
        destruct (scored_players b m now uuids p) as [-> ->] end.
      done.
  - apply pauseInRoom_Return in Hp as (_ & ->). cbv zeta.
    set (r1 := updateActivityTime now _).
    destruct (isPaused (gameState r1)); [done|]. by destruct (bool_decide _).
  - destruct (playerLeaves_state now socket r) as (Hsame & Hend). cbv zeta in *.
    destruct (decide (gameStatus (gameState r) = Active)) as [Hact|Hna].
    + destruct (Hend Hact) as (_ & _ & -> & -> & _). split; [|done].
      apply sublist_filter.
    + rewrite (Hsame Hna). split; [|done]. apply sublist_filter.
  - done.
Qed.

(** X15. No step adds a player to a session or moves it to another id: the
    players after a step are among those before, in the same order. *)
Theorem nobody_joins_a_session (r r' : Room) :
  step r r' -> players r' `sublist_of` players r /\ id r' = id r.
Proof. apply step_players. Qed.

Lemma nobody_joins_a_session_witness :
  step boxClosed (playerLeaves 7 "socket-a" boxClosed).1 /\
  players (playerLeaves 7 "socket-a" boxClosed).1 `sublist_of` players boxClosed.
Proof.
  split; [apply step_leave|].
  exact (proj1 (nobody_joins_a_session _ _ (step_leave boxClosed "socket-a" 7))).
Defined.

Lemma reachable_seats r :
  reachable r ->
  (length (players r) <= 2)%nat /\
  NoDup (playerNumber <$> jm_values (players r)) /\
  Forall (fun kp => socketId kp.2 = kp.1 /\ is_Some (playerNumber kp.2)) (players r).
Proof.
  revert r. apply reachable_by_steps.
  - intros now roomId first second. simpl.
    destruct (decide (socketId first = socketId second)); simpl.
    + split_and!; [lia| |by repeat constructor].
      apply NoDup_singleton.
    + split_and!; [lia| |by repeat constructor].
      apply NoDup_cons. split; [|apply NoDup_singleton].
      by intros [=]%list_elem_of_singleton.
  - intros r r' _ (Hlen & Hnd & Hall) [Hsub _]%step_players.
    split_and!.
    + apply sublist_length in Hsub. lia.
    + eapply sublist_NoDup; [exact Hnd|]. unfold jm_values. by do 2 apply fmap_sublist.
    + rewrite Forall_forall in *. intros kp Hkp. apply Hall.
      by eapply elem_of_sublist.
Qed.

(** X16. A session has at most two players, each holding a seat of its own, so
    at most one socket is bound to the player whose turn it is. *)
Theorem one_socket_per_seat (r : Room) (socket socket' : string) :
  reachable r ->
  (length (players r) <= 2)%nat /\
  (onTurn socket r -> onTurn socket' r -> socket = socket').
Proof.
  intros (Hlen & Hnd & _)%reachable_seats. split; [done|].
  intros (i & p & Hf & Hn) (i' & p' & Hf' & Hn').
  apply list_find_Some in Hf as (Hi & Hs & _), Hf' as (Hi' & Hs' & _).
  assert (i = i') as <-.
  { eapply NoDup_lookup; [exact Hnd|..]; rewrite list_lookup_fmap.
    - by rewrite Hi; simpl; rewrite Hn.
    - by rewrite Hi'; simpl; rewrite Hn'. }
  rewrite Hi in Hi'. injection Hi' as <-. by rewrite <- Hs, <- Hs'.
Qed.

Lemma one_socket_per_seat_witness :
  reachable boxClosed /\ (length (players boxClosed) <= 2)%nat.
Proof.
  split; [exact reachable_boxClosed|].
  exact (proj1 (one_socket_per_seat boxClosed "socket-a" "socket-b" reachable_boxClosed)).
Defined.

(** ** The registry and the queue *)

Lemma jm_get_In {V} (k : string) (v : V) (m : list (string * V)) :
  jm_get k m = Some v -> (k, v) ∈ m.
Proof.
  induction m as [|[k0 v0] m IH]; simpl; [done|].
  destruct (decide (k0 = k)) as [->|Hne].
  - intros [= ->]. by left.
  - intros Hm. right. by apply IH.
Qed.

Lemma jm_set_keys {V} (k : string) (v : V) (m : list (string * V)) :
  NoDup m.*1 -> NoDup (jm_set k v m).*1.
Proof.
  assert ((jm_set k v m).*1 = if decide (k ∈ m.*1) then m.*1 else m.*1 ++ [k]) as ->.
  { induction m as [|[k0 v0] m IH]; [done|]. cbn [jm_set].
    destruct (decide (k0 = k)) as [->|Hne]; rewrite !fmap_cons; cbn [fst].
    - rewrite decide_True; [done|]. by left.
    - rewrite IH. destruct (decide (k ∈ m.*1)) as [Hin|Hout].
      + rewrite decide_True; [done|]. by right.
      + rewrite decide_False; [done|].
        intros [?|?]%elem_of_cons; congruence. }
  intros Hnd. destruct (decide (k ∈ m.*1)); [done|].
  apply NoDup_app. split_and!; [done| |apply NoDup_singleton].
  by intros x Hx ->%list_elem_of_singleton.
Qed.

Lemma jm_set_Forall {V} (P : string * V -> Prop) k v (m : list (string * V)) :
  Forall P m -> P (k, v) -> Forall P (jm_set k v m).
Proof.
  intros Hall Hkv. induction Hall as [|[k0 v0] m H0 Hm IH]; simpl.
  - by constructor.
  - destruct (decide (k0 = k)); by constructor.
Qed.

Lemma orderly_set srv k room queue :
  orderly srv -> id room = k -> (length queue <= 1)%nat ->
  orderly (mkServer (jm_set k room (gameRooms srv)) queue).
Proof.
  intros [Hq Hnd Hid] Hk Hlen. split; simpl.
  - done.
  - by apply jm_set_keys.
  - by apply jm_set_Forall.
Qed.

Lemma orderly_delete srv k queue :
  orderly srv -> (length queue <= 1)%nat ->
  orderly (mkServer (jm_delete k (gameRooms srv)) queue).
Proof.
  intros [Hq Hnd Hid] Hlen. split; simpl.
  - done.
  - eapply sublist_NoDup; [exact Hnd|]. apply fmap_sublist, sublist_filter.
  - rewrite Forall_forall in *. intros kr Hkr. apply Hid.
    eapply elem_of_sublist; [exact Hkr|apply sublist_filter].
Qed.

Lemma orderly_room srv k room :
  orderly srv -> jm_get k (gameRooms srv) = Some room -> id room = k.
Proof.
  intros [_ _ Hid] Hget%jm_get_In. rewrite Forall_forall in Hid.
  by apply (Hid (k, room)).
Qed.

Lemma orderly_leaving now socket roomId srv :
  orderly srv -> orderly (handlePlayerLeaving now socket roomId srv).1.2.
Proof.
  intros Hord. unfold handlePlayerLeaving.
  destruct (jm_get roomId (gameRooms srv)) as [room|] eqn:E; [|done].
  pose proof (orderly_room _ _ _ Hord E) as Hid.
  destruct (step_players _ _ (step_leave room socket now)) as [_ Hid'].
  destruct (playerLeaves now socket room) as [room' out]. simpl in *.
  destruct (isEmpty room').
  - apply orderly_delete; [done|]. by destruct Hord.
  - apply orderly_set; [done|congruence|]. by destruct Hord.
Qed.

Lemma length_dequeue socket queue : (length (dequeue socket queue) <= length queue)%nat.
Proof.
  induction queue as [|p queue IH]; simpl; [done|].
  destruct (decide (socketId p = socket)); simpl; lia.
Qed.

Lemma orderly_serve now uuids req srv : orderly srv -> orderly (serve now uuids req srv).1.
Proof.
  intros Hord. pose proof Hord as [Hq Hnd Hid].
  destruct req as [socket username phone db | socket roomId move
    | socket roomId | socket roomId | socket | roomId rnd | ]; simpl.
  - (* join_queue *)
    unfold join_queue. destruct (bool_decide _); [done|].
    cbv zeta. destruct (if bool_decide _ then _ else _) as [user|m]; [|done].
    destruct (matchmakingQueue srv) as [|w [|w' rest]]; simpl in Hq; [| |lia].
    + cbn [app]. split; simpl; [lia|done|done].
    + assert (forall p, id (createRoom now (uuids 0%nat) w p).1 = uuids 0%nat) as Hcid
        by done.
      cbn [app]. unfold createAndJoinRoom.
      match goal with |- context [createRoom ?a ?b ?c ?d] =>
        specialize (Hcid d); destruct (createRoom a b c d) as [room out] end.
      apply (orderly_set (mkServer (gameRooms srv) []) (uuids 0%nat) room []).
      * split; simpl; [lia|done|done].
      * exact Hcid.
      * simpl. lia.
  - (* make_move *)
    unfold make_move. destruct (jm_get roomId (gameRooms srv)) as [room|] eqn:E; [|done].
    destruct (moveInRoom socket now uuids move room) as [[room' out]|m] eqn:Hmove; [|done].
    apply orderly_set; [done| |done].
    destruct (step_players _ _ (step_move _ _ _ _ _ _ _ Hmove)) as [_ ->].
    by eapply orderly_room.
  - (* pause_game *)
    unfold pause_game. destruct (jm_get roomId (gameRooms srv)) as [room|] eqn:E; [|done].
    destruct (pauseInRoom socket now room) as [[room' out]|m] eqn:Hpause; [|done].
    apply orderly_set; [done| |done].
    destruct (step_players _ _ (step_pause _ _ _ _ _ Hpause)) as [_ ->].
    by eapply orderly_room.
  - (* leave_room *)
    unfold leave_room.
    pose proof (orderly_leaving now socket roomId srv Hord) as Hleft.
    destruct (handlePlayerLeaving now socket roomId srv) as [[ok srv'] out].
    by destruct ok.
  - (* disconnect *)
    unfold disconnect.
    apply (fold_left_invariant (fun acc => orderly acc.1)).
    + split; simpl; [|done..]. pose proof (length_dequeue socket (matchmakingQueue srv)). lia.
    + intros acc entry Hacc. destruct (jm_has _ _); [|done].
      pose proof (orderly_leaving now socket entry.1 acc.1 Hacc) as Hleft.
      by destruct (handlePlayerLeaving now socket entry.1 acc.1) as [[ok srv'] out].
  - (* the interval fires *)
    unfold timerFires. destruct (jm_get roomId (gameRooms srv)) as [room|] eqn:E; [|done].
    destruct (turnTimer room) eqn:Hon; [|done].
    destruct (step_players _ _ (step_tick room rnd now uuids Hon)) as [_ Hid'].
    destruct (timerTick rnd now uuids room) as [room' out]. simpl in *.
    apply orderly_set; [done| |done]. rewrite Hid'. by eapply orderly_room.
  - (* sweep *)
    unfold sweep.
    apply (fold_left_invariant (fun acc => orderly acc.1)); [done|].
    intros acc entry Hacc. destruct (_ || _); [|done].
    apply orderly_delete; [done|]. by destruct Hacc.
Qed.

Lemma served_orderly srv : served srv -> orderly srv.
Proof.
  intros Hs. induction Hs as [|srv now uuids req _ IH].
  - split; simpl; [lia|apply NoDup_nil_2|done].
  - by apply orderly_serve.
Qed.

(** X17. Whatever requests a server has served, at most one player is waiting
    in the queue (a second one is paired at once), and every room is
    registered once, under its own id. *)
Theorem server_stays_orderly (srv : Server) :
  served srv ->
  (length (matchmakingQueue srv) <= 1)%nat /\
  NoDup (gameRooms srv).*1 /\
  (forall roomId room, jm_get roomId (gameRooms srv) = Some room -> id room = roomId).
Proof.
  intros [Hq Hnd Hid]%served_orderly. split_and!; [done..|].
  intros roomId room Hget. by eapply orderly_room.
Qed.

Lemma served_pairedServer : served pairedServer.
Proof. unfold pairedServer. do 2 apply served_next. apply served_start. Qed.

Lemma server_stays_orderly_witness :
  served pairedServer /\ (length (matchmakingQueue pairedServer) <= 1)%nat.
Proof.
  split; [exact served_pairedServer|].
  exact (proj1 (server_stays_orderly pairedServer served_pairedServer)).
Defined.

(** X18. The second player to join is paired with the one who waits: the queue
    is emptied and a room is registered under a fresh id, Active, with an
    empty board, player 1 to move and a full countdown running; the player
    who waited is player 1 and the one who just joined is player 2. *)
Theorem second_join_starts_game (srv : Server) (socket : string) (now : Z)
    (uuids : nat -> string) (name : string) (tel : option string)
    (uid : string) (rf : option string) (waiting : Player) :
  matchmakingQueue srv = [waiting] ->
  socketId waiting ≠ socket ->
  let result := join_queue socket now uuids name tel (DbUser uid rf) srv in
  matchmakingQueue result.1 = [] /\
  exists room joiner,
    roomAfter (uuids 0%nat) result = Some room /\
    id room = uuids 0%nat /\
    gameStatus (gameState room) = Active /\
    lines (gameState room) = [] /\
    scores (gameState room) = mkScores 0 0 /\
    currentPlayer (gameState room) = P1 /\
    turnTimer room = true /\ timeLeft (gameState room) = TURN_TIME /\
    players room = [(socketId waiting, set_playerNumber (Some P1) waiting);
                    (socket, set_playerNumber (Some P2) joiner)] /\
    username joiner = name /\ socketId joiner = socket /\
    playerNames (gameState room) = (username waiting, name).
Proof.
  intros Hq Hne. cbv zeta. unfold join_queue. rewrite Hq.
  rewrite bool_decide_eq_false_2.
  2: { intros [?|?%Exists_nil]%Exists_cons; done. }
  cbv zeta.
  set (user := if bool_decide (default "" tel ≠ "") then _ else _).
  assert (exists u, user = Return u) as [u ->].
  { unfold user. destruct (bool_decide _); by eexists. }
  cbn [app]. unfold createAndJoinRoom, roomAfter.
  set (joiner := mkPlayer name socket None (fst <$> u) tel (u ≫= snd)).
  destruct (createRoom now (uuids 0%nat) waiting joiner) as [room out] eqn:Hc.
  cbn [fst snd gameRooms matchmakingQueue].
  split; [done|]. exists room, joiner.
  rewrite jm_get_set, decide_True by done.
  apply (f_equal fst) in Hc. cbn [fst] in Hc. subst room.
  split_and!; try done.
  simpl. by rewrite decide_False.
Qed.

Lemma second_join_starts_game_witness :
  matchmakingQueue (mkServer [] [alice]) = [alice] /\
  socketId alice ≠ "socket-b" /\
  matchmakingQueue
    (join_queue "socket-b" 1 noUuid "bob" None (DbUser "u" None) (mkServer [] [alice])).1
  = [].
Proof.
  assert (socketId alice ≠ "socket-b") as Hne by (vm_compute; discriminate).
  split; [reflexivity|]. split; [exact Hne|].
  exact (proj1 (second_join_starts_game (mkServer [] [alice]) "socket-b" 1 noUuid
                  "bob" None "u" None alice eq_refl Hne)).
Defined.

(** ** The periodic sweep *)

Lemma jm_In_get {V} (k : string) (v : V) (m : list (string * V)) :
  NoDup m.*1 -> (k, v) ∈ m -> jm_get k m = Some v.
Proof.
  induction m as [|[k0 v0] m IH]; [by intros _ ?%elem_of_nil|].
  rewrite fmap_cons. cbn [fst jm_get]. intros [Hk0 Hnd]%NoDup_cons.
  intros [[= <- <-]|Hin]%elem_of_cons.
  - by rewrite decide_True.
  - rewrite decide_False; [by apply IH|].
    intros ->. apply Hk0. apply list_elem_of_fmap. by exists (k, v).
Qed.

Lemma jm_get_filter {V} (P : string * V -> Prop) `{!forall x, Decision (P x)}
    (k : string) (v : V) (m : list (string * V)) :
  NoDup m.*1 ->
  jm_get k (filter P m) = Some v <-> jm_get k m = Some v /\ P (k, v).
Proof.
  intros Hnd. split.
  - intros Hget%jm_get_In. apply list_elem_of_filter in Hget as [HP Hin].
    split; [by apply jm_In_get|done].
  - intros [Hget%jm_get_In HP]. apply jm_In_get.
    + eapply sublist_NoDup; [exact Hnd|]. apply fmap_sublist, sublist_filter.
    + by apply list_elem_of_filter.
Qed.

Lemma filter_all {A} (P : A -> Prop) `{!forall x, Decision (P x)} (l : list A) :
  Forall P l -> filter P l = l.
Proof.
  induction 1 as [|x l Hx _ IH]; [done|]. by rewrite filter_cons_True, IH.
Qed.

Lemma sweep_fold now entries srv out :
  let evict := fun kr : string * Room =>
    isEmpty kr.2 || isInactive now ROOM_CLEANUP_INTERVAL kr.2 in
  let result :=
    fold_left (fun acc entry =>
      let room := entry.2 in
      if isEmpty room || isInactive now ROOM_CLEANUP_INTERVAL room then
        let room := clearTurnTimer room in
        let saved :=
          if bool_decide (gameStatus (gameState room) = Active)
             && bool_decide (0 < length (lines (gameState room)))%nat
          then saveGame now room else [] in
        (mkServer (jm_delete entry.1 (gameRooms acc.1)) (matchmakingQueue acc.1),
         acc.2 ++ saved)
      else acc) entries (srv, out) in
  gameRooms result.1
  = filter (fun kr => kr.1 ∉ (filter (fun e => evict e) entries).*1) (gameRooms srv) /\
  matchmakingQueue result.1 = matchmakingQueue srv.
Proof.
  cbv zeta. revert srv out. induction entries as [|e entries IH]; intros srv out.
  - simpl. split; [|done]. symmetry. apply filter_all.
    apply Forall_forall. intros kr _. apply not_elem_of_nil.
  - cbn [fold_left].
    destruct (isEmpty e.2 || isInactive now ROOM_CLEANUP_INTERVAL e.2) eqn:Hev.
    + edestruct IH as [-> ->]. cbn [fst gameRooms matchmakingQueue]. split; [|done].
      unfold jm_delete. rewrite list_filter_filter.
      apply list_filter_iff. intros kr.
      rewrite (filter_cons_True _ e entries) by (by rewrite Hev).
      rewrite fmap_cons, not_elem_of_cons. tauto.
    + edestruct IH as [-> ->]. split; [|done].
      rewrite (filter_cons_False _ e entries); [done|].
      rewrite Hev. by intros [].
Qed.

(** X19. A sweep leaves the queue alone and keeps exactly the rooms that still
    have a player and saw some activity within the last
    [ROOM_CLEANUP_INTERVAL] milliseconds; those it keeps are untouched. *)
Theorem sweep_keeps_live_rooms (now : Z) (srv : Server) (roomId : string)
    (room : Room) :
  NoDup (gameRooms srv).*1 ->
  matchmakingQueue (sweep now srv).1 = matchmakingQueue srv /\
  (jm_get roomId (gameRooms (sweep now srv).1) = Some room <->
   jm_get roomId (gameRooms srv) = Some room /\
   players room ≠ [] /\
   now - lastActivityTime room <= ROOM_CLEANUP_INTERVAL).
Proof.
  intros Hnd. unfold sweep.
  destruct (sweep_fold now (gameRooms srv) srv []) as [Hrooms Hqueue].
  cbv zeta in *. split; [exact Hqueue|]. rewrite Hrooms. clear Hrooms Hqueue.
  rewrite jm_get_filter by done. cbn [fst].
  assert (forall r : Room,
    isEmpty r || isInactive now ROOM_CLEANUP_INTERVAL r = false <->
    players r ≠ [] /\ now - lastActivityTime r <= ROOM_CLEANUP_INTERVAL) as Hlive.
  { intros r. rewrite orb_false_iff. unfold isEmpty, isInactive, jm_size.
    rewrite bool_decide_eq_false, Z.ltb_ge.
    destruct (players r); simpl; split; intros [? ?]; split; (done || lia). }
  split.
  - intros [Hget Hkeep]. split; [done|]. apply Hlive.
    destruct (isEmpty room || isInactive now ROOM_CLEANUP_INTERVAL room) eqn:Hev; [|done].
    destruct Hkeep. apply list_elem_of_fmap. exists (roomId, room). split; [done|].
    apply list_elem_of_filter. split; [cbn [snd]; by rewrite Hev|by apply jm_get_In].
  - intros (Hget & Hlive'). split; [done|]. apply Hlive in Hlive'.
    intros ((k & r) & -> & [Hev Hin]%list_elem_of_filter)%list_elem_of_fmap.
    simpl in *. apply (jm_In_get _ _ _ Hnd) in Hin. rewrite Hget in Hin.
    injection Hin as <-. by rewrite Hlive' in Hev.
Qed.

Lemma sweep_keeps_live_rooms_witness :
  NoDup (gameRooms freshServer).*1 /\
  jm_get "room-1" (gameRooms (sweep 5 freshServer).1) = Some freshRoom.
Proof.
  assert (NoDup (gameRooms freshServer).*1) as Hnd.
  { apply (bool_decide_unpack _). vm_compute. exact I. }
  split; [exact Hnd|].
  apply (proj2 (sweep_keeps_live_rooms 5 freshServer "room-1" freshRoom Hnd)).
  split; [reflexivity|]. split; [discriminate|]. vm_compute. discriminate.
Defined.

(** ** Disconnecting *)

Lemma playerLeaves_players now socket r :
  players (playerLeaves now socket r).1 = jm_delete socket (players r).
Proof.
  destruct (playerLeaves_state now socket r) as (Hsame & Hend). cbv zeta in *.
  destruct (decide (gameStatus (gameState r) = Active)) as [Hact|Hna].
  - by destruct (Hend Hact) as (_ & _ & -> & _).
  - by rewrite (Hsame Hna).
Qed.

Lemma jm_has_get {V} (k : string) (m : list (string * V)) :
  jm_has k m = false <-> jm_get k m = None.
Proof.
  unfold jm_has. rewrite bool_decide_eq_false. destruct (jm_get k m); split; try done.
  intros H. destruct H. by eexists.
Qed.

Lemma disconnect_fold now socket entries acc :
  (forall k room, jm_get k (gameRooms acc.1) = Some room ->
     jm_get socket (players room) = None \/ (k, room) ∈ entries) ->
  let result :=
    fold_left (fun acc entry =>
      if jm_has socket (players entry.2) then
        let '(_, srv, out) := handlePlayerLeaving now socket entry.1 acc.1 in
        (srv, acc.2 ++ out)
      else acc) entries acc in
  (forall k room, jm_get k (gameRooms result.1) = Some room ->
     jm_get socket (players room) = None) /\
  matchmakingQueue result.1 = matchmakingQueue acc.1.
Proof.
  cbv zeta. revert acc. induction entries as [|e entries IH]; intros acc Hacc.
  - simpl. split; [|done]. intros k room Hget.
    destruct (Hacc k room Hget) as [?|?%elem_of_nil]; done.
  - cbn [fold_left].
    destruct (jm_has socket (players e.2)) eqn:Hhas.
    + unfold handlePlayerLeaving.
      destruct (jm_get e.1 (gameRooms acc.1)) as [rx|] eqn:Hrx.
      * pose proof (playerLeaves_players now socket rx) as Hpl.
        destruct (playerLeaves now socket rx) as [room' out']. cbn [fst] in Hpl.
        match goal with |- context [fold_left ?f entries ?a] =>
          destruct (IH a) as [Hrooms Hqueue] end.
        { cbn [fst gameRooms]. intros k room.
          destruct (isEmpty room').
          - rewrite jm_get_delete. destruct (decide (e.1 = k)) as [<-|Hne]; [done|].
            intros Hget.
            destruct (Hacc k room Hget) as [?|[Heq|?]%elem_of_cons]; [by left| |by right].
            subst e. by destruct Hne.
          - rewrite jm_get_set. destruct (decide (e.1 = k)) as [<-|Hne].
            + intros [= <-]. left. rewrite Hpl, jm_get_delete. by rewrite decide_True.
            + intros Hget.
              destruct (Hacc k room Hget) as [?|[Heq|?]%elem_of_cons]; [by left| |by right].
              subst e. by destruct Hne. }
        split; [exact Hrooms|exact Hqueue].
      * destruct (IH (acc.1, acc.2 ++ [])) as [Hrooms Hqueue].
        { cbn [fst]. intros k room Hget.
          destruct (Hacc k room Hget) as [?|[Heq|?]%elem_of_cons]; [by left| |by right].
          subst e. cbn [fst] in Hrx. congruence. }
        split; [exact Hrooms|exact Hqueue].
    + apply IH. intros k room Hget.
      destruct (Hacc k room Hget) as [?|[Heq|?]%elem_of_cons]; [by left| |by right].
      subst e. left. by apply jm_has_get.
Qed.

(** X20. After a socket disconnects from a server it is nowhere any more: it
    is neither waiting in the queue nor a player of any registered room. *)
Theorem disconnect_removes_socket (srv : Server) (socket : string) (now : Z) :
  served srv ->
  let srv' := (disconnect socket now srv).1 in
  Forall (fun p => socketId p ≠ socket) (matchmakingQueue srv') /\
  (forall roomId room, jm_get roomId (gameRooms srv') = Some room ->
     jm_get socket (players room) = None).
Proof.
  intros [Hq _ _]%served_orderly. cbv zeta. unfold disconnect.
  match goal with |- context [fold_left ?f ?l ?a] =>
    destruct (disconnect_fold now socket l a) as [Hrooms Hqueue] end.
  { cbn [fst gameRooms]. intros k room Hget. right. by apply jm_get_In. }
  cbv zeta in *. split; [|exact Hrooms].
  rewrite Hqueue. cbn [fst matchmakingQueue].
  destruct (matchmakingQueue srv) as [|w [|w' rest]]; simpl in *; [done| |lia].
  destruct (decide (socketId w = socket)); by repeat constructor.
Qed.

Lemma disconnect_removes_socket_witness :
  served pairedServer /\
  Forall (fun p => socketId p ≠ "socket-a")
    (matchmakingQueue (disconnect "socket-a" 9 pairedServer).1).
Proof.
  split; [exact served_pairedServer|].
  exact (proj1 (disconnect_removes_socket pairedServer "socket-a" 9 served_pairedServer)).
Defined.

(** ** What is written to the record store *)

Lemma scoreMove_out mover now uuids r :
  let scored := scoreMove mover now uuids r in
  gameStartTime scored.1 = gameStartTime r /\
  scored.2 = (if Z.of_nat (length (checkForBoxes uuids (lines (gameState r))))
                 >=? TOTAL_BOXES
              then endGame now scored.1 else []).
Proof.
  unfold scoreMove. cbv zeta.
  destruct (_ - _ >? 0); simpl;
    destruct (Z.of_nat (length (checkForBoxes uuids (lines (gameState r)))) >=? TOTAL_BOXES);
    simpl; done.
Qed.

Lemma moveInRoom_out socket now uuids move room room' out :
  moveInRoom socket now uuids move room = Return (room', out) ->
  exists mover,
    let pushed :=
      updateActivityTime now
        (upd (fun g => set_lines (lines g ++ [stamped now move]) g)
             (clearTurnTimer room)) in
    let scored := scoreMove mover now uuids pushed in
    gameStatus (gameState room) = Active /\
    room' = (if bool_decide (gameStatus (gameState scored.1) = Active)
             then (startTurnTimer scored.1).1 else scored.1) /\
    out = scored.2 ++
          (if bool_decide (gameStatus (gameState scored.1) = Active)
           then (startTurnTimer scored.1).2 else []) ++
          [game_update (id room') (gameState room'); callback true None].
Proof.
  unfold moveInRoom.
  destruct (list_find _ _) as [[i player]|]; [|done].
  destruct (playerNumber player) as [mover|] eqn:Hnum; [|done].
  destruct (bool_decide (currentPlayer (gameState room) ≠ mover)) eqn:Hturn; [done|].
  destruct (bool_decide (gameStatus (gameState room) ≠ Active)) eqn:Hact; [done|].
  destruct (isLineAlreadyDrawn (gameState room) move) eqn:Hdup; [done|].
  cbn [orb]. apply bool_decide_eq_false in Hact. apply dec_stable in Hact.
  fold (stamped now move).
  destruct (scoreMove mover now uuids _) as [scored persisted] eqn:Hscore.
  intros Hret. exists mover. cbv zeta. rewrite Hscore. cbn [fst snd].
  split; [done|].
  destruct (bool_decide (gameStatus (gameState scored) = Active));
    simpl in Hret; by injection Hret as <- <-.
Qed.

(** X21. The move that fills the grid writes the game to the record store
    once, with both players and the final state, and, when both players
    are registered users, one win and one loss, never a draw, with each
    player's own score. Nothing else is sent but the update of the room
    and the acknowledgement. *)
Theorem finished_game_is_recorded (r r' : Room) (socket : string) (now : Z)
    (uuids : nat -> string) (move : Line) (out : list Emit)
    (first second : Player) :
  reachable r ->
  moveInRoom socket now uuids move r = Return (r', out) ->
  gameStatus (gameState r') = Ended ->
  getPlayerByNumber P1 r = Some first ->
  getPlayerByNumber P2 r = Some second ->
  let g' := gameState r' in
  exists won1 won2,
    out = db_game_create (id r) (gameStartTime r) now first second g'
          :: match userId first, userId second with
             | Some u1, Some u2 =>
                 [db_user_inc u1 won1 won2 0 (player1 (scores g'));
                  db_user_inc u2 won2 won1 0 (player2 (scores g'))]
             | _, _ => []
             end
          ++ [game_update (id r) g'; callback true None] /\
    (won1 = 1 /\ won2 = 0 /\ player2 (scores g') < player1 (scores g') \/
     won1 = 0 /\ won2 = 1 /\ player1 (scores g') < player2 (scores g')).
Proof.
  intros Hc%reachable_consistent Hmove Hended Hfirst Hsecond. cbv zeta.
  pose proof (consistent_moveInRoom _ _ _ _ _ _ _ Hc Hmove) as [[u0 Hb] Hsum _ _].
  apply moveInRoom_out in Hmove as (mover & Hact & Hr' & Hout). cbv zeta in Hr', Hout.
  set (pushed := updateActivityTime now _) in *.
  destruct (scoreMove_state mover now uuids pushed)
    as (_ & Hbx & _ & _ & Hst & Hw & _ & Hid & Hpl & _).
  destruct (scoreMove_out mover now uuids pushed) as (Hstart & Hpers).
  cbv zeta in *.
  destruct (bool_decide (gameStatus (gameState (scoreMove mover now uuids pushed).1) = Active))
    eqn:Hrun.
  { apply bool_decide_eq_true in Hrun. subst r'.
    change (gameStatus (gameState (scoreMove mover now uuids pushed).1) = Ended) in Hended.
    congruence. }
  subst r'. set (scored := (scoreMove mover now uuids pushed).1) in *.
  destruct (Z.of_nat (length (checkForBoxes uuids (lines (gameState pushed)))) >=? TOTAL_BOXES)
    eqn:Hfull.
  2: { change (gameStatus (gameState pushed)) with (gameStatus (gameState r)) in Hst.
       congruence. }
  assert (player1 (scores (gameState scored)) + player2 (scores (gameState scored))
          = TOTAL_BOXES) as Htotal.
  { rewrite Hsum, Hbx. apply Z.geb_le in Hfull.
    pose proof (length_closedRegions_le (lines (gameState pushed))) as Hle.
    rewrite <- (length_checkForBoxes uuids) in Hle. lia. }
  exists (b2z (bool_decide (winner (gameState scored) = Some P1))),
         (b2z (bool_decide (winner (gameState scored) = Some P2))).
  split.
  - rewrite Hout, Hpers. unfold endGame, saveGame, updatePlayerStats, getPlayerByNumber.
    rewrite Hpl, Hid, Hstart, Hst.
    change (players pushed) with (players r). change (id pushed) with (id r).
    change (gameStartTime pushed) with (gameStartTime r).
    unfold getPlayerByNumber in Hfirst, Hsecond. rewrite Hfirst, Hsecond.
    rewrite bool_decide_eq_false_2 by (intros H; by apply H).
    cbn [mbind option_bind].
    assert (bool_decide (winner (gameState scored) = None) = false) as ->.
    { apply bool_decide_eq_false. rewrite Hw. unfold decideWinner.
      destruct (Z.gtb_spec (player1 (scores (gameState scored)))
                           (player2 (scores (gameState scored)))); [done|].
      destruct (Z.gtb_spec (player2 (scores (gameState scored)))
                           (player1 (scores (gameState scored)))); [done|].
      unfold TOTAL_BOXES, GRID_SIZE in Htotal. lia. }
    by destruct (userId first), (userId second).
  - rewrite Hw. unfold decideWinner.
    destruct (Z.gtb_spec (player1 (scores (gameState scored)))
                         (player2 (scores (gameState scored)))).
    { left. rewrite bool_decide_eq_true_2, bool_decide_eq_false_2 by done. simpl. lia. }
    destruct (Z.gtb_spec (player2 (scores (gameState scored)))
                         (player1 (scores (gameState scored)))).
    { right. rewrite bool_decide_eq_false_2, bool_decide_eq_true_2 by done. simpl. lia. }
    unfold TOTAL_BOXES, GRID_SIZE in Htotal. lia.
Qed.

Lemma finished_game_is_recorded_witness :
  let r := ticks 1770 freshRoom in
  let last := edge 5 4 5 5 P2 in
  let r' := submit "socket-b" last r in
  let out := match moveInRoom "socket-b" 1 noUuid last r with
             | Return (_, out) => out
             | Throw _ => []
             end in
  reachable r /\
  moveInRoom "socket-b" 1 noUuid last r = Return (r', out) /\
  gameStatus (gameState r') = Ended /\
  player1 (scores (gameState r')) ≠ player2 (scores (gameState r')).
Proof.
  cbv zeta.
  assert (reachable (ticks 1770 freshRoom)) as Hr
    by apply reachable_ticks, reach_create.
  assert (moveInRoom "socket-b" 1 noUuid (edge 5 4 5 5 P2) (ticks 1770 freshRoom)
          = Return (submit "socket-b" (edge 5 4 5 5 P2) (ticks 1770 freshRoom),
                    match moveInRoom "socket-b" 1 noUuid (edge 5 4 5 5 P2)
                            (ticks 1770 freshRoom) with
                    | Return (_, out) => out
                    | Throw _ => []
                    end)) as Hmove by (vm_compute; reflexivity).
  assert (gameStatus (gameState (submit "socket-b" (edge 5 4 5 5 P2)
            (ticks 1770 freshRoom))) = Ended) as Hended by (vm_compute; reflexivity).
  assert (getPlayerByNumber P1 (ticks 1770 freshRoom)
          = Some (set_playerNumber (Some P1) alice)) as Hfirst by (vm_compute; reflexivity).
  assert (getPlayerByNumber P2 (ticks 1770 freshRoom)
          = Some (set_playerNumber (Some P2) bob)) as Hsecond by (vm_compute; reflexivity).
  split; [exact Hr|].
  split; [exact Hmove|].
  split; [exact Hended|].
  set (r := ticks 1770 freshRoom) in *.
  set (r' := submit "socket-b" (edge 5 4 5 5 P2) r) in *.
  set (out := match moveInRoom "socket-b" 1 noUuid (edge 5 4 5 5 P2) r with
              | Return (_, out) => out
              | Throw _ => []
              end) in *.
  clearbody out r' r.
  pose proof (finished_game_is_recorded r r' _ _ _ _ out _ _ Hr Hmove Hended Hfirst Hsecond) as H.
  destruct H
    as (won1 & won2 & _ & [(_ & _ & Hlt)|(_ & _ & Hlt)]).
  all: intros Heq; rewrite Heq in Hlt; exact (Z.lt_irrefl _ Hlt).
Defined.

(** ** The moves on offer *)

Lemma drawn_moveOn g p se :
  isLineAlreadyDrawn g (moveOn p se) = existsb (fun line => joins line se.1 se.2) (lines g).
Proof. done. Qed.

Lemma available_cell g (c r : bool) s e1 e2 :
  (if c then if negb (isLineAlreadyDrawn g (moveOn (currentPlayer g) (s, e1)))
             then [moveOn (currentPlayer g) (s, e1)] else [] else [])
  ++ (if r then if negb (isLineAlreadyDrawn g (moveOn (currentPlayer g) (s, e2)))
                then [moveOn (currentPlayer g) (s, e2)] else [] else [])
  = moveOn (currentPlayer g)
    <$> filter (undrawn (lines g))
          ((if c then [(s, e1)] else []) ++ (if r then [(s, e2)] else [])).
Proof.
  rewrite filter_app, fmap_app. f_equal.
  - destruct c; [|done]. rewrite filter_cons, filter_nil, drawn_moveOn.
    destruct (existsb _ _) eqn:E; case_decide as H; unfold undrawn in H;
      cbn [fst snd] in *; (done || congruence).
  - destruct r; [|done]. rewrite filter_cons, filter_nil, drawn_moveOn.
    destruct (existsb _ _) eqn:E; case_decide as H; unfold undrawn in H;
      cbn [fst snd] in *; (done || congruence).
Qed.

Lemma getAvailableMoves_edges g :
  getAvailableMoves g
  = moveOn (currentPlayer g) <$> filter (undrawn (lines g)) gridEdges.
Proof.
  unfold getAvailableMoves, gridEdges.
  generalize (seqZ 0 GRID_SIZE) at 2 4. generalize (seqZ 0 GRID_SIZE).
  intros cs rs. induction rs as [|row rs IH]; [done|].
  cbn [flat_map]. rewrite filter_app, fmap_app, IH. f_equal.
  clear IH. induction cs as [|col cs IH]; [done|].
  cbn [flat_map]. rewrite filter_app, fmap_app, IH. f_equal.
  apply (available_cell g (col <? GRID_SIZE - 1) (row <? GRID_SIZE - 1)).
Qed.

Lemma gridEdges_NoDup : NoDup gridEdges.
Proof. apply (bool_decide_unpack _). by vm_compute. Qed.

Lemma gridEdges_oriented se : se ∈ gridEdges -> (se.2, se.1) ∉ gridEdges.
Proof.
  assert (Forall (fun se => (se.2, se.1) ∉ gridEdges) gridEdges) as H.
  { apply (bool_decide_unpack _). by vm_compute. }
  rewrite Forall_forall in H. apply H.
Qed.

(** A line joins at most one edge of the grid. *)
Lemma joins_one_edge m se se' :
  se ∈ gridEdges -> se' ∈ gridEdges ->
  joins m se.1 se.2 = true -> joins m se'.1 se'.2 = true -> se = se'.
Proof.
  intros Hin Hin' H H'. apply joins_spec in H, H'.
  destruct se as [s e], se' as [s' e']. cbn [fst snd] in *.
  destruct H as [[Hs He]|[Hs He]], H' as [[Hs' He']|[Hs' He']]; simplify_eq; try done.
  all: by apply gridEdges_oriented in Hin.
Qed.

Lemma undrawn_snoc ls m se :
  undrawn (ls ++ [m]) se <-> undrawn ls se /\ joins m se.1 se.2 = false.
Proof.
  unfold undrawn. rewrite existsb_app. cbn [existsb].
  rewrite orb_false_r, orb_false_iff. done.
Qed.

Lemma filter_same {A} (P P' : A -> Prop) `{!forall x, Decision (P x)}
    `{!forall x, Decision (P' x)} (l : list A) :
  (forall y, y ∈ l -> (P' y <-> P y)) -> filter P' l = filter P l.
Proof.
  induction l as [|a l IH]; intros Hiff; [done|].
  rewrite !filter_cons, IH by (intros y Hy; apply Hiff; by right).
  destruct (Hiff a) as [H1 H2]; [by left|]. repeat case_decide; tauto || done.
Qed.

Lemma filter_drop_one {A} (P P' : A -> Prop) `{!forall x, Decision (P x)}
    `{!forall x, Decision (P' x)} (l : list A) (x : A) :
  NoDup l -> x ∈ l -> P x ->
  (forall y, y ∈ l -> (P' y <-> P y /\ y ≠ x)) ->
  S (length (filter P' l)) = length (filter P l).
Proof.
  induction l as [|a l IH]; intros Hnd Hin Hx Hiff.
  { by apply elem_of_nil in Hin. }
  apply NoDup_cons in Hnd as [Ha Hnd]. rewrite !filter_cons.
  destruct (Hiff a) as [H1 H2]; [by left|].
  apply elem_of_cons in Hin as [->|Hin].
  - rewrite decide_False by (intros [_ Hne]%H1; by apply Hne).
    rewrite decide_True by done. cbn [length]. f_equal. f_equal.
    apply filter_same. intros y Hy. rewrite Hiff by (by right).
    split; [tauto|]. intros Hp. split; [done|]. by intros ->.
  - pose proof (IH Hnd Hin Hx (fun y Hy => Hiff y (list_elem_of_further _ _ _ Hy))) as Hl.
    assert (a ≠ x) by (by intros ->).
    destruct (decide (P a)).
    + rewrite decide_True by (by apply H2). cbn [length]. by rewrite Hl.
    + by rewrite decide_False by (intros [? _]%H1; done).
Qed.

(** What a new line does to the offer: it uses up the move on the edge it
    joins, if that edge is on offer, and nothing else. *)
Lemma available_after g g' m :
  lines g' = lines g ++ [m] ->
  ((exists c, c ∈ getAvailableMoves g /\ joins m (l_start c) (l_end c) = true) ->
   S (length (getAvailableMoves g')) = length (getAvailableMoves g)) /\
  ((forall c, c ∈ getAvailableMoves g -> joins m (l_start c) (l_end c) = false) ->
   length (getAvailableMoves g') = length (getAvailableMoves g)).
Proof.
  intros Hl. rewrite !getAvailableMoves_edges, !length_fmap, Hl. split.
  - intros (c & (se & -> & [Hfree Hin]%list_elem_of_filter)%list_elem_of_fmap & Hj).
    cbn [moveOn l_start l_end] in Hj.
    apply (filter_drop_one _ _ _ se); [apply gridEdges_NoDup|done..|].
    intros y Hy. rewrite undrawn_snoc. split.
    + intros [Hu Hn]. split; [done|]. intros ->. congruence.
    + intros [Hu Hne]. split; [done|].
      destruct (joins m y.1 y.2) eqn:Hjy; [|done].
      destruct Hne. by eapply joins_one_edge.
  - intros Hnone. f_equal. apply filter_same. intros y Hy.
    rewrite undrawn_snoc. split; [tauto|]. intros Hu. split; [done|].
    apply (Hnone (moveOn (currentPlayer g) y)).
    apply list_elem_of_fmap. exists y. split; [done|]. by apply list_elem_of_filter.
Qed.

(** X22. [getAvailableMoves] offers no edge twice, in either direction, and at
    most the 60 edges of the grid. *)
Theorem offer_has_each_edge_once (g : GameState) :
  NoDupEdges (getAvailableMoves g) /\ (length (getAvailableMoves g) <= 60)%nat.
Proof.
  rewrite getAvailableMoves_edges. split.
  - intros i j li lj Hi Hj Hjoin.
    apply list_lookup_fmap_Some in Hi as (si & -> & Hi), Hj as (sj & -> & Hj).
    cbn [moveOn l_start l_end] in Hjoin.
    assert (si ∈ gridEdges /\ sj ∈ gridEdges) as [Hin_i Hin_j].
    { apply list_elem_of_lookup_2 in Hi, Hj.
      apply list_elem_of_filter in Hi, Hj. tauto. }
    assert (si = sj) as ->.
    { apply (joins_one_edge (moveOn (currentPlayer g) si)); [done..| |done].
      apply joins_spec. by left. }
    eapply NoDup_lookup; [|exact Hi|exact Hj].
    apply NoDup_filter, gridEdges_NoDup.
  - rewrite length_fmap. etrans; [apply length_filter|]. by vm_compute.
Qed.

(** X23. A forced move uses up exactly one of the moves on offer: after it the
    offer is one shorter, whoever is to move next. *)
Theorem forced_move_uses_one_offer (r r' : Room) (rnd : nat) (now : Z)
    (uuids : nat -> string) (move : Line) (out : list Emit) :
  makeRandomMove rnd now uuids r = (Some move, r', out) ->
  S (length (getAvailableMoves (gameState r')))
  = length (getAvailableMoves (gameState r)).
Proof.
  intros Hforced.
  destruct (getAvailableMoves (gameState r)) eqn:E.
  { by rewrite makeRandomMove_None in Hforced. }
  destruct (makeRandomMove_Some rnd now uuids r) as (picked & out' & Hin & Heq);
    [by rewrite E|].
  cbv zeta in Heq. rewrite Heq in Hforced. injection Hforced as _ <- _.
  rewrite <- E.
  match goal with |- context [scoreMove ?m now uuids ?p] =>
    destruct (scoreMove_state m now uuids p) as (Hl & _) end.
  cbv zeta in Hl.
  eapply (proj1 (available_after _ _ (stamped now picked) Hl)).
  exists picked. split; [done|]. apply joins_spec. by left.
Qed.

(** X24. An accepted move that is on offer, drawn in either direction, uses up
    that offer and no other; an accepted move that is not on offer leaves
    the offer as it is. *)
Theorem submitted_move_uses_its_offer (r r' : Room) (socket : string) (now : Z)
    (uuids : nat -> string) (move : Line) (out : list Emit) :
  moveInRoom socket now uuids move r = Return (r', out) ->
  ((exists c, c ∈ getAvailableMoves (gameState r) /\ sameEdge move c) ->
   S (length (getAvailableMoves (gameState r')))
   = length (getAvailableMoves (gameState r))) /\
  ((forall c, c ∈ getAvailableMoves (gameState r) -> ~ sameEdge move c) ->
   length (getAvailableMoves (gameState r'))
   = length (getAvailableMoves (gameState r))).
Proof.
  intros (Hl & _)%(moveInRoom_applies _ _ uuids).
  destruct (available_after _ _ _ Hl) as [Hone Hnone]. split.
  - intros (c & Hin & Hsame). apply Hone. exists c. split; [done|].
    by apply (joins_sameEdge (stamped now move)).
  - intros Hno. apply Hnone. intros c Hin.
    destruct (joins (stamped now move) (l_start c) (l_end c)) eqn:Hj; [|done].
    destruct (Hno c Hin). by apply (joins_sameEdge (stamped now move)) in Hj.
Qed.

Lemma forced_move_uses_one_offer_witness :
  S (length (getAvailableMoves (gameState (autoPlay 1 boxClosed))))
  = length (getAvailableMoves (gameState boxClosed)).
Proof.
  cbn [autoPlay].
  destruct (makeRandomMove 0 1 noUuid boxClosed) as [[[m|] r1] out1] eqn:Hforced.
  - exact (forced_move_uses_one_offer _ _ _ _ _ _ _ Hforced).
  - vm_compute in Hforced. discriminate Hforced.
Defined.

Lemma submitted_move_uses_its_offer_witness :
  let move := edge 3 4 3 3 P1 in
  let r' := submit "socket-b" move boxClosed in
  let out := match moveInRoom "socket-b" 1 noUuid move boxClosed with
             | Return (_, out) => out
             | Throw _ => []
             end in
  (exists c, c ∈ getAvailableMoves (gameState boxClosed) /\ sameEdge move c) /\
  moveInRoom "socket-b" 1 noUuid move boxClosed = Return (r', out) /\
  S (length (getAvailableMoves (gameState r')))
  = length (getAvailableMoves (gameState boxClosed)).
Proof.
  cbv zeta.
  assert (exists c, c ∈ getAvailableMoves (gameState boxClosed)
                    /\ sameEdge (edge 3 4 3 3 P1) c) as Hoffer.
  { exists (edge 3 3 3 4 P2). split; [|by right].
    apply getAvailableMoves_spec. exists 3, 3. vm_compute. intuition congruence. }
  assert (moveInRoom "socket-b" 1 noUuid (edge 3 4 3 3 P1) boxClosed
          = Return (submit "socket-b" (edge 3 4 3 3 P1) boxClosed,
                    match moveInRoom "socket-b" 1 noUuid (edge 3 4 3 3 P1) boxClosed with
                    | Return (_, out) => out
                    | Throw _ => []
                    end)) as Hmove by (vm_compute; reflexivity).
  split; [exact Hoffer|]. split; [exact Hmove|].
  set (r' := submit "socket-b" (edge 3 4 3 3 P1) boxClosed) in *.
  set (out := match moveInRoom "socket-b" 1 noUuid (edge 3 4 3 3 P1) boxClosed with
              | Return (_, out) => out
              | Throw _ => []
              end) in *.
  clearbody out r'.
  exact (proj1 (submitted_move_uses_its_offer boxClosed r' _ _ _ _ out Hmove) Hoffer).
Defined.

(** ** Requests that name a room *)

Lemma callbacks_app out out' : callbacks (out ++ out') = callbacks out ++ callbacks out'.
Proof. apply omap_app. Qed.

Lemma endGame_callbacks now r : callbacks (endGame now r) = [].
Proof.
  unfold endGame, saveGame, updatePlayerStats. rewrite callbacks_app.
  destruct (getPlayerByNumber P1 r) as [p1|], (getPlayerByNumber P2 r) as [p2|];
    cbn [mbind option_bind]; destruct (bool_decide _); try done.
  all: try by destruct (userId p1).
  by destruct (userId p1), (userId p2).
Qed.

Lemma playerLeaves_callbacks now socket r : callbacks (playerLeaves now socket r).2 = [].
Proof.
  unfold playerLeaves. cbv zeta.
  destruct (bool_decide _); cbn [snd]; rewrite callbacks_app, ?endGame_callbacks;
    by destruct (jm_get socket (players r)).
Qed.

Lemma pauseInRoom_callbacks socket now room room' out :
  pauseInRoom socket now room = Return (room', out) -> callbacks out = [(true, None)].
Proof.
  unfold pauseInRoom. destruct (jm_has socket (players room)); [|done]. simpl negb.
  cbv iota zeta. set (r1 := updateActivityTime now _).
  destruct (isPaused (gameState r1)).
  - by intros [= _ <-].
  - by destruct (bool_decide _); intros [= _ <-].
Qed.

Lemma moveInRoom_callbacks socket now uuids move room room' out :
  moveInRoom socket now uuids move room = Return (room', out) ->
  callbacks out = [(true, None)].
Proof.
  intros (mover & _ & _ & ->)%moveInRoom_out. cbv zeta.
  destruct (scoreMove_out mover now uuids
    (updateActivityTime now
       (upd (fun g => set_lines (lines g ++ [stamped now move]) g)
          (clearTurnTimer room)))) as [_ ->].
  rewrite !callbacks_app.
  destruct (_ >=? _); rewrite ?endGame_callbacks; by destruct (bool_decide _).
Qed.

(** X25. A move, a pause toggle and a request to leave are each answered
    exactly once, and a request answered with a failure leaves the whole
    server as it was. *)
Theorem room_request_answered_once (srv : Server) (now : Z) (uuids : nat -> string)
    (req : Request) (socket roomId : string) (move : Line) :
  req = MakeMove socket roomId move \/ req = PauseGame socket roomId
  \/ req = LeaveRoom socket roomId ->
  exists ok m,
    callbacks (serve now uuids req srv).2 = [(ok, m)] /\
    (ok = false -> (serve now uuids req srv).1 = srv).
Proof.
  intros [->|[->| ->]]; cbn [serve].
  - unfold make_move. destruct (jm_get roomId (gameRooms srv)) as [room|].
    2: { by eexists _, _. }
    destruct (moveInRoom socket now uuids move room) as [[room' out]|m] eqn:Hmove.
    2: { by eexists _, _. }
    exists true, None. split; [|done]. by eapply moveInRoom_callbacks.
  - unfold pause_game. destruct (jm_get roomId (gameRooms srv)) as [room|].
    2: { by eexists _, _. }
    destruct (pauseInRoom socket now room) as [[room' out]|m] eqn:Hpause.
    2: { by eexists _, _. }
    exists true, None. split; [|done]. by eapply pauseInRoom_callbacks.
  - unfold leave_room, handlePlayerLeaving.
    destruct (jm_get roomId (gameRooms srv)) as [room|].
    2: { by eexists _, _. }
    pose proof (playerLeaves_callbacks now socket room) as Hcb.
    destruct (playerLeaves now socket room) as [room' out]. cbn [snd] in Hcb.
    exists true, None. split; [|done]. cbn [snd]. by rewrite callbacks_app, Hcb.
Qed.

Lemma room_request_answered_once_witness :
  exists ok m,
    callbacks (serve 5 noUuid (PauseGame "socket-x" (noUuid 0%nat)) pairedServer).2
    = [(ok, m)] /\
    (ok = false ->
     (serve 5 noUuid (PauseGame "socket-x" (noUuid 0%nat)) pairedServer).1 = pairedServer).
Proof.
  apply (room_request_answered_once pairedServer 5 noUuid _ "socket-x" (noUuid 0%nat)
           (edge 0 0 0 1 P1)).
  right. left. reflexivity.
Defined.

(** X26. A request that names a room touches nothing else: the other rooms of
    the registry and the queue are as before. *)
Theorem room_request_is_local (srv : Server) (now : Z) (uuids : nat -> string)
    (req : Request) (roomId other : string) :
  targetRoom req = Some roomId ->
  other ≠ roomId ->
  jm_get other (gameRooms (serve now uuids req srv).1) = jm_get other (gameRooms srv) /\
  matchmakingQueue (serve now uuids req srv).1 = matchmakingQueue srv.
Proof.
  intros Htarget Hother.
  destruct req as [socket username phone db | socket k move
    | socket k | socket k | socket | k rnd | ]; simplify_eq/=.
  - unfold make_move. destruct (jm_get roomId (gameRooms srv)) as [room|]; [|done].
    destruct (moveInRoom socket now uuids move room) as [[room' out]|m]; [|done].
    cbn [fst gameRooms matchmakingQueue]. by rewrite jm_get_set, decide_False.
  - unfold pause_game. destruct (jm_get roomId (gameRooms srv)) as [room|]; [|done].
    destruct (pauseInRoom socket now room) as [[room' out]|m]; [|done].
    cbn [fst gameRooms matchmakingQueue]. by rewrite jm_get_set, decide_False.
  - unfold leave_room, handlePlayerLeaving.
    destruct (jm_get roomId (gameRooms srv)) as [room|]; [|done].
    destruct (playerLeaves now socket room) as [room' out].
    cbn [fst gameRooms matchmakingQueue].
    destruct (isEmpty room').
    + by rewrite jm_get_delete, decide_False.
    + by rewrite jm_get_set, decide_False.
  - unfold timerFires. destruct (jm_get roomId (gameRooms srv)) as [room|]; [|done].
    destruct (turnTimer room); [|done].
    destruct (timerTick rnd now uuids room) as [room' out].
    cbn [fst gameRooms matchmakingQueue]. by rewrite jm_get_set, decide_False.
Qed.

Lemma room_request_is_local_witness :
  jm_get (noUuid 0%nat)
    (gameRooms (serve 5 noUuid (LeaveRoom "socket-a" "room-9") pairedServer).1)
  = jm_get (noUuid 0%nat) (gameRooms pairedServer).
Proof.
  refine (proj1 (room_request_is_local pairedServer 5 noUuid
                   (LeaveRoom "socket-a" "room-9") "room-9" (noUuid 0%nat) _ _)).
  - reflexivity.
  - unfold noUuid. discriminate.
Defined.

(** ** Joining and withdrawing *)

Lemma disconnect_absent now socket entries acc :
  Forall (fun entry => jm_has socket (players entry.2) = false) entries ->
  fold_left (fun acc entry =>
      if jm_has socket (players entry.2) then
        let '(_, srv, out) := handlePlayerLeaving now socket entry.1 acc.1 in
        (srv, acc.2 ++ out)
      else acc) entries acc = acc.
Proof.
  induction 1 as [|e entries He _ IH]; [done|]. cbn [fold_left]. by rewrite He.
Qed.

(** X27. A player who joins an empty queue and disconnects before anybody else
    joins leaves the server as it was: the queue is empty again and no room
    has changed. *)
Theorem waiting_player_can_withdraw (srv : Server) (socket : string) (now now' : Z)
    (uuids : nat -> string) (name : string) (tel : option string) (db : UserRecord) :
  matchmakingQueue srv = [] ->
  Forall (fun room => jm_has socket (players room) = false) (jm_values (gameRooms srv)) ->
  (default "" tel ≠ "" -> db ≠ DbFailure) ->
  let waiting := (join_queue socket now uuids name tel db srv).1 in
  socketId <$> matchmakingQueue waiting = [socket] /\
  gameRooms waiting = gameRooms srv /\
  disconnect socket now' waiting = (srv, []).
Proof.
  intros Hq Hout Hdb. destruct srv as [rooms queue]. cbn [matchmakingQueue gameRooms] in *.
  subst queue. cbv zeta. unfold join_queue. cbn [matchmakingQueue gameRooms].
  rewrite bool_decide_eq_false_2 by (by intros ?%Exists_nil).
  cbv zeta.
  assert (exists user, (if bool_decide (default "" tel ≠ "")
                        then match db with
                             | DbUser u r => Return (Some (u, r))
                             | DbFailure => Throw MsgJoinQueueError
                             end
                        else Return None) = Return user) as [user ->].
  { case_bool_decide as Htel; [|by eexists]. destruct db; [by destruct Hdb|by eexists]. }
  cbn [app fst matchmakingQueue gameRooms]. split; [done|]. split; [done|].
  unfold disconnect. cbn [matchmakingQueue gameRooms dequeue socketId].
  rewrite decide_True by done. apply disconnect_absent.
  unfold jm_values in Hout. by apply Forall_fmap in Hout.
Qed.

Lemma waiting_player_can_withdraw_witness :
  disconnect "socket-c" 9
    (join_queue "socket-c" 8 noUuid "carol" None DbFailure pairedServer).1
  = (pairedServer, []).
Proof.
  refine (proj2 (proj2 (waiting_player_can_withdraw pairedServer "socket-c" 8 9 noUuid
                          "carol" None DbFailure _ _ _))).
  - reflexivity.
  - vm_compute. by repeat constructor.
  - intros H. by destruct H.
Defined.
